(** * Flask_Rag browser client: a shallow embedding and its properties

    The three scripts of the client (the API bindings [api.js], the page
    controller and view helpers [main.js], and the speech wrapper [Voice])
    are embedded as functions over an explicit page state.  Host facilities
    the scripts call (strings, JSON, fetch, the DOM, object URLs, the speech
    engine) are modelled as far as the scripts use them. *)

From Stdlib Require Import ZArith Ascii String List Lia.
From stdpp Require Import base strings gmap list pretty.

Set Warnings "-register-all".
Open Scope string_scope.

(** ** JavaScript values and the built-ins the scripts call *)
Module JS.

(** A [File] as the controller sees it: [file.size], [file.type]. *)
Record File := { file_name : string; file_size : Z; file_type : string }.

(** Values.  Numbers are the integers (counts, sizes, status codes);
    characters are code units below 256. *)
Inductive Value :=
| VUndefined
| VNull
| VBool (b : bool)
| VNum (n : Z)
| VStr (s : string)
| VArr (items : list Value)
| VObj (props : list (string * Value))
| VFile (f : File).

(** Exceptions: [new Error(message)] of the scripts, and the errors the
    host raises. *)
Inductive exn :=
| Error (message : string)
| TypeError (message : string)
| SyntaxError (message : string)
| DOMException (name : string).

Definition message_of (e : exn) : string :=
  match e with
  | Error m | TypeError m | SyntaxError m | DOMException m => m
  end.

(** [!!v] *)
Definition truthy (v : Value) : bool :=
  match v with
  | VUndefined | VNull => false
  | VBool b => b
  | VNum n => negb (n =? 0)%Z
  | VStr "" => false
  | VStr _ => true
  | VArr _ | VObj _ | VFile _ => true
  end.

Definition typeof (v : Value) : string :=
  match v with
  | VUndefined => "undefined"
  | VBool _ => "boolean"
  | VNum _ => "number"
  | VStr _ => "string"
  | VNull | VArr _ | VObj _ | VFile _ => "object"
  end.

(** [a === b] where [b] is a string literal. *)
Definition strict_eq_str (v : Value) (lit : string) : bool :=
  match v with
  | VStr s => bool_decide (s = lit)
  | _ => false
  end.

(** [a || b] *)
Definition or_else (a b : Value) : Value := if truthy a then a else b.

Definition join_with (sep : string) : list string -> string :=
  fix go l :=
    match l with
    | [] => ""
    | [x] => x
    | x :: r => x +:+ sep +:+ go r
    end.

(** The abstract operation ToString. *)
Fixpoint toString (v : Value) : string :=
  match v with
  | VUndefined => "undefined"
  | VNull => "null"
  | VBool true => "true"
  | VBool false => "false"
  | VNum n => pretty n
  | VStr s => s
  | VArr items =>
      join_with ","
        ((fix each l :=
            match l with
            | [] => []
            | x :: r =>
                match x with
                | VUndefined | VNull => ""
                | _ => toString x
                end :: each r
            end) items)
  | VObj _ => "[object Object]"
  | VFile _ => "[object File]"
  end.

(** [v.toString()] *)
Definition call_toString (v : Value) : exn + string :=
  match v with
  | VUndefined | VNull => inl (TypeError "Cannot read properties of undefined (reading 'toString')")
  | _ => inr (toString v)
  end.

(** White space and line terminators of ECMAScript that fit a code unit
    below 256: TAB, LF, VT, FF, CR, SP, NBSP. *)
Definition is_white_space (c : ascii) : bool :=
  let n := N_of_ascii c in
  ((9 <=? n) && (n <=? 13) || (n =? 32) || (n =? 160))%N.

Fixpoint trimStart (s : string) : string :=
  match s with
  | String c r => if is_white_space c then trimStart r else s
  | "" => ""
  end.

Definition trimEnd (s : string) : string :=
  String.rev (trimStart (String.rev s)).

(** [String.prototype.trim] *)
Definition trim (s : string) : string := trimEnd (trimStart s).

(** [v.trim()] *)
Definition call_trim (v : Value) : exn + string :=
  match v with
  | VStr s => inr (trim s)
  | VUndefined | VNull => inl (TypeError "Cannot read properties of undefined (reading 'trim')")
  | _ => inl (TypeError "trim is not a function")
  end.

(** [s.replace(/\/$/, '')]: without the [m] flag [$] matches at the end of
    the input only, so at most the last character goes. *)
Definition replace_trailing_slash (s : string) : string :=
  match String.rev s with
  | String "/" r => String.rev r
  | _ => s
  end.

(** [v.replace(/\/$/, '')] *)
Definition call_replace_trailing_slash (v : Value) : exn + string :=
  match v with
  | VStr s => inr (replace_trailing_slash s)
  | VUndefined | VNull => inl (TypeError "Cannot read properties of undefined (reading 'replace')")
  | _ => inl (TypeError "replace is not a function")
  end.

Fixpoint assoc (k : string) (props : list (string * Value)) : option Value :=
  match props with
  | [] => None
  | (k', v) :: r => if bool_decide (k' = k) then Some v else assoc k r
  end.

(** [v.k] for a property name [k] that no prototype defines ([error],
    [status], ...): [undefined] unless [v] is an object that has it. *)
Definition get_prop (v : Value) (k : string) : exn + Value :=
  match v with
  | VUndefined | VNull =>
      inl (TypeError ("Cannot read properties of undefined (reading '" +:+ k +:+ "')"))
  | VObj props => inr (default VUndefined (assoc k props))
  | _ => inr VUndefined
  end.

(** *** JSON.stringify *)

Definition dquote : string := String (ascii_of_nat 34) "".
Definition backslash : string := String (ascii_of_nat 92) "".

Definition hex_digit (n : N) : string :=
  String (ascii_of_N (if (n <? 10)%N then 48 + n else 87 + n)) "".

(** QuoteJSONString, one code unit. *)
Definition quote_char (c : ascii) : string :=
  let n := N_of_ascii c in
  if (n =? 8)%N then backslash +:+ "b"
  else if (n =? 9)%N then backslash +:+ "t"
  else if (n =? 10)%N then backslash +:+ "n"
  else if (n =? 12)%N then backslash +:+ "f"
  else if (n =? 13)%N then backslash +:+ "r"
  else if (n =? 34)%N then backslash +:+ dquote
  else if (n =? 92)%N then backslash +:+ backslash
  else if (n <? 32)%N then backslash +:+ "u00" +:+ hex_digit (n / 16) +:+ hex_digit (n mod 16)
  else String c "".

Fixpoint quote_chars (s : string) : string :=
  match s with
  | "" => ""
  | String c r => quote_char c +:+ quote_chars r
  end.

Definition quoteJSONString (s : string) : string :=
  dquote +:+ quote_chars s +:+ dquote.

(** [JSON.stringify v]; [None] is the result [undefined]. *)
Fixpoint JSON_stringify (v : Value) : option string :=
  match v with
  | VUndefined => None
  | VNull => Some "null"
  | VBool true => Some "true"
  | VBool false => Some "false"
  | VNum n => Some (pretty n)
  | VStr s => Some (quoteJSONString s)
  | VArr items =>
      Some ("[" +:+
        join_with ","
          ((fix each l :=
              match l with
              | [] => []
              | x :: r => default "null" (JSON_stringify x) :: each r
              end) items) +:+ "]")
  | VObj props =>
      Some ("{" +:+
        join_with ","
          ((fix each l :=
              match l with
              | [] => []
              | (k, x) :: r =>
                  match JSON_stringify x with
                  | Some sx => (quoteJSONString k +:+ ":" +:+ sx) :: each r
                  | None => each r
                  end
              end) props) +:+ "}")
  | VFile _ => Some "{}"
  end.

End JS.

(** ** The host: network, console, storage, DOM, object URLs *)
Module Host.
Import JS.

Inductive FormValue :=
| FormFile (f : File)
| FormString (s : string).

(** What [fetch] is given as [body]. *)
Inductive BodyInit :=
| BodyText (s : string)
| BodyForm (entries : list (string * FormValue)).

Record Request := {
  url : string;
  method : string;
  headers : list (string * string);
  body : option BodyInit }.

(** A response: its status, its body, and what parsing the body as JSON
    gives ([None] when the body is not JSON). *)
Record Response := {
  status : Z;
  content_type : string;
  text : string;
  parsed : option Value }.

Record Blob := { blob_bytes : string; blob_type : string }.

(** [response.ok] *)
Definition ok (r : Response) : bool :=
  ((200 <=? status r) && (status r <=? 299))%Z.

(** What [src] of a media element refers to: an object URL, by its number,
    or the data URL a [FileReader] made of a file. *)
Inductive Source :=
| ObjectURL (u : nat)
| DataURL (f : File).

(** An element as the scripts see it.  [elem_id] is the empty string for an
    element without an id, and [classList] holds its classes in order, each
    once.  [textContent] is the text of an element that holds text only,
    which is what the scripts assign it to (an assignment would remove
    child elements); [value] is the value of a text control as it reads
    back. *)
Record Element := {
  elem_id : string;
  classList : list string;
  textContent : string;
  value : string;
  src : option Source;
  disabled : bool;
  display : string }.

Inductive Event :=
| EFetch (r : Request)
| EConsoleError (label : string) (e : option exn)
| EConsoleLog (msg : string)
| EAlert (msg : string)
| ECreateObjectURL (u : nat)
| ERevokeObjectURL (u : nat)
| EReadAsDataURL (f : File)
| EPlay (element : nat)
| EDownload (u : nat).

Record Location := {
  protocol : string;
  hostname : string;
  port : string;
  origin : string }.

(** The page: the host environment, then the module-level variables of
    [api.js] ([API_BASE_URL]) and [main.js] ([selectedImage],
    [currentAudioUrl]).  Object URLs are numbered; [objectURLs] holds the
    live ones.  [network i req] is how the [i]-th [fetch] of the page is
    answered. *)
Record Page := {
  window_API_BASE_URL : option string;
  localStorage : option (gmap string string);
  meta_api_base_url : option string;
  location : Location;
  network : nat -> Request -> exn + Response;
  document : list Element;
  objectURLs : gmap nat Blob;
  nextObjectURL : nat;
  events : list Event;
  API_BASE_URL : string;
  selectedImage : option File;
  currentAudioUrl : option nat }.

Definition set_localStorage (v : option (gmap string string)) (p : Page) : Page :=
  {| window_API_BASE_URL := window_API_BASE_URL p; localStorage := v;
     meta_api_base_url := meta_api_base_url p; location := location p;
     network := network p; document := document p;
     objectURLs := objectURLs p; nextObjectURL := nextObjectURL p;
     events := events p; API_BASE_URL := API_BASE_URL p;
     selectedImage := selectedImage p; currentAudioUrl := currentAudioUrl p |}.

Definition set_document (v : list Element) (p : Page) : Page :=
  {| window_API_BASE_URL := window_API_BASE_URL p; localStorage := localStorage p;
     meta_api_base_url := meta_api_base_url p; location := location p;
     network := network p; document := v;
     objectURLs := objectURLs p; nextObjectURL := nextObjectURL p;
     events := events p; API_BASE_URL := API_BASE_URL p;
     selectedImage := selectedImage p; currentAudioUrl := currentAudioUrl p |}.

Definition set_objectURLs (v : gmap nat Blob) (n : nat) (p : Page) : Page :=
  {| window_API_BASE_URL := window_API_BASE_URL p; localStorage := localStorage p;
     meta_api_base_url := meta_api_base_url p; location := location p;
     network := network p; document := document p;
     objectURLs := v; nextObjectURL := n;
     events := events p; API_BASE_URL := API_BASE_URL p;
     selectedImage := selectedImage p; currentAudioUrl := currentAudioUrl p |}.

Definition set_events (v : list Event) (p : Page) : Page :=
  {| window_API_BASE_URL := window_API_BASE_URL p; localStorage := localStorage p;
     meta_api_base_url := meta_api_base_url p; location := location p;
     network := network p; document := document p;
     objectURLs := objectURLs p; nextObjectURL := nextObjectURL p;
     events := v; API_BASE_URL := API_BASE_URL p;
     selectedImage := selectedImage p; currentAudioUrl := currentAudioUrl p |}.

Definition set_API_BASE_URL (v : string) (p : Page) : Page :=
  {| window_API_BASE_URL := window_API_BASE_URL p; localStorage := localStorage p;
     meta_api_base_url := meta_api_base_url p; location := location p;
     network := network p; document := document p;
     objectURLs := objectURLs p; nextObjectURL := nextObjectURL p;
     events := events p; API_BASE_URL := v;
     selectedImage := selectedImage p; currentAudioUrl := currentAudioUrl p |}.

Definition set_selectedImage (v : option File) (p : Page) : Page :=
  {| window_API_BASE_URL := window_API_BASE_URL p; localStorage := localStorage p;
     meta_api_base_url := meta_api_base_url p; location := location p;
     network := network p; document := document p;
     objectURLs := objectURLs p; nextObjectURL := nextObjectURL p;
     events := events p; API_BASE_URL := API_BASE_URL p;
     selectedImage := v; currentAudioUrl := currentAudioUrl p |}.

Definition set_currentAudioUrl (v : option nat) (p : Page) : Page :=
  {| window_API_BASE_URL := window_API_BASE_URL p; localStorage := localStorage p;
     meta_api_base_url := meta_api_base_url p; location := location p;
     network := network p; document := document p;
     objectURLs := objectURLs p; nextObjectURL := nextObjectURL p;
     events := events p; API_BASE_URL := API_BASE_URL p;
     selectedImage := selectedImage p; currentAudioUrl := v |}.

(** *** Computations on the page: state, and a result or an exception *)

Definition M (A : Type) : Type := Page -> Page * (exn + A).

Definition ret {A} (a : A) : M A := fun p => (p, inr a).

Definition bind {A B} (m : M A) (k : A -> M B) : M B :=
  fun p =>
    match m p with
    | (p', inr a) => k a p'
    | (p', inl e) => (p', inl e)
    end.

Definition throw {A} (e : exn) : M A := fun p => (p, inl e).

(** [try { m } catch (error) { h error }] *)
Definition try_catch {A} (m : M A) (h : exn -> M A) : M A :=
  fun p =>
    match m p with
    | (p', inr a) => (p', inr a)
    | (p', inl e) => h e p'
    end.

Definition lift {A} (r : exn + A) : M A := fun p => (p, r).

Definition gets {A} (f : Page -> A) : M A := fun p => (p, inr (f p)).

Definition modify (f : Page -> Page) : M unit := fun p => (f p, inr tt).

Definition run {A} (m : M A) (p : Page) : Page := fst (m p).
Definition result {A} (m : M A) (p : Page) : exn + A := snd (m p).

Declare Scope js_scope.
Delimit Scope js_scope with js.
Notation "x <- m ;; k" := (bind m (fun x => k))
  (at level 100, m at next level, right associativity) : js_scope.
Notation "m ;;; k" := (bind m (fun _ => k))
  (at level 100, right associativity) : js_scope.
Open Scope js_scope.

Definition log (e : Event) : M unit :=
  modify (fun p => set_events (events p ++ [e]) p).

Definition console_error (label : string) (e : option exn) : M unit :=
  log (EConsoleError label e).

Definition alert (msg : string) : M unit := log (EAlert msg).

Definition fetches (l : list Event) : list Request :=
  omap (fun e => match e with EFetch r => Some r | _ => None end) l.

(** [fetch(url, init)]: the request is recorded and the network answers. *)
Definition fetch (req : Request) : M Response :=
  fun p =>
    let i := length (fetches (events p)) in
    (set_events (events p ++ [EFetch req]) p, network p i req).

(** [response.json()] *)
Definition json (r : Response) : M Value :=
  match parsed r with
  | Some v => ret v
  | None => throw (SyntaxError "Unexpected token in JSON")
  end.

(** [response.blob()] *)
Definition blob (r : Response) : M Blob :=
  ret {| blob_bytes := text r; blob_type := content_type r |}.

(** [URL.createObjectURL(blob)] *)
Definition createObjectURL (b : Blob) : M nat :=
  fun p =>
    let u := nextObjectURL p in
    (set_events (events p ++ [ECreateObjectURL u])
       (set_objectURLs (<[u := b]> (objectURLs p)) (S u) p), inr u).

(** [URL.revokeObjectURL(u)] *)
Definition revokeObjectURL (u : nat) : M unit :=
  fun p =>
    (set_events (events p ++ [ERevokeObjectURL u])
       (set_objectURLs (delete u (objectURLs p)) (nextObjectURL p) p), inr tt).

End Host.

(** ** api.js *)
Module API.
Import JS Host.

Definition of_option_string (o : option string) : Value :=
  match o with
  | Some s => VStr s
  | None => VUndefined
  end.

(** [localStorage.getItem(k)]: the stored string, or [null]. *)
Definition getItem (k : string) (st : gmap string string) : Value :=
  match st !! k with
  | Some s => VStr s
  | None => VNull
  end.

Definition resolveApiBaseUrl (p : Page) : exn + string :=
  let fromWindow := of_option_string (window_API_BASE_URL p) in
  let fromStorage :=
    match localStorage p with
    | Some st => getItem "API_BASE_URL" st
    | None => VNull
    end in
  let fromMeta := of_option_string (meta_api_base_url p) in
  let fallback := origin (location p) in
  let fallback :=
    if negb (truthy fromWindow) && negb (truthy fromStorage) && negb (truthy fromMeta) then
      let host := hostname (location p) in
      let isLocal := bool_decide (host = "localhost") || bool_decide (host = "127.0.0.1") in
      if isLocal && truthy (VStr (port (location p)))
         && negb (bool_decide (port (location p) = "5000"))
      then protocol (location p) +:+ "//" +:+ host +:+ ":5000"
      else fallback
    else fallback in
  let selected := or_else fromWindow (or_else fromStorage (or_else fromMeta (VStr fallback))) in
  call_replace_trailing_slash selected.

(** [let API_BASE_URL = resolveApiBaseUrl();] when the script loads. *)
Definition load : M unit :=
  v <- (fun p => (p, resolveApiBaseUrl p));;
  modify (set_API_BASE_URL v).

Definition setApiBaseUrl (url : Value) : M string :=
  if negb (truthy url) || negb (bool_decide (typeof url = "string")) then
    throw (Error "API base URL must be a non-empty string")
  else
    v <- lift (call_replace_trailing_slash url);;
    modify (set_API_BASE_URL v);;;
    st <- gets localStorage;;
    match st with
    | Some items =>
        b <- gets API_BASE_URL;;
        modify (set_localStorage (Some (<["API_BASE_URL" := b]> items)))
    | None => ret tt
    end;;;
    gets API_BASE_URL.

(** A parameter with a default value: the default applies to [undefined]. *)
Definition param (v d : Value) : Value :=
  match v with
  | VUndefined => d
  | _ => v
  end.

(** [new Error(v)] *)
Definition new_Error (v : Value) : exn :=
  match v with
  | VUndefined => Error ""
  | _ => Error (toString v)
  end.

Definition json_headers : list (string * string) :=
  [("Content-Type", "application/json")].

Definition healthCheck : M Value :=
  try_catch
    (base <- gets API_BASE_URL;;
     response <- fetch {| url := base +:+ "/health"; method := "GET";
                          headers := json_headers; body := None |};;
     if negb (ok response) then
       throw (new_Error (VStr ("Health check failed: " +:+ pretty (status response))))
     else json response)
    (fun error => console_error "Health check error:" (Some error);;; throw error).

(** [!v || v.trim() === ''] *)
Definition is_blank (v : Value) : M bool :=
  if negb (truthy v) then ret true
  else t <- lift (call_trim v);; ret (bool_decide (t = "")).

(** [throw new Error(errorData.error || `<what>: ${response.status}`)] *)
Definition throw_response_error {A} (what : string) (response : Response) : M A :=
  errorData <- json response;;
  e <- lift (get_prop errorData "error");;
  throw (new_Error (or_else e (VStr (what +:+ ": " +:+ pretty (status response))))).

Definition queryText (query topK : Value) : M Value :=
  let topK := param topK (VNum 5) in
  try_catch
    (blank <- is_blank query;;
     if blank then throw (new_Error (VStr "Query cannot be empty"))
     else
       base <- gets API_BASE_URL;;
       q <- lift (call_trim query);;
       response <- fetch {| url := base +:+ "/api/query"; method := "POST";
                            headers := json_headers;
                            body := BodyText <$>
                              JSON_stringify (VObj [("query", VStr q); ("top_k", topK)]) |};;
       if negb (ok response) then throw_response_error "Request failed" response
       else json response)
    (fun error => console_error "Query text error:" (Some error);;; throw error).

(** [formData.append(name, v)]: a file stays a file, anything else is
    converted to a string. *)
Definition form_value (v : Value) : FormValue :=
  match v with
  | VFile f => FormFile f
  | _ => FormString (toString v)
  end.

Definition extractOCR (imageFile : Value) : M Value :=
  try_catch
    (if negb (truthy imageFile) then throw (new_Error (VStr "Image file is required"))
     else
       let formData := [("image", form_value imageFile)] in
       base <- gets API_BASE_URL;;
       response <- fetch {| url := base +:+ "/api/ocr"; method := "POST";
                            headers := []; body := Some (BodyForm formData) |};;
       if negb (ok response) then throw_response_error "OCR failed" response
       else json response)
    (fun error => console_error "OCR extraction error:" (Some error);;; throw error).

Definition imageQuery (imageFile query topK : Value) : M Value :=
  let query := param query (VStr "") in
  let topK := param topK (VNum 5) in
  try_catch
    (if negb (truthy imageFile) then throw (new_Error (VStr "Image file is required"))
     else
       let formData := [("image", form_value imageFile)] in
       q <- lift (call_trim query);;
       let formData := (formData ++ [("query", form_value (VStr q))])%list in
       k <- lift (call_toString topK);;
       let formData := (formData ++ [("top_k", form_value (VStr k))])%list in
       base <- gets API_BASE_URL;;
       response <- fetch {| url := base +:+ "/api/image-query"; method := "POST";
                            headers := []; body := Some (BodyForm formData) |};;
       if negb (ok response) then throw_response_error "Image query failed" response
       else json response)
    (fun error => console_error "Image query error:" (Some error);;; throw error).

Definition textToSpeech (text_ : Value) : M Blob :=
  try_catch
    (blank <- is_blank text_;;
     if blank then throw (new_Error (VStr "Text cannot be empty"))
     else
       base <- gets API_BASE_URL;;
       t <- lift (call_trim text_);;
       response <- fetch {| url := base +:+ "/api/tts"; method := "POST";
                            headers := json_headers;
                            body := BodyText <$> JSON_stringify (VObj [("text", VStr t)]) |};;
       if negb (ok response) then throw_response_error "TTS failed" response
       else blob response)
    (fun error => console_error "Text-to-speech error:" (Some error);;; throw error).

Definition checkConnection : M bool :=
  try_catch
    (health <- healthCheck;;
     s <- lift (get_prop health "status");;
     ret (strict_eq_str s "healthy"))
    (fun error => ret false).

Definition getBaseUrl : M string := gets API_BASE_URL.

End API.

(** ** The DOM as the scripts use it: elements in document order, referred
    to by position; [null] is [None]. *)
Module DOM.
Import JS Host.

Definition set_classList (v : list string) (e : Element) : Element :=
  {| elem_id := elem_id e; classList := v; textContent := textContent e;
     value := value e; src := src e; disabled := disabled e; display := display e |}.

Definition set_textContent (v : string) (e : Element) : Element :=
  {| elem_id := elem_id e; classList := classList e; textContent := v;
     value := value e; src := src e; disabled := disabled e; display := display e |}.

(** The value of a text area reads back with its line breaks normalised:
    [CR LF] and a lone [CR] become [LF]. *)
Fixpoint normalize_newlines (s : string) : string :=
  match s with
  | "" => ""
  | String c r =>
      if (N_of_ascii c =? 13)%N then
        match r with
        | String c' r' =>
            if (N_of_ascii c' =? 10)%N then String (ascii_of_nat 10) (normalize_newlines r')
            else String (ascii_of_nat 10) (normalize_newlines r)
        | "" => String (ascii_of_nat 10) ""
        end
      else String c (normalize_newlines r)
  end.

(** [e.value = v] on a text area: the text controls of the page, the
    question (where the key handler lets Shift+Enter through) and the OCR
    text, hold text of several lines. *)
Definition set_value (v : string) (e : Element) : Element :=
  {| elem_id := elem_id e; classList := classList e; textContent := textContent e;
     value := normalize_newlines v; src := src e; disabled := disabled e;
     display := display e |}.

Definition set_src (v : option Source) (e : Element) : Element :=
  {| elem_id := elem_id e; classList := classList e; textContent := textContent e;
     value := value e; src := v; disabled := disabled e; display := display e |}.

Definition set_disabled (v : bool) (e : Element) : Element :=
  {| elem_id := elem_id e; classList := classList e; textContent := textContent e;
     value := value e; src := src e; disabled := v; display := display e |}.

Definition set_display (v : string) (e : Element) : Element :=
  {| elem_id := elem_id e; classList := classList e; textContent := textContent e;
     value := value e; src := src e; disabled := disabled e; display := v |}.

Definition has_class (c : string) (e : Element) : bool :=
  bool_decide (c ∈ classList e).

(** ASCII white space of the DOM: TAB, LF, FF, CR, SP. *)
Definition is_ascii_whitespace (c : ascii) : bool :=
  let n := N_of_ascii c in
  ((n =? 9) || (n =? 10) || (n =? 12) || (n =? 13) || (n =? 32))%N.

Fixpoint contains_whitespace (s : string) : bool :=
  match s with
  | "" => false
  | String c r => is_ascii_whitespace c || contains_whitespace r
  end.

(** What the methods of [classList] do with their argument first: the
    empty token and a token with ASCII white space are refused. *)
Definition check_token (c : string) : M unit :=
  if bool_decide (c = "") then throw (DOMException "SyntaxError")
  else if contains_whitespace c then throw (DOMException "InvalidCharacterError")
  else ret tt.

(** [e.classList.add(c)], once [check_token] has accepted [c]; the literal
    tokens of the scripts ([hidden], [active], [dragover]) are accepted. *)
Definition classList_add (c : string) (e : Element) : Element :=
  if has_class c e then e else set_classList (classList e ++ [c]) e.

(** [e.classList.remove(c)], once [check_token] has accepted [c]. *)
Definition classList_remove (c : string) (e : Element) : Element :=
  set_classList (filter (fun x => x ≠ c) (classList e)) e.

(** The tokens of a class attribute: what ASCII white space separates. *)
Fixpoint tokens_from (cur s : string) : list string :=
  match s with
  | "" => if bool_decide (cur = "") then [] else [cur]
  | String c r =>
      if is_ascii_whitespace c then
        if bool_decide (cur = "") then tokens_from "" r else cur :: tokens_from "" r
      else tokens_from (cur +:+ String c "") r
  end.

(** An ordered set: each token once, where it first occurs. *)
Fixpoint ordered_set (seen l : list string) : list string :=
  match l with
  | [] => []
  | x :: r =>
      if bool_decide (x ∈ seen) then ordered_set seen r
      else x :: ordered_set (x :: seen) r
  end.

Definition class_tokens (s : string) : list string :=
  ordered_set [] (tokens_from "" s).

(** [e.className = s] *)
Definition set_className (s : string) (e : Element) : Element :=
  set_classList (class_tokens s) e.

(** Positions of the elements that satisfy [f], in document order. *)
Fixpoint positions (f : Element -> bool) (i : nat) (d : list Element) : list nat :=
  match d with
  | [] => []
  | e :: r => if f e then i :: positions f (S i) r else positions f (S i) r
  end.

(** The first element with id [i]; no element has the empty id. *)
Definition lookup_id (i : string) (d : list Element) : option nat :=
  if bool_decide (i = "") then None
  else head (positions (fun e => bool_decide (elem_id e = i)) 0 d).

(** [document.getElementById(i)] *)
Definition getElementById (i : string) : M (option nat) :=
  gets (fun p => lookup_id i (document p)).

(** [document.querySelectorAll('.' + c)] *)
Definition querySelectorAll_class (c : string) : M (list nat) :=
  gets (fun p => positions (has_class c) 0 (document p)).

(** Use of a reference that may be [null] or [undefined]. *)
Definition non_null (o : option nat) : M nat :=
  match o with
  | Some r => ret r
  | None => throw (TypeError "Cannot read properties of null")
  end.

(** An assignment to, or a method call on, the element at [r]. *)
Definition update (r : nat) (f : Element -> Element) : M unit :=
  modify (fun p => set_document (alter f r (document p)) p).

Definition read {A} (r : nat) (f : Element -> A) : M A :=
  fun p =>
    match document p !! r with
    | Some e => (p, inr (f e))
    | None => (p, inl (TypeError "Cannot read properties of undefined"))
    end.

(** [l.forEach(f)] *)
Fixpoint forEach {A} (l : list A) (f : A -> M unit) : M unit :=
  match l with
  | [] => ret tt
  | x :: r => f x;;; forEach r f
  end.

(** [if (el) { f el }] *)
Definition when_present (o : option nat) (f : nat -> M unit) : M unit :=
  match o with
  | Some r => f r
  | None => ret tt
  end.

End DOM.

(** ** main.js, the view helpers [UI] *)
Module UI.
Import JS Host DOM.

Definition showLoading (text_ : string) : M unit :=
  loadingEl <- getElementById "loading";;
  loadingText <- getElementById "loading-text";;
  when_present loadingEl (fun r => update r (classList_remove "hidden"));;;
  when_present loadingText (fun r => update r (set_textContent text_)).

Definition hideLoading : M unit :=
  loadingEl <- getElementById "loading";;
  when_present loadingEl (fun r => update r (classList_add "hidden")).

Definition showStatus (elementId message type_ : string) : M unit :=
  element <- getElementById elementId;;
  when_present element (fun r =>
    update r (set_textContent message);;;
    update r (set_className ("status-message " +:+ type_));;;
    update r (set_display "block")).

Definition hideStatus (elementId : string) : M unit :=
  element <- getElementById elementId;;
  when_present element (fun r =>
    update r (set_display "none");;;
    update r (set_className "status-message")).

Definition showError (message : string) : M unit :=
  alert ("Error: " +:+ message);;;
  console_error message None.

End UI.

(** ** main.js, the controller *)
Module Main.
Import JS Host DOM.

(** The statements of [handleTextToSpeech] after
    [await API.textToSpeech(answerText)] has produced [audioBlob]. *)
Definition handleTextToSpeech_then (audioBlob : Blob) : M unit :=
  cur <- gets currentAudioUrl;;
  match cur with
  | Some u => revokeObjectURL u
  | None => ret tt
  end;;;
  u <- createObjectURL audioBlob;;
  modify (set_currentAudioUrl (Some u));;;
  audioPlayer <- getElementById "audio-player";;
  audioPlayer <- non_null audioPlayer;;
  update audioPlayer (set_src (Some (ObjectURL u)));;;
  update audioPlayer (classList_remove "hidden");;;
  log (EPlay audioPlayer);;;
  UI.hideLoading.

(** Its [catch] block. *)
Definition handleTextToSpeech_catch (error : exn) : M unit :=
  UI.hideLoading;;;
  UI.showStatus "voice-status" "Audio generation failed" "error";;;
  console_error "TTS error:" (Some error).

Definition handleTextToSpeech : M unit :=
  el <- getElementById "text-answer";;
  el <- non_null el;;
  answerText <- read el textContent;;
  if negb (truthy (VStr answerText)) then ret tt
  else
    UI.showLoading "Generating audio...";;;
    try_catch
      (audioBlob <- API.textToSpeech (VStr answerText);;
       handleTextToSpeech_then audioBlob)
      handleTextToSpeech_catch.

Definition clearTextResults : M unit :=
  el <- getElementById "query-input";;
  el <- non_null el;;
  update el (set_value "");;;
  el <- getElementById "text-result";;
  el <- non_null el;;
  update el (classList_add "hidden");;;
  el <- getElementById "audio-player";;
  el <- non_null el;;
  update el (classList_add "hidden");;;
  UI.hideStatus "voice-status";;;
  cur <- gets currentAudioUrl;;
  match cur with
  | Some u =>
      revokeObjectURL u;;;
      modify (set_currentAudioUrl None)
  | None => ret tt
  end.

Definition maxSize : Z := 16 * 1024 * 1024.

(** The [FileReader] is started; its [onload] and [onerror] callbacks run
    later and touch the preview only. *)
Definition handleImageSelect (file : File) : M unit :=
  if (file_size file >? maxSize)%Z then
    UI.showError "Image size must be less than 16MB"
  else
    modify (set_selectedImage (Some file));;;
    log (EReadAsDataURL file).

(** The [onload] callback of the reader started for [file]:
    [e.target.result] is the data URL of the file. *)
Definition reader_onload (file : File) : M unit :=
  previewImg <- getElementById "preview-img";;
  previewImg <- non_null previewImg;;
  update previewImg (set_src (Some (DataURL file)));;;
  el <- getElementById "image-preview";;
  el <- non_null el;;
  update el (classList_remove "hidden");;;
  el <- getElementById "analyze-btn";;
  el <- non_null el;;
  update el (set_disabled false).

(** Its [onerror] callback. *)
Definition reader_onerror : M unit :=
  UI.showError "Failed to read image file".

Definition newline : string := String (ascii_of_nat 10) "".

Definition downloadResult : M unit :=
  ocrEl <- getElementById "ocr-text";;
  ocrText <- match ocrEl with
             | Some r => read r value
             | None => ret ""
             end;;
  el <- getElementById "image-answer";;
  el <- non_null el;;
  answer <- read el textContent;;
  let content :=
    if truthy (VStr ocrText) then
      "=== IMAGE OCR TEXT ===" +:+ newline +:+ ocrText +:+ newline +:+ newline +:+
      "=== AI ANSWER ===" +:+ newline +:+ answer
    else "=== AI ANSWER ===" +:+ newline +:+ answer in
  let blob := {| blob_bytes := content; blob_type := "text/plain" |} in
  u <- createObjectURL blob;;
  log (EDownload u);;;
  revokeObjectURL u.

(** [tabBtns[i]], then a property of it: out of range is [undefined]. *)
Definition item (l : list nat) (i : nat) : M nat := non_null (l !! i).

Definition switchTab (tab : Value) : M unit :=
  tabBtns <- querySelectorAll_class "tab-btn";;
  tabContents <- querySelectorAll_class "tab-content";;
  forEach tabBtns (fun btn => update btn (classList_remove "active"));;;
  forEach tabContents (fun content => update content (classList_remove "active"));;;
  if strict_eq_str tab "text" then
    btn <- item tabBtns 0;;
    update btn (classList_add "active");;;
    el <- getElementById "text-tab";;
    el <- non_null el;;
    update el (classList_add "active")
  else
    btn <- item tabBtns 1;;
    update btn (classList_add "active");;;
    el <- getElementById "image-tab";;
    el <- non_null el;;
    update el (classList_add "active").

(** The [beforeunload] listener. *)
Definition beforeunload : M unit :=
  cur <- gets currentAudioUrl;;
  match cur with
  | Some u => revokeObjectURL u
  | None => ret tt
  end.

End Main.

(** ** The speech wrapper [Voice] *)
Module Voice.
Import JS.

(** The recognition object: its settings, and the promise its callbacks
    ([onresult], [onerror], [onend]) settle, once [recognize] has installed
    them. *)
Record Recognition := {
  continuous : bool;
  interimResults : bool;
  lang : string;
  maxAlternatives : Z;
  callbacks : option nat }.

Inductive Settled :=
| Resolved (transcript : string)
| Rejected (e : exn).

(** [supported]: the window has [SpeechRecognition] or
    [webkitSpeechRecognition].  [starts] counts the calls of
    [recognition.start()].  Promises are numbered; [settled] holds the
    outcome of those that are no longer pending. *)
Record State := {
  supported : bool;
  recognition : option Recognition;
  isListening : bool;
  starts : nat;
  nextPromise : nat;
  settled : gmap nat Settled }.

Definition set_recognition (v : option Recognition) (s : State) : State :=
  {| supported := supported s; recognition := v; isListening := isListening s;
     starts := starts s; nextPromise := nextPromise s; settled := settled s |}.

Definition set_isListening (v : bool) (s : State) : State :=
  {| supported := supported s; recognition := recognition s; isListening := v;
     starts := starts s; nextPromise := nextPromise s; settled := settled s |}.

Definition set_starts (v : nat) (s : State) : State :=
  {| supported := supported s; recognition := recognition s; isListening := isListening s;
     starts := v; nextPromise := nextPromise s; settled := settled s |}.

Definition set_nextPromise (v : nat) (s : State) : State :=
  {| supported := supported s; recognition := recognition s; isListening := isListening s;
     starts := starts s; nextPromise := v; settled := settled s |}.

Definition set_settled (v : gmap nat Settled) (s : State) : State :=
  {| supported := supported s; recognition := recognition s; isListening := isListening s;
     starts := starts s; nextPromise := nextPromise s; settled := v |}.

(** [resolve(x)] or [reject(e)] of promise [k]: the first call settles it. *)
Definition settle (k : nat) (r : Settled) (s : State) : State :=
  match settled s !! k with
  | Some _ => s
  | None => set_settled (<[k := r]> (settled s)) s
  end.

Definition isSupported (s : State) : bool := supported s.

Definition initialize (s : State) : State :=
  if negb (isSupported s) then s
  else
    set_recognition
      (Some {| continuous := false; interimResults := false; lang := "en-US";
               maxAlternatives := 1; callbacks := None |}) s.

Definition install_callbacks (k : nat) (s : State) : State :=
  match recognition s with
  | Some r =>
      set_recognition
        (Some {| continuous := continuous r; interimResults := interimResults r;
                 lang := lang r; maxAlternatives := maxAlternatives r;
                 callbacks := Some k |}) s
  | None => s
  end.

(** [recognize()]: the executor of the promise it returns.  [start_throws]
    is what the host does at [recognition.start()]: [Some e] when it throws
    (a session of the engine is still running).  The result is the number
    of the new promise. *)
Definition recognize (start_throws : option exn) (s : State) : State * nat :=
  let k := nextPromise s in
  let s := set_nextPromise (S k) s in
  if negb (isSupported s) then
    (settle k (Rejected (Error "Speech recognition not supported")) s, k)
  else
    let s := match recognition s with
             | None => initialize s
             | Some _ => s
             end in
    if isListening s then
      (settle k (Rejected (Error "Already listening")) s, k)
    else
      let s := set_isListening true s in
      let s := install_callbacks k s in
      let s := set_starts (S (starts s)) s in
      match start_throws with
      | Some error => (settle k (Rejected error) (set_isListening false s), k)
      | None => (s, k)
      end.

(** The [onresult] callback installed for promise [k]. *)
Definition onresult (k : nat) (transcript : string) (s : State) : State :=
  settle k (Resolved transcript) (set_isListening false s).

(** The [onerror] callback installed for promise [k]. *)
Definition onerror (k : nat) (error : string) (s : State) : State :=
  let s := set_isListening false s in
  if bool_decide (error = "no-speech") then
    settle k (Rejected (Error "No speech detected")) s
  else if bool_decide (error = "audio-capture") then
    settle k (Rejected (Error "Microphone not available")) s
  else if bool_decide (error = "not-allowed") then
    settle k (Rejected (Error "Microphone permission denied")) s
  else settle k (Rejected (Error error)) s.

(** The [onend] callback. *)
Definition onend (s : State) : State := set_isListening false s.

Definition stop (s : State) : State :=
  match recognition s with
  | Some _ => if isListening s then set_isListening false s else s
  | None => s
  end.

(** The wrapper when the script has loaded. *)
Definition initial (sup : bool) : State :=
  {| supported := sup; recognition := None; isListening := false;
     starts := 0; nextPromise := 0; settled := ∅ |}.

(** What can happen to the wrapper: calls of its methods, and the engine
    firing a callback.  The callbacks of every promise handed out so far
    are allowed to fire, which covers the ones really installed. *)
Inductive step : State -> State -> Prop :=
| step_recognize o s : step s (recognize o s).1
| step_initialize s : step s (initialize s)
| step_stop s : step s (stop s)
| step_onresult k t s : k < nextPromise s -> step s (onresult k t s)
| step_onerror k c s : k < nextPromise s -> step s (onerror k c s)
| step_onend s : step s (onend s).

Inductive reachable : State -> Prop :=
| reachable_initial sup : reachable (initial sup)
| reachable_step s s' : reachable s -> step s s' -> reachable s'.

(** What holds of the wrapper however it was used: while it listens,
    recognition is supported and the recognition object exists; and the
    promises not handed out yet are unsettled. *)
Definition wf (s : State) : Prop :=
  (isListening s = true -> supported s = true /\ recognition s <> None) /\
  (forall k, nextPromise s <= k -> settled s !! k = None).

End Voice.

(** ** Vocabulary of the statements *)
Module Spec.
Import JS Host DOM.

(** The calls of the API client. *)
Inductive Call :=
| CHealthCheck
| CQueryText (query topK : Value)
| CExtractOCR (imageFile : Value)
| CImageQuery (imageFile query topK : Value)
| CTextToSpeech (text_ : Value)
| CCheckConnection
| CGetBaseUrl.

Definition outcome {A} (m : M A) (p : Page) : option exn :=
  match result m p with
  | inl e => Some e
  | inr _ => None
  end.

(** The page after a call, and the exception the call ends with, if any. *)
Definition page_after (c : Call) (p : Page) : Page :=
  match c with
  | CHealthCheck => run API.healthCheck p
  | CQueryText q k => run (API.queryText q k) p
  | CExtractOCR f => run (API.extractOCR f) p
  | CImageQuery f q k => run (API.imageQuery f q k) p
  | CTextToSpeech t => run (API.textToSpeech t) p
  | CCheckConnection => run API.checkConnection p
  | CGetBaseUrl => run API.getBaseUrl p
  end.

Definition failure (c : Call) (p : Page) : option exn :=
  match c with
  | CHealthCheck => outcome API.healthCheck p
  | CQueryText q k => outcome (API.queryText q k) p
  | CExtractOCR f => outcome (API.extractOCR f) p
  | CImageQuery f q k => outcome (API.imageQuery f q k) p
  | CTextToSpeech t => outcome (API.textToSpeech t) p
  | CCheckConnection => outcome API.checkConnection p
  | CGetBaseUrl => outcome API.getBaseUrl p
  end.

(** The calls that read the body of a failed response, with the text of
    their status-based message. *)
Definition generic_message (c : Call) : option string :=
  match c with
  | CQueryText _ _ => Some "Request failed"
  | CExtractOCR _ => Some "OCR failed"
  | CImageQuery _ _ _ => Some "Image query failed"
  | CTextToSpeech _ => Some "TTS failed"
  | _ => None
  end.

(** The requests a call adds to the page's log. *)
Definition requests_of (c : Call) (p : Page) : list Request :=
  drop (length (fetches (events p))) (fetches (events (page_after c p))).

(** The next [fetch] of the page is answered with [r], whatever is asked. *)
Definition answers_with (p : Page) (r : Response) : Prop :=
  forall req, network p (length (fetches (events p))) req = inr r.

Definition is_nonempty_string (v : Value) : bool :=
  match v with
  | VStr (String _ _) => true
  | _ => false
  end.

(** The value is kept in local storage under the key of the client. *)
Definition persisted (p : Page) (v : string) : Prop :=
  exists items, localStorage p = Some items /\ items !! "API_BASE_URL" = Some v.

(** A configuration input counts when it is a non-empty string. *)
Definition configured (o : option string) : option string :=
  match o with
  | Some (String c r) => Some (String c r)
  | _ => None
  end.



(** Positions of the elements that carry both [c] and [active]: what
    [querySelectorAll('.' + c + '.active')] would list. *)
Definition active_with (c : string) (d : list Element) : list nat :=
  positions (fun e => has_class c e && has_class "active" e) 0 d.

(** What [switchTab] relies on in the markup of the page, which the
    scripts do not create: two tab buttons come first among the
    [.tab-btn] elements, the panels [#text-tab] and [#image-tab] exist and
    are [.tab-content], and buttons and panels are different elements. *)
Definition two_tab_page (d : list Element)
    (btnText btnImage panelText panelImage : nat) : Prop :=
  (exists more, positions (has_class "tab-btn") 0 d = btnText :: btnImage :: more) /\
  head (positions (fun e => bool_decide (elem_id e = "text-tab")) 0 d) = Some panelText /\
  head (positions (fun e => bool_decide (elem_id e = "image-tab")) 0 d) = Some panelImage /\
  (forall k e, k = panelText \/ k = panelImage -> d !! k = Some e ->
     has_class "tab-content" e = true /\ has_class "tab-btn" e = false) /\
  (forall k e, k = btnText \/ k = btnImage -> d !! k = Some e ->
     has_class "tab-content" e = false).

(** [switchTab]'s loops as one update of the document. *)
Definition alter_all (f : Element -> Element) (l : list nat) (d : list Element) : list Element :=
  foldl (fun d r => alter f r d) d l.

Definition activate : Element -> Element := classList_add "active".
Definition deactivate : Element -> Element := classList_remove "active".

(** The document [switchTab] leaves when it activates button [b] and panel [t]. *)
Definition switched (d : list Element) (b t : nat) : list Element :=
  alter activate t
    (alter activate b
       (alter_all deactivate (positions (has_class "tab-content") 0 d)
          (alter_all deactivate (positions (has_class "tab-btn") 0 d) d))).

(** *** Runs of the page

    The handlers run one at a time, each from where it starts or resumes to
    where it next awaits or ends.  [handleTextToSpeech] is there as a whole
    (nothing runs while it awaits) and in the two parts it resumes with.
    Everything else the page runs (the other handlers, the view helpers, the
    file reader's callbacks, the API client) neither creates nor revokes an
    object URL and does not assign [currentAudioUrl]. *)
Definition same_urls (p p' : Page) : Prop :=
  objectURLs p' = objectURLs p /\
  nextObjectURL p' = nextObjectURL p /\
  currentAudioUrl p' = currentAudioUrl p.

Inductive step : Page -> Page -> Prop :=
| step_tts p : step p (run Main.handleTextToSpeech p)
| step_tts_then b p : step p (run (Main.handleTextToSpeech_then b) p)
| step_tts_catch e p : step p (run (Main.handleTextToSpeech_catch e) p)
| step_clear p : step p (run Main.clearTextResults p)
| step_download p : step p (run Main.downloadResult p)
| step_unload p : step p (run Main.beforeunload p)
| step_select f p : step p (run (Main.handleImageSelect f) p)
| step_switch tab p : step p (run (Main.switchTab tab) p)
| step_call c p : step p (page_after c p)
| step_other p p' : same_urls p p' -> step p p'.

(** The page when [main.js] has loaded: [let currentAudioUrl = null], and
    no object URL made yet. *)
Definition loaded (p : Page) : Prop :=
  objectURLs p = ∅ /\ currentAudioUrl p = None.

Inductive reachable : Page -> Prop :=
| reachable_loaded p : loaded p -> reachable p
| reachable_step p p' : reachable p -> step p p' -> reachable p'.

(** The live object URLs. *)
Definition live (p : Page) : gset nat := dom (objectURLs p).

(** The events of revoking the stored URL, if there is one. *)
Definition revocation (cur : option nat) : list Event :=
  match cur with
  | Some u => [ERevokeObjectURL u]
  | None => []
  end.

(** The requests the whole text-to-speech handler adds to the log. *)
Definition tts_requests (p : Page) : list Request :=
  drop (length (fetches (events p))) (fetches (events (run Main.handleTextToSpeech p))).

(** *** Reasoning about page computations *)

(** [p'] differs from [p] by what neither creates nor revokes an object
    URL nor assigns [currentAudioUrl], and its log extends that of [p]. *)
Definition quiet (p p' : Page) : Prop :=
  same_urls p p' /\ exists l, events p' = (events p ++ l)%list.

Definition frames {A} (m : M A) : Prop := forall p, quiet p (run m p).

(** A computation that completes and changes nothing but the document. *)
Definition calm {A} (m : M A) : Prop :=
  forall p, exists d a, m p = (set_document d p, inr a).

(** What [response.blob()] gives. *)
Definition blob_of (r : Response) : Blob :=
  {| blob_bytes := text r; blob_type := content_type r |}.

(** Hoare triples over page computations. *)
Definition triple {A} (P : Page -> Prop) (m : M A) (Q : exn + A -> Page -> Prop) : Prop :=
  forall p, P p -> Q (result m p) (run m p).

(** Every live object URL is the stored one, and the stored one was
    handed out before. *)
Definition url_inv (p : Page) : Prop :=
  (forall u, u ∈ live p -> currentAudioUrl p = Some u) /\
  (forall u, currentAudioUrl p = Some u -> u < nextObjectURL p).

(** The page right after [currentAudioUrl = URL.createObjectURL(audioBlob)]
    in [handleTextToSpeech]. *)
Definition replaced (b : Blob) (p : Page) : Page :=
  let n := nextObjectURL p in
  let p1 := match currentAudioUrl p with
            | Some u =>
                set_events (events p ++ [ERevokeObjectURL u])
                  (set_objectURLs (delete u (objectURLs p)) (nextObjectURL p) p)
            | None => p
            end in
  set_currentAudioUrl (Some n)
    (set_events (events p1 ++ [ECreateObjectURL n])
       (set_objectURLs (<[n := b]> (objectURLs p1)) (S n) p1)).

(** The page after the last statement of [clearTextResults]. *)
Definition cleared (p : Page) : Page :=
  match currentAudioUrl p with
  | Some u =>
      set_currentAudioUrl None
        (set_events (events p ++ [ERevokeObjectURL u])
           (set_objectURLs (delete u (objectURLs p)) (nextObjectURL p) p))
  | None => p
  end.

(** The last statements of [downloadResult], from [URL.createObjectURL(blob)]. *)
Definition downloaded (b : Blob) (p : Page) : Page :=
  run (u <- createObjectURL b;; log (EDownload u);;; revokeObjectURL u) p.

(** The page after the [beforeunload] listener. *)
Definition unloaded (p : Page) : Page :=
  match currentAudioUrl p with
  | Some u =>
      set_events (events p ++ [ERevokeObjectURL u])
        (set_objectURLs (delete u (objectURLs p)) (nextObjectURL p) p)
  | None => p
  end.

(** Example pages. *)
Definition dev_location : Location :=
  {| protocol := "http:"; hostname := "localhost"; port := "3000";
     origin := "http://localhost:3000" |}.

Definition bad_input : Response :=
  {| status := 400; content_type := "application/json"; text := "";
     parsed := Some (VObj [("error", VStr "bad input")]) |}.

Definition healthy : Response :=
  {| status := 200; content_type := "application/json"; text := "";
     parsed := Some (VObj [("status", VStr "healthy"); ("collection_count", VNum 12)]) |}.

Definition audio : Response :=
  {| status := 200; content_type := "audio/mpeg"; text := "ID3"; parsed := None |}.

Definition plain (id_ : string) (classes : list string) : Element :=
  {| elem_id := id_; classList := classes; textContent := ""; value := "";
     src := None; disabled := false; display := "" |}.

(** A page with the two tabs and the text panel's widgets. *)
Definition two_tabs : list Element :=
  [ plain "" ["tab-btn"; "active"];
    plain "" ["tab-btn"];
    plain "text-tab" ["tab-content"; "active"];
    plain "image-tab" ["tab-content"];
    plain "query-input" [];
    plain "text-result" ["hidden"];
    set_textContent "An answer." (plain "text-answer" []);
    plain "audio-player" ["hidden"];
    plain "voice-status" ["status-message"];
    plain "loading" ["hidden"] ].

Definition page_with (storage : option (gmap string string))
    (net : nat -> Request -> exn + Response) : Page :=
  {| window_API_BASE_URL := None; localStorage := storage;
     meta_api_base_url := None; location := dev_location;
     network := net; document := two_tabs;
     objectURLs := ∅; nextObjectURL := 0; events := [];
     API_BASE_URL := "http://localhost:5000";
     selectedImage := None; currentAudioUrl := None |}.

(** The development page: no stored configuration, a backend that answers
    every request with [r]. *)
Definition served (r : Response) : Page := page_with (Some ∅) (fun _ _ => inr r).

(** The same in a window that has no local storage. *)
Definition served_without_storage (r : Response) : Page :=
  page_with None (fun _ _ => inr r).

Definition voice_clip : Blob := {| blob_bytes := "ID3"; blob_type := "audio/mpeg" |}.

Definition big_file : File :=
  {| file_name := "scan.png"; file_size := 16 * 1024 * 1024 + 1; file_type := "image/png" |}.

End Spec.

(** ** main.js, the rest of the view helpers *)
Module View.
Import JS Host DOM.

(** [e.classList.toggle(c)] *)
Definition classList_toggle (c : string) (e : Element) : Element :=
  if has_class c e then classList_remove c e else classList_add c e.

(** What an assignment to [textContent] stores: the attribute is a
    nullable string, so [null] and [undefined] empty the element, and
    anything else is stored in its string form. *)
Definition dom_string (v : Value) : string :=
  match v with
  | VUndefined | VNull => ""
  | _ => toString v
  end.

(** What an assignment to [value] is given: [null] is the empty string,
    anything else its string form. *)
Definition value_string (v : Value) : string :=
  match v with
  | VNull => ""
  | _ => toString v
  end.

(** The scroll that [scrollToElement] schedules moves the viewport only,
    which is no part of the page state. *)
Definition scrollToElement (elementId : string) : M unit :=
  element <- getElementById elementId;;
  when_present element (fun r => ret tt).

Definition displayTextAnswer (answer : Value) : M unit :=
  textAnswerEl <- getElementById "text-answer";;
  textResultEl <- getElementById "text-result";;
  audioPlayerEl <- getElementById "audio-player";;
  when_present textAnswerEl (fun r => update r (set_textContent (dom_string answer)));;;
  when_present textResultEl (fun r => update r (classList_remove "hidden"));;;
  when_present audioPlayerEl (fun r => update r (classList_add "hidden"));;;
  scrollToElement "text-result".

Definition displayImageResult (result : Value) : M unit :=
  ocrTextEl <- getElementById "ocr-text";;
  imageAnswerEl <- getElementById "image-answer";;
  imageResultEl <- getElementById "image-result";;
  when_present ocrTextEl (fun r =>
    t <- lift (get_prop result "extracted_text");;
    update r (set_value (value_string (or_else t (VStr "")))));;;
  when_present imageAnswerEl (fun r =>
    a <- lift (get_prop result "answer");;
    update r (set_textContent (dom_string (or_else a (VStr "")))));;;
  when_present imageResultEl (fun r => update r (classList_remove "hidden"));;;
  scrollToElement "image-result".

Definition clearInput (inputId : string) : M unit :=
  input <- getElementById inputId;;
  when_present input (fun r => update r (set_value "")).

Definition disableButton (buttonId : string) : M unit :=
  button <- getElementById buttonId;;
  when_present button (fun r => update r (set_disabled true)).

Definition enableButton (buttonId : string) : M unit :=
  button <- getElementById buttonId;;
  when_present button (fun r => update r (set_disabled false)).

Definition toggleElement (elementId : string) : M unit :=
  element <- getElementById elementId;;
  when_present element (fun r => update r (classList_toggle "hidden")).

Definition addClass (elementId className : string) : M unit :=
  element <- getElementById elementId;;
  when_present element (fun r =>
    check_token className;;;
    update r (classList_add className)).

Definition removeClass (elementId className : string) : M unit :=
  element <- getElementById elementId;;
  when_present element (fun r =>
    check_token className;;;
    update r (classList_remove className)).

(** [s.substring(0, n)]: [n] is clamped to the length of [s], and a
    negative [n] counts as 0. *)
Definition substring0 (s : string) (n : Z) : string :=
  String.substring 0 (Z.to_nat n) s.

(** [truncateText(text, maxLength)] on a string and a whole number. *)
Definition truncateText (text_ : string) (maxLength : Z) : string :=
  if negb (truthy (VStr text_)) || (Z.of_nat (String.length text_) <=? maxLength)%Z
  then text_
  else substring0 text_ maxLength +:+ "...".

End View.

(** ** main.js, the rest of the controller *)
Module Controller.
Import JS Host DOM.

(** [v === undefined || v === null] *)
Definition nullish (v : Value) : bool :=
  match v with
  | VUndefined | VNull => true
  | _ => false
  end.

(** [v?.k] *)
Definition opt_prop (v : Value) (k : string) : exn + Value :=
  if nullish v then inr VUndefined else get_prop v k.

(** [v === false] *)
Definition is_false (v : Value) : bool :=
  match v with
  | VBool false => true
  | _ => false
  end.

(** [!result || result.success === false] *)
Definition rejected (result : Value) : M bool :=
  if negb (truthy result) then ret true
  else s <- lift (get_prop result "success");; ret (is_false s).

(** [throw new Error(result?.error || fallback)] *)
Definition throw_result_error {A} (result : Value) (fallback : string) : M A :=
  e <- lift (opt_prop result "error");;
  throw (API.new_Error (or_else e (VStr fallback))).

(** The statements of [checkSystemHealth] after
    [await API.healthCheck()] has produced [health]. *)
Definition checkSystemHealth_then (health : Value) : M unit :=
  s <- lift (get_prop health "status");;
  if strict_eq_str s "healthy" then
    c <- lift (get_prop health "collection_count");;
    log (EConsoleLog ("Backend connected: " +:+ toString c +:+ " chunks available"))
  else ret tt.

(** Its [catch] block. *)
Definition checkSystemHealth_catch (error : exn) : M unit :=
  base <- API.getBaseUrl;;
  UI.showError ("Backend connection failed at " +:+ base +:+
                ". Please ensure backend is running and reachable.");;;
  console_error "Health check failed:" (Some error).

Definition checkSystemHealth : M unit :=
  try_catch
    (health <- API.healthCheck;;
     checkSystemHealth_then health)
    checkSystemHealth_catch.

(** The statements of [handleTextQuery] from the check of the result to
    the answer it displays. *)
Definition answer_of (result : Value) : M Value :=
  bad <- rejected result;;
  if bad then throw_result_error result "Query failed"
  else
    d <- lift (opt_prop result "data");;
    a <- lift (opt_prop d "answer");;
    answer <- (if nullish a then lift (opt_prop result "answer") else ret a);;
    if negb (truthy answer) then throw (API.new_Error (VStr "No answer returned from backend"))
    else ret answer.

(** The statements of [handleTextQuery] after [await API.queryText(...)]
    has produced [result]. *)
Definition handleTextQuery_then (result : Value) : M unit :=
  answer <- answer_of result;;
  UI.hideLoading;;;
  View.displayTextAnswer answer.

(** Its [catch] block. *)
Definition handleTextQuery_catch (error : exn) : M unit :=
  UI.hideLoading;;;
  UI.showStatus "voice-status" ("Error: " +:+ message_of error) "error";;;
  console_error "Query error:" (Some error).

Definition handleTextQuery : M unit :=
  queryInput <- getElementById "query-input";;
  queryInput <- non_null queryInput;;
  v <- read queryInput value;;
  let query := trim v in
  if negb (truthy (VStr query)) then
    UI.showStatus "voice-status" "Please enter a question" "error"
  else
    UI.showLoading "Thinking...";;;
    UI.hideStatus "voice-status";;;
    try_catch
      (result <- API.queryText (VStr query) (VNum 5);;
       handleTextQuery_then result)
      handleTextQuery_catch.

(** [handleVoiceInput], given what [Voice.isSupported()] answers and how
    the promise of [Voice.recognize()] settles.  The statements after the
    [await]: the timer they set runs [handleTextQuery] half a second
    later, as a run of its own. *)
Definition handleVoiceInput_then (transcript : string) : M unit :=
  if truthy (VStr transcript) then
    el <- getElementById "query-input";;
    el <- non_null el;;
    update el (set_value transcript);;;
    UI.showStatus "voice-status" transcript "success"
  else
    UI.showStatus "voice-status" "Could not understand. Try again." "error".

(** Its [catch] block. *)
Definition handleVoiceInput_catch (error : exn) : M unit :=
  UI.showStatus "voice-status" "Voice input failed. Try again." "error";;;
  console_error "Voice error:" (Some error).

Definition handleVoiceInput (supported : bool) (outcome : Voice.Settled) : M unit :=
  if negb supported then
    UI.showStatus "voice-status" "Voice recognition not supported in this browser" "error"
  else
    UI.showStatus "voice-status" "Listening... Speak now!" "success";;;
    try_catch
      (transcript <- match outcome with
                     | Voice.Resolved t => ret t
                     | Voice.Rejected e => throw e
                     end;;
       handleVoiceInput_then transcript)
      handleVoiceInput_catch.

(** The statements of [handleImageAnalysis] from the check of the result
    to the payload it displays. *)
Definition payload_of (result : Value) : M Value :=
  bad <- rejected result;;
  if bad then throw_result_error result "Image analysis failed"
  else
    d <- lift (opt_prop result "data");;
    ret (if nullish d then result else d).

(** The statements of [handleImageAnalysis] after
    [await API.imageQuery(...)] has produced [result]. *)
Definition handleImageAnalysis_then (result : Value) : M unit :=
  payload <- payload_of result;;
  UI.hideLoading;;;
  View.displayImageResult payload.

(** Its [catch] block. *)
Definition handleImageAnalysis_catch (error : exn) : M unit :=
  UI.hideLoading;;;
  UI.showError ("Analysis failed: " +:+ message_of error);;;
  console_error "Image analysis error:" (Some error).

Definition handleImageAnalysis : M unit :=
  sel <- gets selectedImage;;
  match sel with
  | None => ret tt
  | Some file =>
      el <- getElementById "image-query-input";;
      el <- non_null el;;
      v <- read el value;;
      let query := trim v in
      UI.showLoading "Analyzing image...";;;
      try_catch
        (result <- API.imageQuery (VFile file) (VStr query) (VNum 5);;
         handleImageAnalysis_then result)
        handleImageAnalysis_catch
  end.

(** The listeners [setupImageTab] puts on the upload area [uploadArea]
    and on the file input; [files] is [e.dataTransfer.files], or
    [e.target.files]. *)
Definition on_dragover (uploadArea : nat) : M unit :=
  update uploadArea (classList_add "dragover").

Definition on_dragleave (uploadArea : nat) : M unit :=
  update uploadArea (classList_remove "dragover").

Definition on_drop (uploadArea : nat) (files : list File) : M unit :=
  update uploadArea (classList_remove "dragover");;;
  match files !! 0 with
  | Some file =>
      if String.prefix "image/" (file_type file) then Main.handleImageSelect file
      else UI.showError "Please upload a valid image file"
  | None => UI.showError "Please upload a valid image file"
  end.

Definition on_change (files : list File) : M unit :=
  match files !! 0 with
  | Some file => Main.handleImageSelect file
  | None => ret tt
  end.

End Controller.

(** ** Vocabulary of the further statements *)
Module Spec2.
Import JS Host DOM Spec.

(** The five calls that go to the network and rethrow what fails, with
    the label their [catch] block logs. *)
Definition label (c : Call) : option string :=
  match c with
  | CHealthCheck => Some "Health check error:"
  | CQueryText _ _ => Some "Query text error:"
  | CExtractOCR _ => Some "OCR extraction error:"
  | CImageQuery _ _ _ => Some "Image query error:"
  | CTextToSpeech _ => Some "Text-to-speech error:"
  | CCheckConnection | CGetBaseUrl => None
  end.

(** The next [fetch] of the page is rejected with [e], whatever is asked. *)
Definition rejects_with (p : Page) (e : exn) : Prop :=
  forall req, network p (length (fetches (events p))) req = inl e.

(** The requests a computation adds to the log. *)
Definition requests {A} (m : M A) (p : Page) : list Request :=
  drop (length (fetches (events p))) (fetches (events (run m p))).

(** A computation that changes nothing of the page but the log, and
    issues at most [n] requests. *)
Definition within {A} (n : nat) (m : M A) : Prop :=
  forall p, exists l,
    fetches (events (run m p)) = (fetches (events p) ++ l)%list /\ length l <= n.

(** The element a lookup by id finds. *)
Definition element_by_id (i : string) (d : list Element) : option Element :=
  match lookup_id i d with
  | Some r => d !! r
  | None => None
  end.

(** Two documents with the same elements, by id, in the same order. *)
Definition same_ids (d d' : list Element) : Prop :=
  map elem_id d' = map elem_id d.

(** A computation that completes and changes nothing of the page but
    classes, texts and the like of elements of the document. *)
Definition restyles {A} (m : M A) : Prop :=
  forall p, exists d a, m p = (set_document d p, inr a) /\ same_ids (document p) d.

(** The view helpers that look elements up by id and cannot fail; the two
    that take a class from the caller, [addClass] and [removeClass], are
    stated apart. *)
Inductive Helper :=
| HShowLoading (text_ : string)
| HHideLoading
| HShowStatus (elementId message type_ : string)
| HHideStatus (elementId : string)
| HClearInput (inputId : string)
| HDisableButton (buttonId : string)
| HEnableButton (buttonId : string)
| HToggleElement (elementId : string)
| HScrollToElement (elementId : string)
| HDisplayTextAnswer (answer : Value).

Definition helper (h : Helper) : M unit :=
  match h with
  | HShowLoading t => UI.showLoading t
  | HHideLoading => UI.hideLoading
  | HShowStatus i m t => UI.showStatus i m t
  | HHideStatus i => UI.hideStatus i
  | HClearInput i => View.clearInput i
  | HDisableButton i => View.disableButton i
  | HEnableButton i => View.enableButton i
  | HToggleElement i => View.toggleElement i
  | HScrollToElement i => View.scrollToElement i
  | HDisplayTextAnswer a => View.displayTextAnswer a
  end.

(** The ids a helper looks up. *)
Definition ids_of (h : Helper) : list string :=
  match h with
  | HShowLoading _ => ["loading"; "loading-text"]
  | HHideLoading => ["loading"]
  | HShowStatus i _ _ | HHideStatus i | HClearInput i | HDisableButton i
  | HEnableButton i | HToggleElement i | HScrollToElement i => [i]
  | HDisplayTextAnswer _ => ["text-answer"; "text-result"; "audio-player"]
  end.

(** An update of the element a lookup found, if any. *)
Definition on (o : option nat) (f : Element -> Element) (d : list Element) : list Element :=
  match o with
  | Some r => alter f r d
  | None => d
  end.

(** The document a helper leaves, written out. *)
Definition restyled (h : Helper) (d : list Element) : list Element :=
  match h with
  | HShowLoading t =>
      on (lookup_id "loading-text" d) (set_textContent t)
        (on (lookup_id "loading" d) (classList_remove "hidden") d)
  | HHideLoading => on (lookup_id "loading" d) (classList_add "hidden") d
  | HShowStatus i m t =>
      on (lookup_id i d)
        (fun e => set_display "block"
                    (set_className ("status-message " +:+ t) (set_textContent m e))) d
  | HHideStatus i =>
      on (lookup_id i d) (fun e => set_className "status-message" (set_display "none" e)) d
  | HClearInput i => on (lookup_id i d) (set_value "") d
  | HDisableButton i => on (lookup_id i d) (set_disabled true) d
  | HEnableButton i => on (lookup_id i d) (set_disabled false) d
  | HToggleElement i => on (lookup_id i d) (View.classList_toggle "hidden") d
  | HScrollToElement _ => d
  | HDisplayTextAnswer a =>
      on (lookup_id "audio-player" d) (classList_add "hidden")
        (on (lookup_id "text-result" d) (classList_remove "hidden")
           (on (lookup_id "text-answer" d) (set_textContent (View.dom_string a)) d))
  end.

(** A computation that neither reads nor writes the document. *)
Definition ignores_document {A} (m : M A) : Prop :=
  forall d p, m (set_document d p) = (set_document d (run m p), result m p).

(** The alerts of a log. *)
Definition alerts (l : list Event) : list string :=
  omap (fun e => match e with EAlert m => Some m | _ => None end) l.

(** A computation that leaves [selectedImage] as it is. *)
Definition keeps_image {A} (m : M A) : Prop :=
  forall p, selectedImage (run m p) = selectedImage p.

(** Console output. *)
Definition is_console (e : Event) : bool :=
  match e with
  | EConsoleLog _ | EConsoleError _ _ => true
  | _ => false
  end.

(** What runs on the page once it has loaded.

    The listeners that run to their end at once: [clearTextResults], the
    listeners of the upload area and of the file input, [downloadResult],
    [switchTab], [beforeunload], and the callbacks of the file reader
    that [handleImageSelect] starts.  (The listeners for a click on the
    upload area and for the Enter key only trigger other listeners.)

    The asynchronous handlers ([checkSystemHealth], [handleTextQuery],
    [handleVoiceInput], [handleTextToSpeech], [handleImageAnalysis]) as a
    whole, which is how they run when nothing else runs while they wait;
    and in the parts they run in otherwise: the calls of view helpers and
    the request of their first part, the console output of the API client
    (and of the other listeners: [online], [offline], the speech wrapper),
    and what they resume with after the [await], for whatever the call
    they waited for has produced. *)
Inductive listener : Page -> Page -> Prop :=
| listener_clear p : listener p (run Main.clearTextResults p)
| listener_dragover a p : listener p (run (Controller.on_dragover a) p)
| listener_dragleave a p : listener p (run (Controller.on_dragleave a) p)
| listener_drop a files p : listener p (run (Controller.on_drop a files) p)
| listener_change files p : listener p (run (Controller.on_change files) p)
| listener_download p : listener p (run Main.downloadResult p)
| listener_switch tab p : listener p (run (Main.switchTab tab) p)
| listener_unload p : listener p (run Main.beforeunload p)
| listener_reader_onload file p : listener p (run (Main.reader_onload file) p)
| listener_reader_onerror p : listener p (run Main.reader_onerror p)
| listener_health p : listener p (run Controller.checkSystemHealth p)
| listener_ask p : listener p (run Controller.handleTextQuery p)
| listener_voice supported outcome p :
    listener p (run (Controller.handleVoiceInput supported outcome) p)
| listener_listen p : listener p (run Main.handleTextToSpeech p)
| listener_analyze p : listener p (run Controller.handleImageAnalysis p)
| listener_helper h p : listener p (run (helper h) p)
| listener_fetch req p : listener p (run (fetch req) p)
| listener_console e p : is_console e = true -> listener p (run (log e) p)
| listener_health_then health p :
    listener p (run (Controller.checkSystemHealth_then health) p)
| listener_health_catch error p :
    listener p (run (Controller.checkSystemHealth_catch error) p)
| listener_ask_then result p : listener p (run (Controller.handleTextQuery_then result) p)
| listener_ask_catch error p : listener p (run (Controller.handleTextQuery_catch error) p)
| listener_voice_then transcript p :
    listener p (run (Controller.handleVoiceInput_then transcript) p)
| listener_voice_catch error p :
    listener p (run (Controller.handleVoiceInput_catch error) p)
| listener_listen_then audioBlob p :
    listener p (run (Main.handleTextToSpeech_then audioBlob) p)
| listener_listen_catch error p :
    listener p (run (Main.handleTextToSpeech_catch error) p)
| listener_analyze_then result p :
    listener p (run (Controller.handleImageAnalysis_then result) p)
| listener_analyze_catch error p :
    listener p (run (Controller.handleImageAnalysis_catch error) p).

(** The pages a session goes through, from [let selectedImage = null] and
    [let currentAudioUrl = null] with no object URL made yet. *)
Inductive session : Page -> Prop :=
| session_start p : selectedImage p = None -> loaded p -> session p
| session_step p p' : session p -> listener p p' -> session p'.

Definition is_toggle (h : Helper) : bool :=
  match h with
  | HToggleElement _ => true
  | _ => false
  end.

(** Further example data: a backend that cannot be reached, answers in
    the envelopes of the backend, an answer that is no JSON, files, a
    question typed into an input, and the image panel with a file chosen. *)
Definition offline : Page :=
  page_with (Some ∅) (fun _ _ => inl (TypeError "Failed to fetch")).

Definition answering : Response :=
  {| status := 200; content_type := "application/json"; text := "";
     parsed := Some (VObj [("success", VBool true);
                           ("data", VObj [("answer", VStr "42")])]) |}.

Definition described : Response :=
  {| status := 200; content_type := "application/json"; text := "";
     parsed := Some (VObj [("data", VObj [("extracted_text", VStr "STOP");
                                          ("answer", VStr "A stop sign")])]) |}.

Definition garbled : Response :=
  {| status := 502; content_type := "text/html"; text := "<html>Bad Gateway</html>";
     parsed := None |}.

Definition small_file : File :=
  {| file_name := "sign.png"; file_size := 1024; file_type := "image/png" |}.

Definition pdf_file : File :=
  {| file_name := "notes.pdf"; file_size := 2048; file_type := "application/pdf" |}.

Definition typed (i v : string) (p : Page) : Page :=
  set_document (on (lookup_id i (document p)) (set_value v) (document p)) p.

Definition image_tab : list Element :=
  [ plain "upload-area" ["upload-area"; "dragover"];
    plain "image-input" [];
    set_value "what is this?" (plain "image-query-input" []);
    plain "ocr-text" [];
    plain "image-answer" [];
    plain "image-result" ["hidden"];
    plain "loading" ["hidden"] ].

Definition analysing (r : Response) : Page :=
  set_selectedImage (Some small_file) (set_document image_tab (served r)).

Definition no_buttons : Page :=
  set_document [plain "text-tab" ["tab-content"; "active"]] (served healthy).

End Spec2.

(** * Properties *)

(** ** The API client *)
Module ApiFacts.
Import JS Host DOM Spec.

Lemma fetches_app l1 l2 : fetches (l1 ++ l2) = (fetches l1 ++ fetches l2)%list.
Proof. unfold fetches. apply omap_app. Qed.


Lemma fetches_snoc_fetch l r : fetches (l ++ [EFetch r]) = (fetches l ++ [r])%list.
Proof. rewrite fetches_app. reflexivity. Qed.

Lemma fetches_snoc_console l a b : fetches (l ++ [EConsoleError a b]) = fetches l.
Proof. rewrite fetches_app. simpl. apply app_nil_r. Qed.

Lemma string_app_assoc (a b c : string) : (a +:+ b) +:+ c = a +:+ b +:+ c.
Proof.
  induction a as [|x a IH]; [reflexivity|].
  change (String x ((a +:+ b) +:+ c) = String x (a +:+ b +:+ c)).
  now rewrite IH.
Qed.

#[local] Arguments JSON_stringify : simpl never.
#[local] Arguments toString : simpl never.
#[local] Arguments trim : simpl never.
#[local] Arguments pretty : simpl never.
#[local] Arguments String.app : simpl never.

Ltac exec :=
  repeat progress
    (unfold API.throw_response_error, API.is_blank, run, result, outcome, try_catch, bind,
       ret, throw, lift, gets, modify, fetch, json, blob, console_error, alert, log in *;
     cbn [fst snd] in *).

Ltac name_request :=
  match goal with
  | |- context [network ?p ?i ?rq] =>
      let req := fresh "req" in
      let e := fresh "e" in
      let r := fresh "r" in
      set (req := rq) in *; destruct (network p i req) as [e|r]
  end.

Ltac finish_log :=
  cbn; rewrite ?fetches_snoc_console, ?fetches_snoc_fetch; try reflexivity.


Lemma drop_fetches_same l : drop (length (fetches l)) (fetches l) = [].
Proof. apply drop_all. Qed.

Lemma drop_fetches_console l a b :
  drop (length (fetches l)) (fetches (l ++ [EConsoleError a b])) = [].
Proof. rewrite fetches_snoc_console. apply drop_all. Qed.

Lemma stringify_defined (n : Value) : n <> VUndefined -> exists sn, JSON_stringify n = Some sn.
Proof.
  destruct n as [| |[]| | | | |]; intros Hn; try contradiction; cbn; eauto.
Qed.

Lemma param_defined (v : Value) (d : Value) : d <> VUndefined -> API.param v d <> VUndefined.
Proof. destruct v; cbn; intros; congruence. Qed.

(** C1: for a query that is not blank, [queryText query topK] issues
    exactly one request: a POST to [<base>/api/query] with the JSON content
    type, whose body is the JSON text of [{query: <trimmed>, top_k: n}],
    where [n] is [topK], or 5 when [topK] is omitted. *)
Theorem queryText_request (p : Page) (q : string) (topK : Value) :
  trim q <> "" ->
  let n := match topK with VUndefined => VNum 5 | _ => topK end in
  exists sn,
    JSON_stringify n = Some sn /\
    fetches (events (run (API.queryText (VStr q) topK) p)) =
      (fetches (events p) ++
       [ {| url := API_BASE_URL p +:+ "/api/query"; method := "POST";
            headers := [("Content-Type", "application/json")];
            body := Some (BodyText
              ("{" +:+ quoteJSONString "query" +:+ ":" +:+ quoteJSONString (trim q) +:+ "," +:+
               quoteJSONString "top_k" +:+ ":" +:+ sn +:+ "}")) |} ])%list.
Proof.
  intros Hq n.
  assert (Ht : truthy (VStr q) = true) by (destruct q; [contradiction|reflexivity]).
  destruct (stringify_defined n) as [sn Hsn].
  { apply (param_defined topK (VNum 5)). discriminate. }
  exists sn. split; [exact Hsn|].
  unfold API.queryText. exec. rewrite Ht. cbn.
  rewrite bool_decide_false by assumption. cbn.
  change (API.param topK (VNum 5)) with n.
  replace (JSON_stringify (VObj [("query", VStr (trim q)); ("top_k", n)]))
    with (Some ("{" +:+ quoteJSONString "query" +:+ ":" +:+ quoteJSONString (trim q) +:+ "," +:+
               quoteJSONString "top_k" +:+ ":" +:+ sn +:+ "}")).
  2:{ unfold JSON_stringify at 1. fold JSON_stringify. rewrite Hsn. cbn [JSON_stringify].
      cbn [join_with]. now rewrite !string_app_assoc. }
  name_request.
  - finish_log.
  - exec. destruct (ok r); cbn.
    + destruct (parsed r); finish_log.
    + destruct (parsed r) as [v|]; cbn; [destruct (get_prop v "error")|]; finish_log.
Qed.

(** C4: the calls check what they need before any request goes out: a
    blank query or text, or a missing image file, fails with the message of
    the check and no request is issued. *)
Theorem validation_before_request (p : Page) :
  (forall q topK, trim q = "" ->
     failure (CQueryText (VStr q) topK) p = Some (Error "Query cannot be empty") /\
     requests_of (CQueryText (VStr q) topK) p = []) /\
  (forall t, trim t = "" ->
     failure (CTextToSpeech (VStr t)) p = Some (Error "Text cannot be empty") /\
     requests_of (CTextToSpeech (VStr t)) p = []) /\
  (forall f, f = VNull \/ f = VUndefined ->
     failure (CExtractOCR f) p = Some (Error "Image file is required") /\
     requests_of (CExtractOCR f) p = []) /\
  (forall f q topK, f = VNull \/ f = VUndefined ->
     failure (CImageQuery f q topK) p = Some (Error "Image file is required") /\
     requests_of (CImageQuery f q topK) p = []).
Proof.
  repeat split.
  - unfold failure, API.queryText. exec.
    destruct q as [|c q]; cbn; [reflexivity|].
    rewrite bool_decide_true by assumption. reflexivity.
  - unfold requests_of, page_after, API.queryText. exec.
    destruct q as [|c q]; cbn; [apply drop_fetches_console|].
    rewrite bool_decide_true by assumption. cbn. apply drop_fetches_console.
  - unfold failure, API.textToSpeech. exec.
    destruct t as [|c t]; cbn; [reflexivity|].
    rewrite bool_decide_true by assumption. reflexivity.
  - unfold requests_of, page_after, API.textToSpeech. exec.
    destruct t as [|c t]; cbn; [apply drop_fetches_console|].
    rewrite bool_decide_true by assumption. cbn. apply drop_fetches_console.
  - destruct H; subst; reflexivity.
  - destruct H; subst; unfold requests_of, page_after, API.extractOCR; exec; cbn;
      apply drop_fetches_console.
  - destruct H; subst; reflexivity.
  - destruct H; subst; unfold requests_of, page_after, API.imageQuery; exec; cbn;
      apply drop_fetches_console.
Qed.

(** C10: [checkConnection] never throws; it returns [true] exactly when
    [healthCheck] succeeds with a payload whose [status] is the string
    [healthy], and [false] otherwise, also when [healthCheck] fails. *)
Theorem checkConnection_never_throws (p : Page) :
  exists b, result API.checkConnection p = inr b /\
    (b = true <->
     exists health, result API.healthCheck p = inr health /\
                    get_prop health "status" = inr (VStr "healthy")).
Proof.
  unfold API.checkConnection, result, try_catch, bind, lift, ret.
  destruct (API.healthCheck p) as [p' [e|health]]; cbn.
  - exists false. split; [reflexivity|]. split; [discriminate|].
    intros (h & Hh & _). discriminate.
  - destruct (get_prop health "status") as [e|s] eqn:Hs; cbn.
    + exists false. split; [reflexivity|]. split; [discriminate|].
      intros (h & Hh & Hp). congruence.
    + exists (strict_eq_str s "healthy"). split; [reflexivity|]. split.
      * intros Hb. exists health. split; [reflexivity|].
        destruct s; cbn in Hb; try discriminate.
        apply bool_decide_eq_true in Hb. now subst.
      * intros (h & Hh & Hp). inversion Hh; subst h.
        rewrite Hs in Hp. inversion Hp; subst s. reflexivity.
Qed.

Ltac no_request Hreq :=
  exfalso; apply Hreq; first [apply drop_fetches_console | apply drop_fetches_same].

Ltac decide_on x Hreq :=
  destruct x eqn:?; cbn in *; try solve [no_request Hreq].

Ltac after_response Hnet Hok Hjson :=
  rewrite Hnet in *; cbn in *; rewrite Hok in *; cbn in *; rewrite Hjson in *; cbn in *.

Lemma error_message_used (props : list (string * Value)) (msg generic : string) :
  assoc "error" props = Some (VStr msg) -> msg <> "" ->
  API.new_Error (or_else (default VUndefined (assoc "error" props)) (VStr generic)) = Error msg.
Proof. intros -> Hmsg. destruct msg; [contradiction | reflexivity]. Qed.

Lemma generic_message_used (props : list (string * Value)) (generic : string) :
  truthy (default VUndefined (assoc "error" props)) = false ->
  API.new_Error (or_else (default VUndefined (assoc "error" props)) (VStr generic)) = Error generic.
Proof. intros H. unfold or_else. rewrite H. reflexivity. Qed.

(** C3, amended: on a response that is not 2xx, [healthCheck] fails with
    [Health check failed: <status>] whatever the body holds.  The other
    four calls, when the body is a JSON object, fail with exactly its
    [error] field when that is a non-empty string, and with their
    status-based message when the field is absent or falsy. *)
Theorem failed_response_error (p : Page) (r : Response) :
  answers_with p r -> ok r = false ->
  failure CHealthCheck p = Some (Error ("Health check failed: " +:+ pretty (status r))) /\
  (forall c what props,
     generic_message c = Some what -> requests_of c p <> [] ->
     parsed r = Some (VObj props) ->
     (forall msg, assoc "error" props = Some (VStr msg) -> msg <> "" ->
        failure c p = Some (Error msg)) /\
     (truthy (default VUndefined (assoc "error" props)) = false ->
        failure c p = Some (Error (what +:+ ": " +:+ pretty (status r))))).
Proof.
  intros Hnet Hok. unfold answers_with in Hnet. split.
  - unfold failure, API.healthCheck. exec. rewrite Hnet, Hok. reflexivity.
  - intros c what props Hgen Hreq Hjson.
    destruct c; inversion Hgen; subst what; clear Hgen;
      unfold failure, requests_of, page_after in *.
    + unfold API.queryText in *. exec.
      decide_on (truthy query) Hreq. decide_on (call_trim query) Hreq.
      match goal with s : string |- _ => decide_on (bool_decide (s = "")) Hreq end.
      after_response Hnet Hok Hjson.
      split; [intros msg Hm Hne; now rewrite (error_message_used _ _ _ Hm Hne)
             | intros Hf; now rewrite (generic_message_used _ _ Hf)].
    + unfold API.extractOCR in *. exec.
      decide_on (truthy imageFile) Hreq.
      after_response Hnet Hok Hjson.
      split; [intros msg Hm Hne; now rewrite (error_message_used _ _ _ Hm Hne)
             | intros Hf; now rewrite (generic_message_used _ _ Hf)].
    + unfold API.imageQuery in *. exec.
      decide_on (truthy imageFile) Hreq.
      decide_on (call_trim (API.param query (VStr ""))) Hreq.
      decide_on (call_toString (API.param topK (VNum 5))) Hreq.
      after_response Hnet Hok Hjson.
      split; [intros msg Hm Hne; now rewrite (error_message_used _ _ _ Hm Hne)
             | intros Hf; now rewrite (generic_message_used _ _ Hf)].
    + unfold API.textToSpeech in *. exec.
      decide_on (truthy text_) Hreq. decide_on (call_trim text_) Hreq.
      match goal with s : string |- _ => decide_on (bool_decide (s = "")) Hreq end.
      after_response Hnet Hok Hjson.
      split; [intros msg Hm Hne; now rewrite (error_message_used _ _ _ Hm Hne)
             | intros Hf; now rewrite (generic_message_used _ _ Hf)].
Qed.

Lemma set_events_same (p : Page) : p = set_events (events p) p.
Proof. destruct p; reflexivity. Qed.

Ltac only_logs :=
  exec; cbn;
  repeat (match goal with
          | |- context [truthy ?x] => destruct (truthy x); cbn
          | |- context [call_trim ?x] => destruct (call_trim x); cbn
          | |- context [call_toString ?x] => destruct (call_toString x); cbn
          | |- context [bool_decide ?x] => destruct (bool_decide x); cbn
          | |- context [network ?p ?i ?r] => destruct (network p i r); cbn
          | |- context [ok ?r] => destruct (ok r); cbn
          | |- context [parsed ?r] => destruct (parsed r); cbn
          | |- context [get_prop ?v ?k] => destruct (get_prop v k); cbn
          end);
  first [ eexists; reflexivity | eexists; apply set_events_same ].

Lemma healthCheck_only_logs p : exists l, run API.healthCheck p = set_events l p.
Proof. unfold API.healthCheck. only_logs. Qed.

Lemma queryText_only_logs q k p : exists l, run (API.queryText q k) p = set_events l p.
Proof. unfold API.queryText. only_logs. Qed.

Lemma extractOCR_only_logs f p : exists l, run (API.extractOCR f) p = set_events l p.
Proof. unfold API.extractOCR. only_logs. Qed.

Lemma imageQuery_only_logs f q k p : exists l, run (API.imageQuery f q k) p = set_events l p.
Proof. unfold API.imageQuery. only_logs. Qed.

Lemma textToSpeech_only_logs t p : exists l, run (API.textToSpeech t) p = set_events l p.
Proof. unfold API.textToSpeech. only_logs. Qed.

Lemma checkConnection_only_logs p : exists l, run API.checkConnection p = set_events l p.
Proof.
  unfold API.checkConnection, run, try_catch, bind, lift, ret.
  destruct (healthCheck_only_logs p) as [l Hl]. unfold run in Hl.
  destruct (API.healthCheck p) as [p' [e|h]]; cbn in *; subst p'.
  - eauto.
  - destruct (get_prop h "status"); cbn; eauto.
Qed.

Lemma call_only_logs c p : exists l, page_after c p = set_events l p.
Proof.
  destruct c; cbn.
  - apply healthCheck_only_logs.
  - apply queryText_only_logs.
  - apply extractOCR_only_logs.
  - apply imageQuery_only_logs.
  - apply textToSpeech_only_logs.
  - apply checkConnection_only_logs.
  - exists (events p). apply set_events_same.
Qed.

Lemma calls_keep_base calls p :
  API_BASE_URL (foldl (fun q c => page_after c q) p calls) = API_BASE_URL p.
Proof.
  revert p. induction calls as [|c calls IH]; intros p; cbn; [reflexivity|].
  rewrite IH. destruct (call_only_logs c p) as [l ->]. reflexivity.
Qed.

(** C2, amended: [setApiBaseUrl] throws on anything but a non-empty
    string and leaves the page as it was; on a non-empty string it strips a
    trailing slash, stores the result in [API_BASE_URL], returns it, and
    [getBaseUrl] returns it after any later calls of the client.  The
    result is written to local storage when the window has local storage,
    and only then. *)
Theorem setApiBaseUrl_normalizes (p : Page) (url : Value) :
  (is_nonempty_string url = false ->
     result (API.setApiBaseUrl url) p = inl (Error "API base URL must be a non-empty string") /\
     run (API.setApiBaseUrl url) p = p) /\
  (forall s, url = VStr s -> s <> "" ->
     let v := replace_trailing_slash s in
     let p' := run (API.setApiBaseUrl url) p in
     result (API.setApiBaseUrl url) p = inr v /\
     API_BASE_URL p' = v /\
     (forall items, localStorage p = Some items ->
        localStorage p' = Some (<["API_BASE_URL" := v]> items) /\ persisted p' v) /\
     (localStorage p = None -> localStorage p' = None) /\
     (forall calls,
        result API.getBaseUrl (foldl (fun q c => page_after c q) p' calls) = inr v)).
Proof.
  split.
  - intros Hu. unfold API.setApiBaseUrl.
    destruct url as [| |b|n|[|c s]|items|props|f]; try discriminate Hu;
      try destruct b; try (destruct (n =? 0)%Z eqn:Hn; cbn; rewrite ?Hn); cbn;
      split; reflexivity.
  - intros s -> Hs v p'.
    assert (Hrun : API.setApiBaseUrl (VStr s) p =
              (match localStorage p with
               | Some items =>
                   set_localStorage (Some (<["API_BASE_URL" := v]> items)) (set_API_BASE_URL v p)
               | None => set_API_BASE_URL v p
               end, inr v)).
    { unfold API.setApiBaseUrl. destruct s as [|c s]; [contradiction|].
      cbn. exec. cbn. rewrite bool_decide_true by reflexivity. cbn.
      destruct (localStorage p); reflexivity. }
    subst p'. unfold run, result. rewrite Hrun. cbn [fst snd].
    split; [reflexivity|]. split; [destruct (localStorage p); reflexivity|].
    split; [|split].
    + intros items ->. cbn. split; [reflexivity|].
      exists (<["API_BASE_URL" := v]> items). split; [reflexivity|]. apply lookup_insert_eq.
    + intros Hnone. rewrite Hnone. cbn. exact Hnone.
    + intros calls. unfold API.getBaseUrl, gets. cbn. f_equal.
      rewrite calls_keep_base. destruct (localStorage p); reflexivity.
Qed.

(** C2 as stated fails in a window without local storage: the call
    succeeds and nothing is persisted. *)
Lemma setApiBaseUrl_without_storage :
  is_nonempty_string (VStr "http://x/") = true /\
  result (API.setApiBaseUrl (VStr "http://x/")) (served_without_storage healthy)
    = inr "http://x" /\
  ~ persisted (run (API.setApiBaseUrl (VStr "http://x/")) (served_without_storage healthy))
      "http://x".
Proof.
  split; [reflexivity|]. split; [reflexivity|]. intros (items & H & _). discriminate H.
Qed.

(** C3 as stated fails for [healthCheck]: the response is not 2xx and its
    JSON body holds [{error: "bad input"}], yet the call fails with the
    status-based message. *)
Lemma healthCheck_ignores_error_body :
  answers_with (served bad_input) bad_input /\
  ok bad_input = false /\
  parsed bad_input = Some (VObj [("error", VStr "bad input")]) /\
  requests_of CHealthCheck (served bad_input) <> [] /\
  failure CHealthCheck (served bad_input) = Some (Error "Health check failed: 400") /\
  failure CHealthCheck (served bad_input) <> Some (Error "bad input").
Proof.
  split; [intros req; reflexivity|]. split; [reflexivity|]. split; [reflexivity|].
  split; [discriminate|]. split; [reflexivity | discriminate].
Qed.

Lemma queryText_request_witness :
  trim "  hi " <> "" /\
  fetches (events (run (API.queryText (VStr "  hi ") (VNum 3)) (served healthy))) =
    [ {| url := "http://localhost:5000/api/query"; method := "POST";
         headers := [("Content-Type", "application/json")];
         body := Some (BodyText
           ("{" +:+ dquote +:+ "query" +:+ dquote +:+ ":" +:+ dquote +:+ "hi" +:+ dquote +:+
            "," +:+ dquote +:+ "top_k" +:+ dquote +:+ ":3}")) |} ].
Proof.
  assert (H : trim "  hi " <> "") by (vm_compute; discriminate).
  split; [exact H|].
  destruct (queryText_request (served healthy) "  hi " (VNum 3) H) as (sn & Hsn & Hreq).
  rewrite Hreq. vm_compute in Hsn. inversion Hsn; subst sn. vm_compute. reflexivity.
Defined.

Lemma validation_before_request_witness :
  trim "   " = "" /\
  failure (CQueryText (VStr "   ") VUndefined) (served healthy)
    = Some (Error "Query cannot be empty") /\
  requests_of (CQueryText (VStr "   ") VUndefined) (served healthy) = [].
Proof.
  split; [reflexivity|].
  apply (proj1 (validation_before_request (served healthy))). reflexivity.
Defined.

Lemma failed_response_error_witness :
  answers_with (served bad_input) bad_input /\ ok bad_input = false /\
  failure (CQueryText (VStr "why?") VUndefined) (served bad_input) = Some (Error "bad input").
Proof.
  assert (Hnet : answers_with (served bad_input) bad_input) by (intros req; reflexivity).
  assert (Hok : ok bad_input = false) by reflexivity.
  split; [exact Hnet|]. split; [exact Hok|].
  destruct (failed_response_error (served bad_input) bad_input Hnet Hok) as (_ & H).
  destruct (H (CQueryText (VStr "why?") VUndefined) "Request failed"
              [("error", VStr "bad input")] eq_refl) as (Hmsg & _).
  - vm_compute. discriminate.
  - reflexivity.
  - apply Hmsg; [reflexivity | discriminate].
Defined.

Lemma setApiBaseUrl_normalizes_witness :
  result (API.setApiBaseUrl (VStr "http://x/")) (served healthy) = inr "http://x" /\
  persisted (run (API.setApiBaseUrl (VStr "http://x/")) (served healthy)) "http://x" /\
  result API.getBaseUrl (run (API.setApiBaseUrl (VStr "http://x/")) (served healthy))
    = inr "http://x" /\
  result (API.setApiBaseUrl (VStr "")) (served healthy)
    = inl (Error "API base URL must be a non-empty string").
Proof.
  destruct (setApiBaseUrl_normalizes (served healthy) (VStr "http://x/")) as (_ & H).
  destruct (H "http://x/" eq_refl) as (Hres & _ & Hstore & _ & Hget); [discriminate|].
  destruct (Hstore ∅ eq_refl) as (_ & Hp).
  split; [exact Hres|]. split; [exact Hp|]. split; [exact (Hget [])|].
  apply (proj1 (setApiBaseUrl_normalizes (served healthy) (VStr ""))). reflexivity.
Defined.

End ApiFacts.

(** ** Tab switching *)
Module TabFacts.
Import JS Host DOM Spec.

Section Positions.
Variable h : Element -> bool.

Lemma elem_of_positions (d : list Element) (i k : nat) :
  k ∈ positions h i d <-> exists e, i <= k /\ d !! (k - i) = Some e /\ h e = true.
Proof.
  revert i. induction d as [|e d IH]; intros i; cbn.
  - split; [intros H; inversion H | intros (e & _ & H & _); discriminate].
  - destruct (h e) eqn:He.
    + rewrite elem_of_cons, IH. split.
      * intros [-> | (e' & Hle & Hl & Hh)].
        -- exists e. rewrite Nat.sub_diag. auto.
        -- exists e'. split; [lia|]. split; [|exact Hh].
           replace (k - i) with (S (k - S i)) by lia. exact Hl.
      * intros (e' & Hle & Hl & Hh).
        destruct (decide (k = i)) as [->|Hne]; [now left|right].
        exists e'. split; [lia|]. split; [|exact Hh].
        replace (k - i) with (S (k - S i)) in Hl by lia. exact Hl.
    + rewrite IH. split.
      * intros (e' & Hle & Hl & Hh). exists e'. split; [lia|]. split; [|exact Hh].
        replace (k - i) with (S (k - S i)) by lia. exact Hl.
      * intros (e' & Hle & Hl & Hh).
        destruct (decide (k = i)) as [->|Hne].
        { rewrite Nat.sub_diag in Hl. cbn in Hl. congruence. }
        exists e'. split; [lia|]. split; [|exact Hh].
        replace (k - i) with (S (k - S i)) in Hl by lia. exact Hl.
Qed.

Lemma positions_none (d : list Element) (i : nat) :
  (forall k e, d !! k = Some e -> h e = false) -> positions h i d = [].
Proof.
  revert i. induction d as [|e d IH]; intros i H; cbn; [reflexivity|].
  rewrite (H 0 e eq_refl). apply IH. intros k e' Hk. exact (H (S k) e' Hk).
Qed.

Lemma positions_single (d : list Element) (i b : nat) :
  (exists e, d !! b = Some e /\ h e = true) ->
  (forall k e, d !! k = Some e -> h e = true -> k = b) ->
  positions h i d = [i + b].
Proof.
  revert i b. induction d as [|e d IH]; intros i b (eb & Hb & Hhb) Huniq.
  - discriminate.
  - cbn. destruct b as [|b].
    + cbn in Hb. inversion Hb; subst eb. rewrite Hhb. rewrite Nat.add_0_r. f_equal.
      apply positions_none. intros k e' Hk.
      destruct (h e') eqn:He'; [|reflexivity].
      specialize (Huniq (S k) e' Hk He'). discriminate.
    + destruct (h e) eqn:He.
      { specialize (Huniq 0 e eq_refl He). discriminate. }
      rewrite (IH (S i) b).
      * f_equal. lia.
      * exists eb. auto.
      * intros k e' Hk He'. specialize (Huniq (S k) e' Hk He'). lia.
Qed.
End Positions.

Lemma positions_ext (h1 h2 : Element -> bool) (d1 d2 : list Element) (i : nat) :
  Forall2 (fun a b => h1 a = h2 b) d1 d2 -> positions h1 i d1 = positions h2 i d2.
Proof.
  intros H. revert i. induction H as [|a b d1 d2 Hab H IH]; intros i; cbn; [reflexivity|].
  rewrite Hab, (IH (S i)). reflexivity.
Qed.


Lemma set_document_same (p : Page) : set_document (document p) p = p.
Proof. destruct p; reflexivity. Qed.

Lemma forEach_update_run (f : Element -> Element) (l : list nat) (p : Page) :
  forEach l (fun r => update r f) p = (set_document (alter_all f l (document p)) p, inr tt).
Proof.
  revert p. induction l as [|r l IH]; intros p; cbn.
  - unfold ret. now rewrite set_document_same.
  - unfold bind, update, modify. cbn. rewrite IH. reflexivity.
Qed.

Lemma lookup_alter_if (f : Element -> Element) (i k : nat) (d : list Element) :
  alter f i d !! k = (if bool_decide (k = i) then f else id) <$> d !! k.
Proof.
  case_bool_decide as H.
  - subst. apply list_lookup_alter_eq.
  - rewrite list_lookup_alter_ne by congruence. now destruct (d !! k).
Qed.

Lemma lookup_alter_all (f : Element -> Element) (l : list nat) (k : nat) (d : list Element) :
  (forall e, f (f e) = f e) ->
  alter_all f l d !! k = (if bool_decide (k ∈ l) then f else id) <$> d !! k.
Proof.
  intros Hf. revert d. induction l as [|r l IH]; intros d; cbn.
  - rewrite bool_decide_false by apply not_elem_of_nil. now destruct (d !! k).
  - unfold alter_all in IH. rewrite IH, lookup_alter_if.
    destruct (d !! k) as [e|]; cbn; [|reflexivity]. f_equal.
    repeat case_bool_decide; cbn; try reflexivity; try apply Hf;
      rewrite elem_of_cons in *; tauto.
Qed.

Lemma has_class_remove (c a : string) (e : Element) :
  has_class c (classList_remove a e) = has_class c e && negb (bool_decide (c = a)).
Proof.
  unfold has_class, classList_remove. cbn.
  apply eq_true_iff_eq.
  rewrite andb_true_iff, negb_true_iff, !bool_decide_eq_true, bool_decide_eq_false.
  rewrite list_elem_of_filter. tauto.
Qed.

Lemma has_class_add (c a : string) (e : Element) :
  has_class c (classList_add a e) = has_class c e || bool_decide (c = a).
Proof.
  unfold classList_add. destruct (has_class a e) eqn:Ha.
  - case_bool_decide; subst; [now rewrite Ha | now rewrite orb_false_r].
  - unfold has_class in *. cbn. apply eq_true_iff_eq.
    rewrite orb_true_iff, !bool_decide_eq_true, elem_of_app, list_elem_of_singleton.
    tauto.
Qed.

Lemma remove_idempotent (a : string) (e : Element) :
  classList_remove a (classList_remove a e) = classList_remove a e.
Proof.
  unfold classList_remove, set_classList. cbn. f_equal.
  induction (classList e) as [|x l IH]; [reflexivity|].
  rewrite (filter_cons _ x l). case_decide as Hx.
  - rewrite filter_cons. rewrite decide_True by exact Hx. now rewrite IH.
  - exact IH.
Qed.

Lemma positions_alter (h : Element -> bool) (f : Element -> Element) (k i : nat)
    (d : list Element) :
  (forall e, h (f e) = h e) -> positions h i (alter f k d) = positions h i d.
Proof.
  intros Hf. revert k i. induction d as [|e d IH]; intros k i; [reflexivity|].
  destruct k as [|k]; cbn.
  - now rewrite Hf.
  - now rewrite IH.
Qed.

Lemma positions_alter_all (h : Element -> bool) (f : Element -> Element) (l : list nat)
    (i : nat) (d : list Element) :
  (forall e, h (f e) = h e) -> positions h i (alter_all f l d) = positions h i d.
Proof.
  intros Hf. revert d. induction l as [|r l IH]; intros d; cbn; [reflexivity|].
  unfold alter_all in IH. now rewrite IH, positions_alter.
Qed.

Lemma in_positions_0 (h : Element -> bool) (d : list Element) (k : nat) :
  k ∈ positions h 0 d <-> exists e, d !! k = Some e /\ h e = true.
Proof.
  rewrite elem_of_positions. rewrite Nat.sub_0_r.
  split; [intros (e & _ & H); eauto | intros (e & H); exists e; split; [lia | exact H]].
Qed.


Lemma switched_lookup (d : list Element) (b t k : nat) (e : Element) :
  switched d b t !! k = Some e ->
  exists e0, d !! k = Some e0 /\
    (forall c, c <> "active" -> has_class c e = has_class c e0) /\
    has_class "active" e =
      bool_decide (k = t) || bool_decide (k = b) ||
      (has_class "active" e0 && negb (has_class "tab-btn" e0) && negb (has_class "tab-content" e0)).
Proof.
  unfold switched. rewrite !lookup_alter_if, !lookup_alter_all by apply remove_idempotent.
  destruct (d !! k) as [e0|] eqn:Hk; cbn; [|discriminate].
  intros He. inversion He; subst e; clear He. exists e0. split; [reflexivity|].
  assert (Hb : bool_decide (k ∈ positions (has_class "tab-btn") 0 d) = has_class "tab-btn" e0).
  { apply eq_true_iff_eq. rewrite bool_decide_eq_true, in_positions_0. rewrite Hk.
    split; [intros (e & He & Hh); congruence | eauto]. }
  assert (Hc : bool_decide (k ∈ positions (has_class "tab-content") 0 d)
               = has_class "tab-content" e0).
  { apply eq_true_iff_eq. rewrite bool_decide_eq_true, in_positions_0. rewrite Hk.
    split; [intros (e & He & Hh); congruence | eauto]. }
  rewrite Hb, Hc. split.
  - intros c Hne.
    destruct (bool_decide (k = t)), (bool_decide (k = b)),
      (has_class "tab-btn" e0), (has_class "tab-content" e0); cbn;
      unfold activate, deactivate;
      rewrite ?has_class_add, ?has_class_remove, ?(bool_decide_false (c = "active")) by exact Hne;
      cbn; rewrite ?orb_false_r, ?andb_true_r; reflexivity.
  - destruct (bool_decide (k = t)), (bool_decide (k = b)),
      (has_class "tab-btn" e0), (has_class "tab-content" e0); cbn;
      unfold activate, deactivate;
      rewrite ?has_class_add, ?has_class_remove, ?(bool_decide_true ("active" = "active")) by reflexivity;
      cbn; rewrite ?orb_true_r, ?andb_false_r, ?andb_true_r, ?orb_false_r; reflexivity.
Qed.

Lemma alter_all_length (f : Element -> Element) (l : list nat) (d : list Element) :
  length (alter_all f l d) = length d.
Proof.
  revert d. induction l as [|r l IH]; intros d; cbn; [reflexivity|].
  unfold alter_all in IH. now rewrite IH, length_alter.
Qed.

Lemma switched_length (d : list Element) (b t : nat) :
  length (switched d b t) = length d.
Proof. unfold switched. now rewrite !length_alter, !alter_all_length. Qed.

Lemma switched_defined (d : list Element) (b t k : nat) (e0 : Element) :
  d !! k = Some e0 -> exists e, switched d b t !! k = Some e.
Proof.
  intros Hk. apply lookup_lt_Some in Hk.
  apply lookup_lt_is_Some. now rewrite switched_length.
Qed.

Lemma switched_active (d : list Element) (b t : nat) (eb et : Element) :
  d !! b = Some eb -> has_class "tab-btn" eb = true -> has_class "tab-content" eb = false ->
  d !! t = Some et -> has_class "tab-content" et = true -> has_class "tab-btn" et = false ->
  active_with "tab-btn" (switched d b t) = [b] /\
  active_with "tab-content" (switched d b t) = [t].
Proof.
  intros Hb Hbb Hbc Ht Htc Htb. unfold active_with. split.
  - apply (positions_single _ _ 0 b).
    + destruct (switched_defined d b t b eb Hb) as [e He]. exists e. split; [exact He|].
      destruct (switched_lookup _ _ _ _ _ He) as (e0 & H0 & Hcls & Hact).
      rewrite Hb in H0. inversion H0; subst e0.
      rewrite Hcls by discriminate. rewrite Hact, Hbb.
      rewrite (bool_decide_true (b = b)) by reflexivity. now rewrite orb_true_r.
    + intros k e He Hh.
      destruct (switched_lookup _ _ _ _ _ He) as (e0 & H0 & Hcls & Hact).
      rewrite Hcls, Hact in Hh by discriminate.
      apply andb_true_iff in Hh as [Hbtn Hh]. rewrite Hbtn in Hh. cbn in Hh.
      rewrite andb_false_r, orb_false_r in Hh.
      apply orb_true_iff in Hh as [Hk|Hk]; apply bool_decide_eq_true in Hk; [|exact Hk].
      subst k. congruence.
  - apply (positions_single _ _ 0 t).
    + destruct (switched_defined d b t t et Ht) as [e He]. exists e. split; [exact He|].
      destruct (switched_lookup _ _ _ _ _ He) as (e0 & H0 & Hcls & Hact).
      rewrite Ht in H0. inversion H0; subst e0.
      rewrite Hcls by discriminate. rewrite Hact, Htc.
      now rewrite (bool_decide_true (t = t)) by reflexivity.
    + intros k e He Hh.
      destruct (switched_lookup _ _ _ _ _ He) as (e0 & H0 & Hcls & Hact).
      rewrite Hcls, Hact in Hh by discriminate.
      apply andb_true_iff in Hh as [Hcont Hh]. rewrite Hcont in Hh. cbn in Hh.
      rewrite andb_false_r, orb_false_r in Hh.
      apply orb_true_iff in Hh as [Hk|Hk]; apply bool_decide_eq_true in Hk; [exact Hk|].
      subst k. congruence.
Qed.

Lemma activate_keeps_id (i : string) (e : Element) :
  bool_decide (elem_id (activate e) = i) = bool_decide (elem_id e = i).
Proof. unfold activate, classList_add. now destruct (has_class "active" e). Qed.

Lemma deactivate_keeps_id (i : string) (e : Element) :
  bool_decide (elem_id (deactivate e) = i) = bool_decide (elem_id e = i).
Proof. reflexivity. Qed.

Lemma lookup_id_nonempty (i : string) (d : list Element) :
  i <> "" -> lookup_id i d = head (positions (fun e => bool_decide (elem_id e = i)) 0 d).
Proof. intros Hi. unfold lookup_id. now rewrite bool_decide_false by exact Hi. Qed.

Lemma switchTab_text_run (p : Page) (bT bI pT pI : nat) :
  two_tab_page (document p) bT bI pT pI ->
  Main.switchTab (VStr "text") p = (set_document (switched (document p) bT pT) p, inr tt).
Proof.
  intros ((more & Hbtns) & HpT & HpI & _).
  unfold Main.switchTab, querySelectorAll_class, getElementById, bind, gets.
  rewrite forEach_update_run. cbn [fst snd].
  rewrite forEach_update_run. cbn -[positions alter_all lookup_id].
  rewrite Hbtns. cbn -[positions alter_all lookup_id].
  rewrite bool_decide_true by reflexivity.
  rewrite lookup_id_nonempty by discriminate.
  rewrite positions_alter by apply activate_keeps_id.
  cbn [document set_document].
  rewrite !positions_alter_all by apply deactivate_keeps_id.
  rewrite HpT. cbn -[positions alter_all].
  unfold switched. rewrite Hbtns. reflexivity.
Qed.

Lemma switchTab_image_run (p : Page) (bT bI pT pI : nat) :
  two_tab_page (document p) bT bI pT pI ->
  Main.switchTab (VStr "image") p = (set_document (switched (document p) bI pI) p, inr tt).
Proof.
  intros ((more & Hbtns) & HpT & HpI & _).
  unfold Main.switchTab, querySelectorAll_class, getElementById, bind, gets.
  rewrite forEach_update_run. cbn [fst snd].
  rewrite forEach_update_run. cbn -[positions alter_all lookup_id].
  rewrite Hbtns. cbn -[positions alter_all lookup_id].
  rewrite bool_decide_false by discriminate.
  rewrite lookup_id_nonempty by discriminate.
  rewrite positions_alter by apply activate_keeps_id.
  cbn [document set_document].
  rewrite !positions_alter_all by apply deactivate_keeps_id.
  rewrite HpI. cbn -[positions alter_all].
  unfold switched. rewrite Hbtns. reflexivity.
Qed.

Lemma head_elem_of (l : list nat) (x : nat) : head l = Some x -> x ∈ l.
Proof. destruct l as [|y l]; cbn; intros H; inversion H. apply elem_of_cons. auto. Qed.

Lemma two_tab_page_elements (d : list Element) (bT bI pT pI : nat) :
  two_tab_page d bT bI pT pI ->
  (exists e, d !! bT = Some e /\ has_class "tab-btn" e = true /\ has_class "tab-content" e = false) /\
  (exists e, d !! bI = Some e /\ has_class "tab-btn" e = true /\ has_class "tab-content" e = false) /\
  (exists e, d !! pT = Some e /\ has_class "tab-content" e = true /\ has_class "tab-btn" e = false) /\
  (exists e, d !! pI = Some e /\ has_class "tab-content" e = true /\ has_class "tab-btn" e = false).
Proof.
  intros ((more & Hbtns) & HpT & HpI & Hpanels & Hbuttons).
  assert (HbT : bT ∈ positions (has_class "tab-btn") 0 d) by (rewrite Hbtns; apply elem_of_cons; auto).
  assert (HbI : bI ∈ positions (has_class "tab-btn") 0 d)
    by (rewrite Hbtns; apply elem_of_cons; right; apply elem_of_cons; auto).
  apply in_positions_0 in HbT as (eT & HeT & HhT).
  apply in_positions_0 in HbI as (eI & HeI & HhI).
  assert (HinT : pT ∈ positions (fun e => bool_decide (elem_id e = "text-tab")) 0 d).
  { now apply head_elem_of. }
  assert (HinI : pI ∈ positions (fun e => bool_decide (elem_id e = "image-tab")) 0 d).
  { now apply head_elem_of. }
  apply in_positions_0 in HinT as (e1 & He1 & _).
  apply in_positions_0 in HinI as (e2 & He2 & _).
  repeat split.
  - exists eT. repeat split; auto. apply (Hbuttons bT); auto.
  - exists eI. repeat split; auto. apply (Hbuttons bI); auto.
  - exists e1. destruct (Hpanels pT e1) as [? ?]; auto.
  - exists e2. destruct (Hpanels pI e2) as [? ?]; auto.
Qed.

(** C8: on a page with the two tabs, [switchTab] with either identifier
    completes and leaves exactly one [.tab-btn] and exactly one
    [.tab-content] element with the class [active], the button and the
    panel of that tab, whatever carried [active] before. *)
Theorem switchTab_one_active (p : Page) (btnText btnImage panelText panelImage : nat) :
  two_tab_page (document p) btnText btnImage panelText panelImage ->
  (result (Main.switchTab (VStr "text")) p = inr tt /\
   active_with "tab-btn" (document (run (Main.switchTab (VStr "text")) p)) = [btnText] /\
   active_with "tab-content" (document (run (Main.switchTab (VStr "text")) p)) = [panelText]) /\
  (result (Main.switchTab (VStr "image")) p = inr tt /\
   active_with "tab-btn" (document (run (Main.switchTab (VStr "image")) p)) = [btnImage] /\
   active_with "tab-content" (document (run (Main.switchTab (VStr "image")) p)) = [panelImage]).
Proof.
  intros Hpage.
  destruct (two_tab_page_elements _ _ _ _ _ Hpage)
    as ((eT & HeT & HT1 & HT2) & (eI & HeI & HI1 & HI2)
        & (e1 & He1 & H11 & H12) & (e2 & He2 & H21 & H22)).
  unfold result, run.
  rewrite (switchTab_text_run _ _ _ _ _ Hpage), (switchTab_image_run _ _ _ _ _ Hpage).
  cbn [fst snd document set_document].
  split; (split; [reflexivity|]).
  - exact (switched_active _ _ _ _ _ HeT HT1 HT2 He1 H11 H12).
  - exact (switched_active _ _ _ _ _ HeI HI1 HI2 He2 H21 H22).
Qed.

Lemma two_tabs_is_two_tab_page : two_tab_page two_tabs 0 1 2 3.
Proof.
  unfold two_tab_page. split; [exists []; reflexivity|].
  split; [reflexivity|]. split; [reflexivity|]. split.
  - intros k e [-> | ->] He; cbn in He; inversion He; subst e; split; reflexivity.
  - intros k e [-> | ->] He; cbn in He; inversion He; subst e; reflexivity.
Qed.

Lemma switchTab_one_active_witness :
  two_tab_page (document (served healthy)) 0 1 2 3 /\
  active_with "tab-btn" (document (run (Main.switchTab (VStr "image")) (served healthy))) = [1] /\
  active_with "tab-content" (document (run (Main.switchTab (VStr "image")) (served healthy))) = [3].
Proof.
  split; [exact two_tabs_is_two_tab_page|].
  destruct (switchTab_one_active (served healthy) 0 1 2 3 two_tabs_is_two_tab_page)
    as (_ & _ & Hb & Hc).
  split; [exact Hb | exact Hc].
Defined.

End TabFacts.

(** ** The controller: object URLs and the selected image *)
Module MainFacts.
Import JS Host DOM Spec.

Lemma quiet_refl p : quiet p p.
Proof. split; [repeat split | exists []; now rewrite app_nil_r]. Qed.

Lemma quiet_trans p q r : quiet p q -> quiet q r -> quiet p r.
Proof.
  unfold quiet, same_urls. intros ((?&?&?) & l1 & Hl1) ((?&?&?) & l2 & Hl2).
  split; [repeat split; congruence|].
  exists (l1 ++ l2)%list. now rewrite Hl2, Hl1, app_assoc.
Qed.

Lemma quiet_log p l : quiet p (set_events (events p ++ l) p).
Proof. split; [repeat split | now exists l]. Qed.

Lemma quiet_document p d : quiet p (set_document d p).
Proof. split; [repeat split | exists []; now rewrite app_nil_r]. Qed.

Create HintDb frames.

Lemma frames_ret {A} (a : A) : frames (ret a).
Proof. intros p. apply quiet_refl. Qed.

Lemma frames_throw {A} (e : exn) : frames (@throw A e).
Proof. intros p. apply quiet_refl. Qed.

Lemma frames_lift {A} (r : exn + A) : frames (lift r).
Proof. intros p. apply quiet_refl. Qed.

Lemma frames_gets {A} (f : Page -> A) : frames (gets f).
Proof. intros p. apply quiet_refl. Qed.

Lemma frames_bind {A B} (m : M A) (k : A -> M B) :
  frames m -> (forall a, frames (k a)) -> frames (bind m k).
Proof.
  intros Hm Hk p. specialize (Hm p). unfold run, bind in *.
  destruct (m p) as [p' [e|a]]; cbn in *; [exact Hm|].
  eapply quiet_trans; [exact Hm | apply Hk].
Qed.

Lemma frames_try_catch {A} (m : M A) (h : exn -> M A) :
  frames m -> (forall e, frames (h e)) -> frames (try_catch m h).
Proof.
  intros Hm Hh p. specialize (Hm p). unfold run, try_catch in *.
  destruct (m p) as [p' [e|a]]; cbn in *; [|exact Hm].
  eapply quiet_trans; [exact Hm | apply Hh].
Qed.

Lemma frames_log (e : Event) : frames (log e).
Proof. intros p. apply quiet_log. Qed.

Lemma frames_alert (msg : string) : frames (alert msg).
Proof. apply frames_log. Qed.

Lemma frames_console_error (label : string) (e : option exn) : frames (console_error label e).
Proof. apply frames_log. Qed.

Lemma frames_update (r : nat) (f : Element -> Element) : frames (update r f).
Proof. intros p. apply quiet_document. Qed.

Lemma frames_read {A} (r : nat) (f : Element -> A) : frames (read r f).
Proof. intros p. unfold run, read. destruct (document p !! r); apply quiet_refl. Qed.

Lemma frames_non_null (o : option nat) : frames (non_null o).
Proof. destruct o; intros p; apply quiet_refl. Qed.

Lemma frames_getElementById (i : string) : frames (getElementById i).
Proof. apply frames_gets. Qed.

Lemma frames_querySelectorAll (c : string) : frames (querySelectorAll_class c).
Proof. apply frames_gets. Qed.

Lemma frames_when_present (o : option nat) (f : nat -> M unit) :
  (forall r, frames (f r)) -> frames (when_present o f).
Proof. intros Hf. destruct o; [apply Hf | apply frames_ret]. Qed.

Lemma frames_forEach (l : list nat) (f : nat -> M unit) :
  (forall r, frames (f r)) -> frames (forEach l f).
Proof.
  intros Hf. induction l as [|r l IH]; cbn; [apply frames_ret|].
  apply frames_bind; [apply Hf | intros _; exact IH].
Qed.

Lemma frames_fetch (req : Request) : frames (fetch req).
Proof. intros p. apply quiet_log. Qed.

Lemma frames_set_selectedImage (v : option File) : frames (modify (set_selectedImage v)).
Proof. intros p. split; [repeat split | exists []; now rewrite app_nil_r]. Qed.

#[local] Hint Resolve frames_ret frames_throw frames_lift frames_gets frames_bind
  frames_try_catch frames_log frames_alert frames_console_error frames_update frames_read frames_non_null
  frames_getElementById frames_querySelectorAll frames_when_present frames_forEach
  frames_fetch frames_set_selectedImage : frames.

Ltac frame := repeat (intros; first
  [ solve [auto with frames]
  | apply frames_bind | apply frames_try_catch | apply frames_when_present
  | apply frames_forEach
  | match goal with
    | |- frames (if ?b then _ else _) => destruct b
    | |- frames (match ?x with _ => _ end) => destruct x
    end ]).

Lemma frames_showLoading t : frames (UI.showLoading t).
Proof. unfold UI.showLoading. frame. Qed.

Lemma frames_hideLoading : frames UI.hideLoading.
Proof. unfold UI.hideLoading. frame. Qed.

Lemma frames_showStatus a b c : frames (UI.showStatus a b c).
Proof. unfold UI.showStatus. frame. Qed.

Lemma frames_hideStatus a : frames (UI.hideStatus a).
Proof. unfold UI.hideStatus. frame. Qed.

Lemma frames_showError a : frames (UI.showError a).
Proof. unfold UI.showError, alert, console_error. frame. Qed.

#[local] Hint Resolve frames_showLoading frames_hideLoading frames_showStatus
  frames_hideStatus frames_showError : frames.

Lemma frames_catch e : frames (Main.handleTextToSpeech_catch e).
Proof. unfold Main.handleTextToSpeech_catch, console_error. frame. Qed.

Lemma frames_handleImageSelect f : frames (Main.handleImageSelect f).
Proof. unfold Main.handleImageSelect. frame. Qed.

Lemma frames_switchTab tab : frames (Main.switchTab tab).
Proof. unfold Main.switchTab, Main.item. frame. Qed.

Lemma frames_json (r : Response) : frames (json r).
Proof. unfold json. destruct (parsed r); auto with frames. Qed.

Lemma frames_blob (r : Response) : frames (blob r).
Proof. unfold blob. auto with frames. Qed.

#[local] Hint Resolve frames_json frames_blob : frames.

Lemma frames_is_blank v : frames (API.is_blank v).
Proof. unfold API.is_blank. frame. Qed.

Lemma frames_throw_response_error {A} what r : frames (@API.throw_response_error A what r).
Proof. unfold API.throw_response_error. frame. Qed.

#[local] Hint Resolve frames_is_blank frames_throw_response_error : frames.

Lemma frames_healthCheck : frames API.healthCheck.
Proof. unfold API.healthCheck. frame. Qed.

Lemma frames_queryText q k : frames (API.queryText q k).
Proof. unfold API.queryText. frame. Qed.

Lemma frames_extractOCR f : frames (API.extractOCR f).
Proof. unfold API.extractOCR. frame. Qed.

Lemma frames_imageQuery f q k : frames (API.imageQuery f q k).
Proof. unfold API.imageQuery. frame. Qed.

Lemma frames_textToSpeech t : frames (API.textToSpeech t).
Proof. unfold API.textToSpeech. frame. Qed.

#[local] Hint Resolve frames_healthCheck frames_textToSpeech : frames.

Lemma frames_checkConnection : frames API.checkConnection.
Proof. unfold API.checkConnection. frame. Qed.

Lemma frames_call c p : quiet p (page_after c p).
Proof.
  destruct c; cbn.
  - apply frames_healthCheck.
  - apply frames_queryText.
  - apply frames_extractOCR.
  - apply frames_imageQuery.
  - apply frames_textToSpeech.
  - apply frames_checkConnection.
  - apply quiet_refl.
Qed.

Lemma run_bind {A B} (m : M A) (k : A -> M B) (p : Page) :
  run (bind m k) p =
  match m p with
  | (p', inr a) => run (k a) p'
  | (p', inl _) => p'
  end.
Proof. unfold run, bind. now destruct (m p) as [p' [e|a]]. Qed.

Lemma then_run (b : Blob) (p : Page) :
  quiet (replaced b p) (run (Main.handleTextToSpeech_then b) p).
Proof.
  unfold Main.handleTextToSpeech_then.
  rewrite run_bind. unfold gets at 1. rewrite run_bind.
  assert (Hrest : forall u, frames (
     audioPlayer <- getElementById "audio-player";;
     audioPlayer <- non_null audioPlayer;;
     update audioPlayer (set_src (Some (ObjectURL u)));;;
     update audioPlayer (classList_remove "hidden");;;
     log (EPlay audioPlayer);;;
     UI.hideLoading)) by (intros u; frame).
  unfold replaced.
  destruct (currentAudioUrl p) as [u|] eqn:Hcur.
  - unfold revokeObjectURL at 1. rewrite run_bind. unfold createObjectURL at 1.
    rewrite run_bind. unfold modify at 1. apply Hrest.
  - unfold ret at 1. rewrite run_bind. unfold createObjectURL at 1.
    rewrite run_bind. unfold modify at 1. apply Hrest.
Qed.

Lemma triple_bind {A B} (P : Page -> Prop) (R : A -> Page -> Prop)
    (Q : exn + B -> Page -> Prop) (m : M A) (k : A -> M B) :
  triple P m (fun r p => match r with inr a => R a p | inl e => Q (inl e) p end) ->
  (forall a, triple (R a) (k a) Q) ->
  triple P (bind m k) Q.
Proof.
  intros Hm Hk p Hp. specialize (Hm p Hp). unfold result, run, bind in *.
  destruct (m p) as [p' [e|a]]; cbn in *; [exact Hm|]. exact (Hk a p' Hm).
Qed.

(** A framed computation keeps whatever [quiet] keeps. *)
Lemma triple_frames {A} (p0 : Page) (m : M A) :
  frames m -> triple (quiet p0) m (fun _ p => quiet p0 p).
Proof. intros Hm p Hp. eapply quiet_trans; [exact Hp | apply Hm]. Qed.

Lemma triple_frames_then {A B} (p0 : Page) (Q : exn + B -> Page -> Prop)
    (m : M A) (k : A -> M B) :
  frames m -> (forall e p, quiet p0 p -> Q (inl e) p) ->
  (forall a, triple (quiet p0) (k a) Q) ->
  triple (quiet p0) (bind m k) Q.
Proof.
  intros Hm Hexn Hk. apply (triple_bind _ (fun _ => quiet p0)); [|exact Hk].
  intros p Hp. pose proof (triple_frames p0 m Hm p Hp) as H.
  destruct (result m p); [apply Hexn|]; exact H.
Qed.

Lemma url_inv_quiet p p' : quiet p p' -> url_inv p -> url_inv p'.
Proof.
  unfold url_inv, live. intros ((Hu & Hn & Hc) & _) (H1 & H2).
  rewrite Hu, Hn, Hc. auto.
Qed.

Ltac through :=
  intros; apply triple_frames_then; [solve [frame] | solve [auto] | ].

Lemma clearTextResults_run (p0 : Page) :
  triple (quiet p0) Main.clearTextResults
    (fun r p => match r with
                | inl _ => quiet p0 p
                | inr _ => exists pm, quiet p0 pm /\ p = cleared pm
                end).
Proof.
  unfold Main.clearTextResults. do 10 through.
  intros _ p Hp. unfold result, run, cleared, bind, gets. cbn.
  destruct (currentAudioUrl p) eqn:Hcur; cbn; exists p; rewrite Hcur; auto.
Qed.

Lemma downloadResult_run (p0 : Page) :
  triple (quiet p0) Main.downloadResult
    (fun r p => match r with
                | inl _ => quiet p0 p
                | inr _ => exists pm b, quiet p0 pm /\ p = downloaded b pm
                end).
Proof.
  unfold Main.downloadResult. do 5 through.
  intros p Hp. cbv zeta. unfold result, run, downloaded. cbn. eauto.
Qed.

Lemma beforeunload_run (p : Page) : run Main.beforeunload p = unloaded p.
Proof.
  unfold Main.beforeunload, unloaded, run, bind, gets. cbn.
  now destruct (currentAudioUrl p).
Qed.

Lemma live_subset_current (p : Page) (u : nat) :
  url_inv p -> currentAudioUrl p = Some u -> live p ∖ {[u]} = ∅.
Proof.
  intros (H1 & _) Hc. apply set_eq. intros x. rewrite elem_of_difference, elem_of_singleton.
  split; [|intros Hx; now apply not_elem_of_empty in Hx].
  intros (Hx & Hne). apply H1 in Hx. congruence.
Qed.

Lemma live_none (p : Page) : url_inv p -> currentAudioUrl p = None -> live p = ∅.
Proof.
  intros (H1 & _) Hc. apply set_eq. intros x.
  split; [|intros Hx; now apply not_elem_of_empty in Hx].
  intros Hx. apply H1 in Hx. congruence.
Qed.

Lemma replaced_facts (b : Blob) (p : Page) :
  url_inv p ->
  currentAudioUrl (replaced b p) = Some (nextObjectURL p) /\
  nextObjectURL (replaced b p) = S (nextObjectURL p) /\
  live (replaced b p) = {[nextObjectURL p]} /\
  objectURLs (replaced b p) !! nextObjectURL p = Some b /\
  currentAudioUrl p <> Some (nextObjectURL p) /\
  events (replaced b p) =
    (events p ++ revocation (currentAudioUrl p) ++ [ECreateObjectURL (nextObjectURL p)])%list.
Proof.
  intros Hinv. unfold replaced, live.
  destruct (currentAudioUrl p) as [u|] eqn:Hcur; cbn.
  - repeat split.
    + rewrite dom_insert_L, dom_delete_L.
      pose proof (live_subset_current p u Hinv Hcur) as H. unfold live in H. rewrite H.
      apply union_empty_r_L.
    + apply lookup_insert_eq.
    + intros Heq. inversion Heq; subst u. destruct Hinv as (_ & H2).
      specialize (H2 _ Hcur). lia.
    + now rewrite <- app_assoc.
  - repeat split.
    + rewrite dom_insert_L.
      pose proof (live_none p Hinv Hcur) as H. unfold live in H. rewrite H.
      apply union_empty_r_L.
    + apply lookup_insert_eq.
    + discriminate.
Qed.

Lemma url_inv_replaced (b : Blob) (p : Page) : url_inv p -> url_inv (replaced b p).
Proof.
  intros Hinv. destruct (replaced_facts b p Hinv) as (Hc & Hn & Hl & _).
  split.
  - intros u Hu. rewrite Hl in Hu. apply elem_of_singleton in Hu. now subst.
  - intros u Hu. rewrite Hc in Hu. inversion Hu. rewrite Hn. lia.
Qed.

Lemma cleared_facts (p : Page) :
  url_inv p -> live (cleared p) = ∅ /\ currentAudioUrl (cleared p) = None /\
  nextObjectURL (cleared p) = nextObjectURL p.
Proof.
  intros Hinv. unfold cleared, live.
  destruct (currentAudioUrl p) as [u|] eqn:Hcur; cbn.
  - repeat split. rewrite dom_delete_L. apply (live_subset_current p u Hinv Hcur).
  - repeat split; [apply (live_none p Hinv Hcur) | exact Hcur].
Qed.

Lemma url_inv_cleared (p : Page) : url_inv p -> url_inv (cleared p).
Proof.
  intros Hinv. destruct (cleared_facts p Hinv) as (Hl & Hc & _). split.
  - intros u Hu. rewrite Hl in Hu. set_solver.
  - intros u Hu. congruence.
Qed.

Lemma unloaded_facts (p : Page) :
  url_inv p -> live (unloaded p) = ∅ /\ currentAudioUrl (unloaded p) = currentAudioUrl p /\
  nextObjectURL (unloaded p) = nextObjectURL p.
Proof.
  intros Hinv. unfold unloaded, live.
  destruct (currentAudioUrl p) as [u|] eqn:Hcur; cbn.
  - repeat split; [|exact Hcur]. rewrite dom_delete_L. apply (live_subset_current p u Hinv Hcur).
  - repeat split; [apply (live_none p Hinv Hcur) | exact Hcur].
Qed.

Lemma url_inv_unloaded (p : Page) : url_inv p -> url_inv (unloaded p).
Proof.
  intros Hinv. destruct (unloaded_facts p Hinv) as (Hl & Hc & Hn). split.
  - intros u Hu. rewrite Hl in Hu. set_solver.
  - intros u Hu. rewrite Hc in Hu. rewrite Hn. now apply Hinv.
Qed.

Lemma downloaded_same_urls (b : Blob) (p : Page) :
  url_inv p ->
  objectURLs (downloaded b p) = objectURLs p /\
  currentAudioUrl (downloaded b p) = currentAudioUrl p /\
  nextObjectURL (downloaded b p) = S (nextObjectURL p).
Proof.
  intros (H1 & H2). unfold downloaded. cbn. repeat split.
  rewrite delete_insert_eq. apply delete_id.
  apply not_elem_of_dom. intros Hin. apply H1 in Hin. apply H2 in Hin. lia.
Qed.

Lemma url_inv_downloaded (b : Blob) (p : Page) : url_inv p -> url_inv (downloaded b p).
Proof.
  intros Hinv. destruct (downloaded_same_urls b p Hinv) as (Hu & Hc & Hn).
  destruct Hinv as (H1 & H2). split; unfold live.
  - rewrite Hu, Hc. exact H1.
  - rewrite Hc, Hn. intros u Hcu. apply H2 in Hcu. lia.
Qed.

Lemma handleTextToSpeech_run (p0 : Page) :
  triple (quiet p0) Main.handleTextToSpeech
    (fun _ p => quiet p0 p \/ exists pm b, quiet p0 pm /\ quiet (replaced b pm) p).
Proof.
  unfold Main.handleTextToSpeech. do 3 through.
  intros answerText. destruct (negb (truthy (VStr answerText))).
  { intros p Hp. now left. }
  through. intros _ p Hp. unfold result, run, try_catch, bind.
  pose proof (frames_textToSpeech (VStr answerText) p) as Htts. unfold run in Htts.
  destruct (API.textToSpeech (VStr answerText) p) as [p1 [e|b]]; cbn [fst snd] in *.
  - left. eapply quiet_trans; [exact Hp|]. eapply quiet_trans; [exact Htts|].
    apply frames_catch.
  - right. exists p1, b. split; [eapply quiet_trans; eauto|].
    pose proof (then_run b p1) as Hthen. unfold run in Hthen.
    destruct (Main.handleTextToSpeech_then b p1) as [p2 [e|[]]]; cbn [fst snd] in *;
      [|exact Hthen].
    eapply quiet_trans; [exact Hthen | apply frames_catch].
Qed.

Lemma url_inv_step (p p' : Page) : step p p' -> url_inv p -> url_inv p'.
Proof.
  intros Hstep Hinv. destruct Hstep.
  - destruct (handleTextToSpeech_run p p (quiet_refl p)) as [H | (pm & b & H1 & H2)].
    + exact (url_inv_quiet _ _ H Hinv).
    + eapply url_inv_quiet; [exact H2|]. apply url_inv_replaced.
      exact (url_inv_quiet _ _ H1 Hinv).
  - eapply url_inv_quiet; [apply then_run|]. now apply url_inv_replaced.
  - eapply url_inv_quiet; [apply frames_catch | exact Hinv].
  - pose proof (clearTextResults_run p p (quiet_refl p)) as H.
    destruct (result Main.clearTextResults p).
    + exact (url_inv_quiet _ _ H Hinv).
    + destruct H as (pm & Hq & ->). apply url_inv_cleared. exact (url_inv_quiet _ _ Hq Hinv).
  - pose proof (downloadResult_run p p (quiet_refl p)) as H.
    destruct (result Main.downloadResult p).
    + exact (url_inv_quiet _ _ H Hinv).
    + destruct H as (pm & b & Hq & ->). apply url_inv_downloaded.
      exact (url_inv_quiet _ _ Hq Hinv).
  - rewrite beforeunload_run. now apply url_inv_unloaded.
  - eapply url_inv_quiet; [apply frames_handleImageSelect | exact Hinv].
  - eapply url_inv_quiet; [apply frames_switchTab | exact Hinv].
  - eapply url_inv_quiet; [apply frames_call | exact Hinv].
  - destruct Hinv as (H1 & H2). destruct H as (Hu & Hn & Hc). unfold url_inv, live.
    rewrite Hu, Hn, Hc. auto.
Qed.

Lemma url_inv_reachable (p : Page) : reachable p -> url_inv p.
Proof.
  induction 1 as [p (Hu & Hc) | p p' _ IH Hstep].
  - split; unfold live.
    + rewrite Hu, dom_empty_L. intros u Hin. now apply not_elem_of_empty in Hin.
    + rewrite Hc. discriminate.
  - exact (url_inv_step p p' Hstep IH).
Qed.

(** *** The whole text-to-speech handler *)

Lemma calm_ret {A} (a : A) : calm (ret a).
Proof. intros p. exists (document p), a. unfold ret. now destruct p. Qed.

Lemma calm_gets {A} (f : Page -> A) : calm (gets f).
Proof. intros p. exists (document p), (f p). unfold gets. now destruct p. Qed.

Lemma calm_update (r : nat) (f : Element -> Element) : calm (update r f).
Proof. intros p. eexists _, tt. reflexivity. Qed.

Lemma calm_bind {A B} (m : M A) (k : A -> M B) :
  calm m -> (forall a, calm (k a)) -> calm (bind m k).
Proof.
  intros Hm Hk p. destruct (Hm p) as (d & a & Hd). unfold bind. rewrite Hd.
  destruct (Hk a (set_document d p)) as (d' & b & Hd'). rewrite Hd'.
  exists d', b. reflexivity.
Qed.

Lemma calm_when_present (o : option nat) (f : nat -> M unit) :
  (forall r, calm (f r)) -> calm (when_present o f).
Proof. intros Hf. destruct o; [apply Hf | apply calm_ret]. Qed.

Ltac calm_tac := repeat (intros; first
  [ apply calm_ret | apply calm_gets | apply calm_update
  | apply calm_bind | apply calm_when_present ]).

Lemma calm_showLoading t : calm (UI.showLoading t).
Proof. unfold UI.showLoading, getElementById. calm_tac. Qed.

Lemma calm_hideLoading : calm UI.hideLoading.
Proof. unfold UI.hideLoading, getElementById. calm_tac. Qed.

Lemma calm_showStatus a b c : calm (UI.showStatus a b c).
Proof. unfold UI.showStatus, getElementById. calm_tac. Qed.

Lemma calm_hideStatus a : calm (UI.hideStatus a).
Proof. unfold UI.hideStatus, getElementById. calm_tac. Qed.

Lemma catch_keeps_requests (e : exn) (p : Page) :
  fetches (events (run (Main.handleTextToSpeech_catch e) p)) = fetches (events p).
Proof.
  unfold Main.handleTextToSpeech_catch, run, bind.
  destruct (calm_hideLoading p) as (d1 & [] & ->).
  destruct (calm_showStatus "voice-status" "Audio generation failed" "error"
              (set_document d1 p)) as (d2 & [] & ->).
  cbn. unfold fetches. rewrite omap_app. cbn. apply app_nil_r.
Qed.

Lemma textToSpeech_blank (t : string) (p : Page) :
  trim t = "" ->
  fetches (events (run (API.textToSpeech (VStr t)) p)) = fetches (events p) /\
  exists e, result (API.textToSpeech (VStr t)) p = inl e.
Proof.
  intros Ht. unfold API.textToSpeech, API.is_blank, run, result, try_catch, bind,
    ret, throw, lift, console_error, log, modify.
  destruct t as [|c t]; cbn.
  - split; [|eauto]. unfold fetches. rewrite omap_app. cbn. apply app_nil_r.
  - rewrite bool_decide_true by exact Ht. cbn.
    split; [|eauto]. unfold fetches. rewrite omap_app. cbn. apply app_nil_r.
Qed.

Lemma textToSpeech_success (t : string) (p : Page) (r : Response) :
  trim t <> "" -> answers_with p r -> ok r = true ->
  exists req,
    API.textToSpeech (VStr t) p = (set_events (events p ++ [EFetch req]) p, inr (blob_of r)).
Proof.
  intros Ht Hnet Hok.
  assert (Htr : truthy (VStr t) = true) by (destruct t; [contradiction | reflexivity]).
  unfold API.textToSpeech, API.is_blank, try_catch, bind, ret, throw, lift, gets, fetch, blob.
  rewrite Htr. cbn [negb]. cbn -[JSON_stringify trim].
  rewrite bool_decide_false by exact Ht.
  eexists. rewrite Hnet. rewrite Hok. cbn [negb]. reflexivity.
Qed.

Lemma handleTextToSpeech_cases (p : Page) (r : Response) :
  answers_with p r -> ok r = true ->
  fetches (events (run Main.handleTextToSpeech p)) = fetches (events p) \/
  exists q, quiet p q /\ quiet (replaced (blob_of r) q) (run Main.handleTextToSpeech p).
Proof.
  intros Hnet Hok.
  unfold run, Main.handleTextToSpeech, getElementById, bind, gets, try_catch.
  destruct (lookup_id _ _) as [el|]; unfold non_null, ret, throw; [|now left].
  unfold read. destruct (document p !! el) as [e|]; [|now left].
  destruct (truthy (VStr (textContent e))) eqn:Htr; cbn [negb]; [|now left].
  destruct (calm_showLoading "Generating audio..." p) as (d & [] & ->).
  destruct (decide (trim (textContent e) = "")) as [Hblank|Hfull].
  - left.
    destruct (textToSpeech_blank (textContent e) (set_document d p) Hblank) as (Hf & err & Herr).
    unfold run, result in Hf, Herr.
    destruct (API.textToSpeech (VStr (textContent e)) (set_document d p)) as [q [x|x]];
      cbn [fst snd] in *; [|discriminate].
    pose proof (catch_keeps_requests x q) as Hc. unfold run in Hc. now rewrite Hc, Hf.
  - right.
    destruct (textToSpeech_success (textContent e) (set_document d p) r Hfull Hnet Hok)
      as (req & ->).
    exists (set_events (events (set_document d p) ++ [EFetch req]) (set_document d p)).
    split; [split; [repeat split | exists [EFetch req]; reflexivity]|].
    match goal with
    | |- quiet (replaced ?b ?q) _ =>
        pose proof (then_run b q) as Hthen; unfold run in Hthen;
        destruct (Main.handleTextToSpeech_then b q) as [p2 [x|[]]]; cbn [fst snd] in *;
          [|exact Hthen]
    end.
    eapply quiet_trans; [exact Hthen | apply frames_catch].
Qed.

Lemma handleTextToSpeech_success (p : Page) (r : Response) :
  url_inv p -> answers_with p r -> ok r = true -> tts_requests p <> [] ->
  exists u,
    currentAudioUrl (run Main.handleTextToSpeech p) = Some u /\
    live (run Main.handleTextToSpeech p) = {[u]} /\
    objectURLs (run Main.handleTextToSpeech p) !! u = Some (blob_of r) /\
    currentAudioUrl p <> Some u.
Proof.
  intros Hinv Hnet Hok Hreq.
  destruct (handleTextToSpeech_cases p r Hnet Hok) as [Hsame | (q & Hq & Hend)].
  { exfalso. apply Hreq. unfold tts_requests. rewrite Hsame. apply drop_all. }
  pose proof (url_inv_quiet _ _ Hq Hinv) as Hinvq.
  destruct (replaced_facts (blob_of r) q Hinvq) as (Fc & _ & Fl & Fo & Fne & _).
  destruct Hend as ((Hu & _ & Hc) & _). destruct Hq as ((_ & Hn & Hcq) & _).
  exists (nextObjectURL q). unfold live in *. rewrite Hu, Hc.
  repeat split; auto. now rewrite <- Hcq.
Qed.

(** C7: [handleImageSelect] rejects a file of more than 16 MiB with an
    alert and changes nothing but the log, so [selectedImage] is what it
    was; a file of at most 16 MiB becomes [selectedImage]. *)
Theorem handleImageSelect_size_cap (p : Page) (file : File) :
  result (Main.handleImageSelect file) p = inr tt /\
  ((file_size file > 16 * 1024 * 1024)%Z ->
     selectedImage (run (Main.handleImageSelect file) p) = selectedImage p /\
     run (Main.handleImageSelect file) p =
       set_events (events p ++ [EAlert "Error: Image size must be less than 16MB";
                                EConsoleError "Image size must be less than 16MB" None]) p) /\
  ((file_size file <= 16 * 1024 * 1024)%Z ->
     selectedImage (run (Main.handleImageSelect file) p) = Some file).
Proof.
  unfold Main.handleImageSelect, Main.maxSize.
  destruct (Z.gtb_spec (file_size file) (16 * 1024 * 1024)) as [Hgt|Hle].
  - split; [reflexivity|]. split; [|lia]. intros _. split; [reflexivity|].
    unfold run, UI.showError, alert, console_error, log, bind, modify. cbn.
    now rewrite <- app_assoc.
  - split; [reflexivity|]. split; [lia|]. intros _. reflexivity.
Qed.

Lemma lookup_id_alter (i : string) (f : Element -> Element) (r : nat) (d : list Element) :
  (forall e, elem_id (f e) = elem_id e) -> lookup_id i (alter f r d) = lookup_id i d.
Proof.
  intros Hf. unfold lookup_id. rewrite TabFacts.positions_alter; [reflexivity|].
  intros e. now rewrite Hf.
Qed.

(** [clearTextResults] on a page that has its three elements. *)
Lemma clearTextResults_completes (p : Page) :
  lookup_id "query-input" (document p) <> None ->
  lookup_id "text-result" (document p) <> None ->
  lookup_id "audio-player" (document p) <> None ->
  exists d, Main.clearTextResults p = (cleared (set_document d p), inr tt).
Proof.
  intros H1 H2 H3.
  destruct (lookup_id "query-input" (document p)) as [r1|] eqn:E1; [|contradiction].
  destruct (lookup_id "text-result" (document p)) as [r2|] eqn:E2; [|contradiction].
  destruct (lookup_id "audio-player" (document p)) as [r3|] eqn:E3; [|contradiction].
  assert (Hadd : forall c e, elem_id (classList_add c e) = elem_id e)
    by (intros c e; unfold classList_add; now destruct (has_class c e)).
  unfold Main.clearTextResults, getElementById, bind, gets, update, modify, non_null, ret.
  cbn [fst snd document set_document].
  rewrite E1. cbn [fst snd document set_document].
  rewrite lookup_id_alter by reflexivity. rewrite E2. cbn [fst snd document set_document].
  rewrite lookup_id_alter by apply Hadd. rewrite lookup_id_alter by reflexivity.
  rewrite E3. cbn [fst snd document set_document].
  match goal with
  | |- context [UI.hideStatus ?a ?q] =>
      destruct (calm_hideStatus a q) as (d & [] & Hhide); rewrite Hhide
  end.
  exists d. cbn [fst snd currentAudioUrl set_document].
  unfold cleared. cbn [currentAudioUrl set_document].
  destruct (currentAudioUrl p); reflexivity.
Qed.

(** C5: however the handlers have run, at most one object URL is live,
    and it is the stored one.  When [handleTextToSpeech] resumes with the
    audio of a successful call it revokes the stored URL, if any, before it
    creates and stores the new one, which is then the only live URL; so
    after two such calls exactly one URL is live and the first is revoked.
    The whole handler either leaves the URLs alone or ends that way, and
    it ends that way, with the audio of the response behind the URL,
    whenever its request is answered with a 2xx response.
    [clearTextResults], when it completes, and the [beforeunload] listener
    leave no URL live.  [clearTextResults] completes on every page that
    has the three elements it empties and hides, and then its only entry
    in the log is the revocation of the stored URL, if there is one; the
    [beforeunload] listener always completes, with the same entry. *)
Theorem one_live_audio_url (p : Page) :
  reachable p ->
  (forall u, u ∈ live p -> currentAudioUrl p = Some u) /\
  (forall u v, u ∈ live p -> v ∈ live p -> u = v) /\
  (forall b,
     let p1 := run (Main.handleTextToSpeech_then b) p in
     exists u more,
       currentAudioUrl p1 = Some u /\ live p1 = {[u]} /\ objectURLs p1 !! u = Some b /\
       currentAudioUrl p <> Some u /\
       events p1 =
         (events p ++ revocation (currentAudioUrl p) ++ [ECreateObjectURL u] ++ more)%list) /\
  (forall b1 b2,
     let p1 := run (Main.handleTextToSpeech_then b1) p in
     let p2 := run (Main.handleTextToSpeech_then b2) p1 in
     exists u1 u2,
       currentAudioUrl p1 = Some u1 /\ currentAudioUrl p2 = Some u2 /\ u1 <> u2 /\
       live p2 = {[u2]}) /\
  (let p1 := run Main.handleTextToSpeech p in
   same_urls p p1 \/
   exists u, currentAudioUrl p1 = Some u /\ live p1 = {[u]} /\ currentAudioUrl p <> Some u) /\
  (forall r,
     answers_with p r -> ok r = true -> tts_requests p <> [] ->
     let p1 := run Main.handleTextToSpeech p in
     exists u,
       currentAudioUrl p1 = Some u /\ live p1 = {[u]} /\
       objectURLs p1 !! u = Some (blob_of r) /\ currentAudioUrl p <> Some u) /\
  (result Main.clearTextResults p = inr tt ->
     live (run Main.clearTextResults p) = ∅ /\
     currentAudioUrl (run Main.clearTextResults p) = None) /\
  live (run Main.beforeunload p) = ∅ /\
  (lookup_id "query-input" (document p) <> None ->
   lookup_id "text-result" (document p) <> None ->
   lookup_id "audio-player" (document p) <> None ->
     result Main.clearTextResults p = inr tt /\
     live (run Main.clearTextResults p) = ∅ /\
     currentAudioUrl (run Main.clearTextResults p) = None /\
     events (run Main.clearTextResults p) =
       (events p ++ revocation (currentAudioUrl p))%list) /\
  result Main.beforeunload p = inr tt /\
  events (run Main.beforeunload p) = (events p ++ revocation (currentAudioUrl p))%list.
Proof.
  intros Hreach. pose proof (url_inv_reachable p Hreach) as Hinv.
  assert (Hthen : forall q b, url_inv q ->
            let q1 := run (Main.handleTextToSpeech_then b) q in
            exists u more,
              currentAudioUrl q1 = Some u /\ live q1 = {[u]} /\ objectURLs q1 !! u = Some b /\
              currentAudioUrl q <> Some u /\
              events q1 =
                (events q ++ revocation (currentAudioUrl q) ++ [ECreateObjectURL u] ++ more)%list).
  { intros q b Hq q1. subst q1.
    destruct (then_run b q) as ((Hu & Hn & Hc) & more & Hev).
    destruct (replaced_facts b q Hq) as (Fc & Fn & Fl & Fo & Fne & Fev).
    exists (nextObjectURL q), more. unfold live in *. rewrite Hu, Hc, Hev, Fev.
    repeat split; auto. now rewrite <- !app_assoc. }
  split; [apply Hinv|]. split.
  { intros u v Hu Hv. apply Hinv in Hu, Hv. congruence. }
  split; [intros b; now apply Hthen|]. split.
  { intros b1 b2 p1 p2.
    destruct (Hthen p b1 Hinv) as (u1 & m1 & Hc1 & _).
    assert (Hinv1 : url_inv p1).
    { apply url_inv_reachable. eapply reachable_step; [exact Hreach | apply step_tts_then]. }
    destruct (Hthen p1 b2 Hinv1) as (u2 & m2 & Hc2 & Hl2 & _ & Hne & _).
    exists u1, u2. fold p1 in Hc1. fold p2 in Hc2, Hl2. repeat split; auto.
    intros ->. apply Hne. exact Hc1. }
  split.
  { intros p1. subst p1.
    destruct (handleTextToSpeech_run p p (quiet_refl p)) as [H | (pm & b & H1 & H2)].
    - left. apply H.
    - right. pose proof (url_inv_quiet _ _ H1 Hinv) as Hpm.
      destruct (replaced_facts b pm Hpm) as (Fc & _ & Fl & _ & Fne & _).
      destruct H2 as ((Hu & _ & Hc) & _). destruct H1 as ((_ & Hn1 & Hc1) & _).
      exists (nextObjectURL pm). unfold live in *. rewrite Hu, Hc, Fc, Fl.
      repeat split. now rewrite <- Hc1. }
  split.
  { intros r Hnet Hok Hreq. exact (handleTextToSpeech_success p r Hinv Hnet Hok Hreq). }
  split.
  { intros Hdone. pose proof (clearTextResults_run p p (quiet_refl p)) as H.
    rewrite Hdone in H. destruct H as (pm & Hq & ->).
    destruct (cleared_facts pm (url_inv_quiet _ _ Hq Hinv)) as (Hl & Hc & _). auto. }
  split; [rewrite beforeunload_run; apply (unloaded_facts p Hinv)|].
  split.
  { intros H1 H2 H3.
    destruct (clearTextResults_completes p H1 H2 H3) as (d & Hrun).
    unfold result, run. rewrite Hrun. cbn [fst snd].
    destruct (cleared_facts (set_document d p)) as (Hl & Hc & _).
    { apply (url_inv_quiet p); [apply quiet_document | exact Hinv]. }
    split; [reflexivity|]. split; [exact Hl|]. split; [exact Hc|].
    unfold cleared. cbn [currentAudioUrl set_document].
    destruct (currentAudioUrl p); cbn; [reflexivity | now rewrite app_nil_r]. }
  unfold result, run, Main.beforeunload, bind, gets, revokeObjectURL, ret.
  cbn [fst snd]. destruct (currentAudioUrl p); cbn; split; try reflexivity.
  now rewrite app_nil_r.
Qed.

Lemma handleImageSelect_size_cap_witness :
  (file_size big_file > 16 * 1024 * 1024)%Z /\
  selectedImage (run (Main.handleImageSelect big_file) (served healthy)) = None.
Proof.
  assert (H : (file_size big_file > 16 * 1024 * 1024)%Z) by reflexivity.
  split; [exact H|].
  destruct (handleImageSelect_size_cap (served healthy) big_file) as (_ & Hbig & _).
  destruct (Hbig H) as (Hsel & _). exact Hsel.
Defined.

Lemma one_live_audio_url_witness :
  reachable (served audio) /\
  answers_with (served audio) audio /\ ok audio = true /\
  tts_requests (served audio) <> [] /\
  live (run Main.handleTextToSpeech (served audio)) = {[0]} /\
  live (run (Main.handleTextToSpeech_then voice_clip)
          (run (Main.handleTextToSpeech_then voice_clip) (served audio))) = {[1]} /\
  reachable (run Main.handleTextToSpeech (served audio)) /\
  result Main.clearTextResults (run Main.handleTextToSpeech (served audio)) = inr tt /\
  live (run Main.clearTextResults (run Main.handleTextToSpeech (served audio))) = ∅ /\
  events (run Main.clearTextResults (run Main.handleTextToSpeech (served audio))) =
    (events (run Main.handleTextToSpeech (served audio)) ++ [ERevokeObjectURL 0])%list.
Proof.
  assert (Hr : reachable (served audio)) by (apply reachable_loaded; split; reflexivity).
  assert (Hnet : answers_with (served audio) audio) by (intros req; reflexivity).
  assert (Hreq : tts_requests (served audio) <> []) by (vm_compute; discriminate).
  split; [exact Hr|]. split; [exact Hnet|]. split; [reflexivity|]. split; [exact Hreq|].
  destruct (one_live_audio_url (served audio) Hr) as (_ & _ & _ & H & _ & Hfull & _).
  split.
  { destruct (Hfull audio Hnet eq_refl Hreq) as (u & Hc & Hl & _).
    vm_compute in Hc. inversion Hc; subst u. exact Hl. }
  split.
  { destruct (H voice_clip voice_clip) as (u1 & u2 & _ & H2 & _ & Hl).
    vm_compute in H2. inversion H2; subst u2. exact Hl. }
  assert (Hr1 : reachable (run Main.handleTextToSpeech (served audio)))
    by (apply (reachable_step _ _ Hr); apply step_tts).
  split; [exact Hr1|].
  destruct (one_live_audio_url _ Hr1) as (_ & _ & _ & _ & _ & _ & _ & _ & Hclear & _).
  destruct Hclear as (Hdone & Hlive & _ & Hev);
    [vm_compute; discriminate | vm_compute; discriminate | vm_compute; discriminate |].
  split; [exact Hdone|]. split; [exact Hlive|]. exact Hev.
Defined.

End MainFacts.

(** ** The speech wrapper *)
Module VoiceFacts.
Import JS Voice.

Lemma settle_fields (k : nat) (r : Settled) (s : State) :
  supported (settle k r s) = supported s /\
  recognition (settle k r s) = recognition s /\
  isListening (settle k r s) = isListening s /\
  starts (settle k r s) = starts s /\
  nextPromise (settle k r s) = nextPromise s.
Proof. unfold settle. destruct (settled s !! k); repeat split. Qed.

Lemma settle_lookup_other (k j : nat) (r : Settled) (s : State) :
  j <> k -> settled (settle k r s) !! j = settled s !! j.
Proof.
  intros Hne. unfold settle. destruct (settled s !! k); [reflexivity|].
  cbn. now rewrite lookup_insert_ne.
Qed.

Lemma settle_fresh (k : nat) (r : Settled) (s : State) :
  settled s !! k = None -> settled (settle k r s) !! k = Some r.
Proof. intros H. unfold settle. rewrite H. cbn. apply lookup_insert_eq. Qed.

Lemma wf_settle (k : nat) (r : Settled) (s : State) :
  k < nextPromise s -> wf s -> wf (settle k r s).
Proof.
  intros Hk (H1 & H2).
  destruct (settle_fields k r s) as (Hs & Hr & Hl & _ & Hn).
  split.
  - rewrite Hs, Hr, Hl. exact H1.
  - intros j Hj. rewrite Hn in Hj. rewrite settle_lookup_other by lia. apply H2, Hj.
Qed.

Lemma wf_not_listening (s : State) :
  wf s -> wf (set_isListening false s).
Proof. intros (H1 & H2). split; [discriminate | exact H2]. Qed.

Lemma wf_initial (sup : bool) : wf (initial sup).
Proof. split; [discriminate | intros k _; apply lookup_empty]. Qed.

Lemma wf_recognize (o : option exn) (s : State) : wf s -> wf (recognize o s).1.
Proof.
  intros (H1 & H2). unfold recognize.
  set (s1 := set_nextPromise (S (nextPromise s)) s).
  assert (Hs1 : wf s1).
  { split; [exact H1 | intros k Hk; apply H2; cbn in Hk; lia]. }
  assert (Hlt : nextPromise s < nextPromise s1) by (cbn; lia).
  unfold isSupported. destruct (supported s1) eqn:Hsup; cbn [negb fst].
  - set (s2 := match recognition s1 with None => initialize s1 | Some _ => s1 end).
    assert (Hs2 : wf s2 /\ recognition s2 <> None /\ nextPromise s2 = nextPromise s1
                  /\ supported s2 = true).
    { subst s2. destruct (recognition s1) eqn:Hr.
      - split; [exact Hs1|]. split; [congruence|]. split; [reflexivity | exact Hsup].
      - unfold initialize, isSupported. rewrite Hsup. cbn [negb].
        split; [|split; [discriminate | split; [reflexivity | exact Hsup]]].
        split; [intros _; split; [exact Hsup | discriminate] | apply Hs1]. }
    destruct Hs2 as (Hwf2 & Hrec2 & Hn2 & Hsup2).
    destruct (isListening s2) eqn:Hl2; cbn [fst].
    + apply wf_settle; [lia | exact Hwf2].
    + assert (Hwf3 : wf (set_starts (S (starts (install_callbacks (nextPromise s)
                           (set_isListening true s2))))
                         (install_callbacks (nextPromise s) (set_isListening true s2)))).
      { unfold install_callbacks. cbn. destruct (recognition s2) eqn:Hr; [|contradiction].
        split; cbn; [intros _; split; [exact Hsup2 | discriminate] | apply Hwf2]. }
      destruct o as [error|]; cbn [fst]; [|exact Hwf3].
      apply wf_settle.
      * unfold install_callbacks. cbn. destruct (recognition s2); cbn; lia.
      * apply wf_not_listening in Hwf3. exact Hwf3.
  - apply wf_settle; [lia | exact Hs1].
Qed.

Lemma wf_step (s s' : State) : step s s' -> wf s -> wf s'.
Proof.
  intros Hstep Hwf. destruct Hstep.
  - now apply wf_recognize.
  - unfold initialize, isSupported. destruct (supported s) eqn:Hsup; cbn; [|exact Hwf].
    destruct Hwf as (H1 & H2). split; cbn; [intros _; split; [exact Hsup|discriminate] | exact H2].
  - unfold stop. destruct (recognition s); [|exact Hwf].
    destruct (isListening s); [|exact Hwf]. now apply wf_not_listening.
  - unfold onresult. apply wf_settle; [exact H | now apply wf_not_listening].
  - unfold onerror. repeat case_bool_decide;
      (apply wf_settle; [exact H | now apply wf_not_listening]).
  - now apply wf_not_listening.
Qed.

Lemma wf_reachable (s : State) : reachable s -> wf s.
Proof.
  induction 1 as [sup | s s' _ IH Hstep]; [apply wf_initial | exact (wf_step s s' Hstep IH)].
Qed.

(** C6: a call of [recognize] made while the wrapper listens is rejected
    with [Already listening]; [recognition.start()] is not called, the
    wrapper keeps listening and keeps its recognition object.  Where
    recognition is not supported the call is rejected at once with
    [Speech recognition not supported]. *)
Theorem recognize_while_listening (o : option exn) (s : State) :
  reachable s ->
  (isListening s = true ->
     settled (recognize o s).1 !! (recognize o s).2 = Some (Rejected (Error "Already listening")) /\
     starts (recognize o s).1 = starts s /\
     isListening (recognize o s).1 = true /\
     recognition (recognize o s).1 = recognition s) /\
  (supported s = false ->
     settled (recognize o s).1 !! (recognize o s).2
       = Some (Rejected (Error "Speech recognition not supported")) /\
     starts (recognize o s).1 = starts s /\
     isListening (recognize o s).1 = isListening s /\
     recognition (recognize o s).1 = recognition s).
Proof.
  intros Hreach. destruct (wf_reachable s Hreach) as (H1 & H2).
  assert (Hfresh : settled (set_nextPromise (S (nextPromise s)) s) !! nextPromise s = None)
    by (apply H2; lia).
  split.
  - intros Hl. destruct (H1 Hl) as (Hsup & Hrec).
    unfold recognize, isSupported. cbn [supported set_nextPromise negb]. rewrite Hsup.
    cbn [negb]. destruct (recognition s) as [r|] eqn:Hr; [|contradiction].
    cbn [recognition set_nextPromise]. rewrite Hr.
    cbn [isListening set_nextPromise]. rewrite Hl. cbn [fst snd].
    destruct (settle_fields (nextPromise s) (Rejected (Error "Already listening"))
                (set_nextPromise (S (nextPromise s)) s)) as (_ & Hr' & Hl' & Hs' & _).
    rewrite settle_fresh by exact Hfresh. rewrite Hs', Hl', Hr'. cbn. auto.
  - intros Hsup. unfold recognize, isSupported. cbn [supported set_nextPromise negb].
    rewrite Hsup. cbn [negb fst snd].
    destruct (settle_fields (nextPromise s) (Rejected (Error "Speech recognition not supported"))
                (set_nextPromise (S (nextPromise s)) s)) as (_ & Hr' & Hl' & Hs' & _).
    rewrite settle_fresh by exact Hfresh. rewrite Hs', Hl', Hr'. cbn. auto.
Qed.

Lemma recognize_while_listening_witness :
  reachable (recognize None (initial true)).1 /\
  isListening (recognize None (initial true)).1 = true /\
  settled (recognize None (recognize None (initial true)).1).1
    !! (recognize None (recognize None (initial true)).1).2
    = Some (Rejected (Error "Already listening")) /\
  starts (recognize None (recognize None (initial true)).1).1 = 1.
Proof.
  assert (Hr : reachable (recognize None (initial true)).1)
    by (eapply reachable_step; [apply reachable_initial | apply step_recognize]).
  split; [exact Hr|]. split; [reflexivity|].
  destruct (recognize_while_listening None _ Hr) as (H & _).
  destruct (H eq_refl) as (Hs & Hn & _). split; [exact Hs | exact Hn].
Defined.

End VoiceFacts.

(** ** Strings *)
Module StringFacts.
Import JS.

Lemma app_empty_r (s : string) : s +:+ "" = s.
Proof.
  induction s as [|c s IH]; [reflexivity|].
  change (String c (s +:+ "") = String c s). now rewrite IH.
Qed.

Lemma app_assoc' (a b c : string) : (a +:+ b) +:+ c = a +:+ b +:+ c.
Proof.
  induction a as [|x a IH]; [reflexivity|].
  change (String x ((a +:+ b) +:+ c) = String x (a +:+ b +:+ c)). now rewrite IH.
Qed.

Lemma rev_app_spec (s t : string) : String.rev_app s t = String.rev s +:+ t.
Proof.
  revert t. induction s as [|c s IH]; intros t; [reflexivity|].
  unfold String.rev. cbn [String.rev_app]. rewrite (IH (String c t)), (IH (String c "")).
  now rewrite app_assoc'.
Qed.

Lemma rev_cons (c : ascii) (s : string) : String.rev (String c s) = String.rev s +:+ String c "".
Proof. unfold String.rev at 1. cbn [String.rev_app]. apply rev_app_spec. Qed.

Lemma rev_snoc (c : ascii) (s : string) : String.rev (s +:+ String c "") = String c (String.rev s).
Proof.
  induction s as [|x s IH]; [reflexivity|].
  change (String.rev (String x (s +:+ String c "")) = String c (String.rev (String x s))).
  rewrite !rev_cons, IH. reflexivity.
Qed.

Lemma rev_involutive (s : string) : String.rev (String.rev s) = s.
Proof.
  induction s as [|c s IH]; [reflexivity|]. now rewrite rev_cons, rev_snoc, IH.
Qed.

Lemma trimStart_idempotent (s : string) : trimStart (trimStart s) = trimStart s.
Proof.
  induction s as [|c s IH]; [reflexivity|]. cbn [trimStart].
  destruct (is_white_space c) eqn:Hc; [exact IH|]. cbn [trimStart]. now rewrite Hc.
Qed.

Lemma trimStart_snoc (c : ascii) (x : string) :
  is_white_space c = false -> exists y, trimStart (x +:+ String c "") = y +:+ String c "".
Proof.
  intros Hc. induction x as [|a x IH].
  - exists "". change ("" +:+ String c "") with (String c ""). cbn [trimStart]. now rewrite Hc.
  - change (String a x +:+ String c "") with (String a (x +:+ String c "")).
    cbn [trimStart]. destruct (is_white_space a); [exact IH|].
    exists (String a x). reflexivity.
Qed.

Lemma trimEnd_keeps_head (c : ascii) (r : string) :
  is_white_space c = false -> exists r', trimEnd (String c r) = String c r'.
Proof.
  intros Hc. unfold trimEnd. rewrite rev_cons.
  destruct (trimStart_snoc c (String.rev r) Hc) as [y ->].
  rewrite rev_snoc. eauto.
Qed.

Lemma trimEnd_idempotent (s : string) : trimEnd (trimEnd s) = trimEnd s.
Proof. unfold trimEnd. now rewrite rev_involutive, trimStart_idempotent. Qed.

Lemma trimStart_head (s : string) (c : ascii) (r : string) :
  trimStart s = String c r -> is_white_space c = false.
Proof.
  induction s as [|a s IH]; cbn [trimStart]; [discriminate|].
  destruct (is_white_space a) eqn:Ha; [exact IH|]. intros H. inversion H. now subst.
Qed.

Lemma trim_idempotent (s : string) : trim (trim s) = trim s.
Proof.
  unfold trim. destruct (trimStart s) as [|c r] eqn:Hs; [reflexivity|].
  pose proof (trimStart_head s c r Hs) as Hc.
  destruct (trimEnd_keeps_head c r Hc) as [r' Hr]. rewrite Hr.
  cbn [trimStart]. rewrite Hc. rewrite <- Hr. apply trimEnd_idempotent.
Qed.

Lemma replace_trailing_slash_snoc (s : string) : replace_trailing_slash (s +:+ "/") = s.
Proof. unfold replace_trailing_slash. rewrite rev_snoc. apply rev_involutive. Qed.

End StringFacts.

(** ** The API client: logs, failures and request shapes *)
Module ApiMore.
Import JS Host DOM Spec Spec2 ApiFacts.

#[local] Arguments JSON_stringify : simpl never.
#[local] Arguments toString : simpl never.
#[local] Arguments trim : simpl never.
#[local] Arguments pretty : simpl never.
#[local] Arguments String.app : simpl never.

Lemma drop_fetches_app (l : list Event) (x : list Request) :
  drop (length (fetches l)) (fetches l ++ x) = x.
Proof. apply drop_app_length. Qed.

Ltac atoms :=
  repeat (match goal with
          | |- context [truthy ?x] => destruct (truthy x) eqn:?; cbn
          | |- context [call_trim ?x] => destruct (call_trim x) eqn:?; cbn
          | |- context [call_toString ?x] => destruct (call_toString x) eqn:?; cbn
          | |- context [bool_decide ?x] => destruct (bool_decide x) eqn:?; cbn
          | |- context [network ?p ?i ?r] => destruct (network p i r) eqn:?; cbn
          | |- context [ok ?r] => destruct (ok r) eqn:?; cbn
          | |- context [parsed ?r] => destruct (parsed r) eqn:?; cbn
          | |- context [get_prop ?v ?k] => destruct (get_prop v k) eqn:?; cbn
          end).

Ltac tidy_log :=
  rewrite ?fetches_app; cbn [fetches omap list_omap]; cbn;
  rewrite ?app_nil_r, ?drop_fetches_app, ?drop_fetches_same; cbn;
  rewrite <- ?app_assoc; cbn.

Ltac close_log :=
  repeat split; first [reflexivity | lia | apply set_events_same | now rewrite app_nil_r].

(** X1: each of the five calls that go to the network ([healthCheck],
    [queryText], [extractOCR], [imageQuery], [textToSpeech]) changes nothing
    of the page but the log, sends at most one request, and adds to the log
    exactly its request, if it sends one, followed by one [console.error]
    with the label of the call and the exception it rethrows, if it fails. *)
Theorem call_log (c : Call) (p : Page) :
  label c <> None ->
  page_after c p = set_events (events (page_after c p)) p /\
  length (requests_of c p) <= 1 /\
  events (page_after c p) =
    (events p ++ map EFetch (requests_of c p) ++
     match failure c p, label c with
     | Some e, Some l => [EConsoleError l (Some e)]
     | _, _ => []
     end)%list.
Proof.
  intros Hc.
  destruct c; try (exfalso; apply Hc; reflexivity); clear Hc;
    unfold failure, requests_of, page_after, label.
  - unfold API.healthCheck. exec. cbn. atoms; tidy_log; close_log.
  - unfold API.queryText. exec. cbn. atoms; tidy_log; close_log.
  - unfold API.extractOCR. exec. cbn. atoms; tidy_log; close_log.
  - unfold API.imageQuery. exec. cbn. atoms; tidy_log; close_log.
  - unfold API.textToSpeech. exec. cbn. atoms; tidy_log; close_log.
Qed.

Lemma call_log_witness :
  label (CQueryText (VStr "why?") VUndefined) <> None /\
  length (requests_of (CQueryText (VStr "why?") VUndefined) (served bad_input)) <= 1 /\
  events (page_after (CQueryText (VStr "why?") VUndefined) (served bad_input)) =
    (map EFetch (requests_of (CQueryText (VStr "why?") VUndefined) (served bad_input)) ++
     [EConsoleError "Query text error:" (Some (Error "bad input"))])%list.
Proof.
  assert (H : label (CQueryText (VStr "why?") VUndefined) <> None) by discriminate.
  destruct (call_log (CQueryText (VStr "why?") VUndefined) (served bad_input) H)
    as (_ & Hlen & Hev).
  split; [exact H|]. split; [exact Hlen|]. rewrite Hev. vm_compute. reflexivity.
Defined.

Ltac pass_validation c Hreq :=
  lazymatch c with
  | CHealthCheck => unfold API.healthCheck in *; exec
  | CQueryText ?q _ =>
      unfold API.queryText in *; exec;
      decide_on (truthy q) Hreq; decide_on (call_trim q) Hreq;
      match goal with s : string |- _ => decide_on (bool_decide (s = "")) Hreq end
  | CExtractOCR ?f => unfold API.extractOCR in *; exec; decide_on (truthy f) Hreq
  | CImageQuery ?f ?q ?k =>
      unfold API.imageQuery in *; exec;
      decide_on (truthy f) Hreq;
      decide_on (call_trim (API.param q (VStr ""))) Hreq;
      decide_on (call_toString (API.param k (VNum 5))) Hreq
  | CTextToSpeech ?t =>
      unfold API.textToSpeech in *; exec;
      decide_on (truthy t) Hreq; decide_on (call_trim t) Hreq;
      match goal with s : string |- _ => decide_on (bool_decide (s = "")) Hreq end
  end.

(** X2: when the network rejects the request of one of the five calls, the
    call fails with the very exception of the network: nothing wraps it. *)
Theorem network_failure_propagates (c : Call) (p : Page) (e : exn) :
  label c <> None -> rejects_with p e -> requests_of c p <> [] ->
  failure c p = Some e.
Proof.
  intros Hc Hnet Hreq. unfold rejects_with in Hnet.
  destruct c; try (exfalso; apply Hc; reflexivity); clear Hc;
    unfold failure, requests_of, page_after in *;
    match goal with |- outcome ?m _ = _ => idtac end.
  - pass_validation CHealthCheck Hreq. rewrite Hnet in *. reflexivity.
  - pass_validation (CQueryText query topK) Hreq. rewrite Hnet in *. reflexivity.
  - pass_validation (CExtractOCR imageFile) Hreq. rewrite Hnet in *. reflexivity.
  - pass_validation (CImageQuery imageFile query topK) Hreq. rewrite Hnet in *. reflexivity.
  - pass_validation (CTextToSpeech text_) Hreq. rewrite Hnet in *. reflexivity.
Qed.

Lemma network_failure_propagates_witness :
  rejects_with offline (TypeError "Failed to fetch") /\
  requests_of CHealthCheck offline <> [] /\
  failure CHealthCheck offline = Some (TypeError "Failed to fetch").
Proof.
  assert (Hnet : rejects_with offline (TypeError "Failed to fetch"))
    by (intros req; reflexivity).
  assert (Hreq : requests_of CHealthCheck offline <> []) by (vm_compute; discriminate).
  split; [exact Hnet|]. split; [exact Hreq|].
  apply (network_failure_propagates CHealthCheck offline (TypeError "Failed to fetch"));
    [discriminate | exact Hnet | exact Hreq].
Defined.

(** X3: on a 2xx response the JSON calls return the parsed body as it is,
    whatever it holds (no check of its shape, not even of an [error] field),
    and [textToSpeech] returns the body as a blob with the content type of
    the response. *)
Theorem success_returns_payload (p : Page) (r : Response) :
  answers_with p r -> ok r = true ->
  (forall v, parsed r = Some v ->
     result API.healthCheck p = inr v /\
     (forall q k, requests_of (CQueryText q k) p <> [] ->
        result (API.queryText q k) p = inr v) /\
     (forall f, requests_of (CExtractOCR f) p <> [] ->
        result (API.extractOCR f) p = inr v) /\
     (forall f q k, requests_of (CImageQuery f q k) p <> [] ->
        result (API.imageQuery f q k) p = inr v)) /\
  (forall t, requests_of (CTextToSpeech t) p <> [] ->
     result (API.textToSpeech t) p = inr (blob_of r)).
Proof.
  intros Hnet Hok. unfold answers_with in Hnet. split.
  - intros v Hv. split; [|split; [|split]].
    + unfold API.healthCheck. exec. rewrite Hnet. cbn. rewrite Hok, Hv. reflexivity.
    + intros q k Hreq. unfold requests_of, page_after in Hreq.
      pass_validation (CQueryText q k) Hreq.
      rewrite Hnet in *. cbn. rewrite Hok, Hv. reflexivity.
    + intros f Hreq. unfold requests_of, page_after in Hreq.
      pass_validation (CExtractOCR f) Hreq.
      rewrite Hnet in *. cbn. rewrite Hok, Hv. reflexivity.
    + intros f q k Hreq. unfold requests_of, page_after in Hreq.
      pass_validation (CImageQuery f q k) Hreq.
      rewrite Hnet in *. cbn. rewrite Hok, Hv. reflexivity.
  - intros t Hreq. unfold requests_of, page_after in Hreq.
    pass_validation (CTextToSpeech t) Hreq.
    rewrite Hnet in *. cbn. rewrite Hok. reflexivity.
Qed.

Lemma success_returns_payload_witness :
  answers_with (served healthy) healthy /\ ok healthy = true /\
  result API.healthCheck (served healthy) =
    inr (VObj [("status", VStr "healthy"); ("collection_count", VNum 12)]).
Proof.
  assert (Hnet : answers_with (served healthy) healthy) by (intros req; reflexivity).
  split; [exact Hnet|]. split; [reflexivity|].
  destruct (success_returns_payload (served healthy) healthy Hnet eq_refl) as (H & _).
  destruct (H _ eq_refl) as (Hh & _). exact Hh.
Defined.

(** X4: what the calls that read the body of a failed response do when the
    body does not help: a body that is no JSON makes them fail with the
    [SyntaxError] of [response.json()], the body [null] with a [TypeError],
    and a body without an [error] field with the message
    [<what>: <status>]. *)
Theorem unreadable_error_body (c : Call) (what : string) (p : Page) (r : Response) :
  generic_message c = Some what ->
  answers_with p r -> ok r = false -> requests_of c p <> [] ->
  (parsed r = None -> exists m, failure c p = Some (SyntaxError m)) /\
  (parsed r = Some VNull -> exists m, failure c p = Some (TypeError m)) /\
  (forall v, parsed r = Some v -> get_prop v "error" = inr VUndefined ->
     failure c p = Some (Error (what +:+ ": " +:+ pretty (status r)))).
Proof.
  intros Hgen Hnet Hok Hreq. unfold answers_with in Hnet.
  destruct c; inversion Hgen; subst what; clear Hgen;
    unfold failure, requests_of, page_after in *.
  - pass_validation (CQueryText query topK) Hreq. rewrite Hnet in *. cbn. rewrite Hok. cbn.
    repeat split; [intros -> | intros -> | intros v -> ->]; cbn; eauto.
  - pass_validation (CExtractOCR imageFile) Hreq. rewrite Hnet in *. cbn. rewrite Hok. cbn.
    repeat split; [intros -> | intros -> | intros v -> ->]; cbn; eauto.
  - pass_validation (CImageQuery imageFile query topK) Hreq. rewrite Hnet in *. cbn.
    rewrite Hok. cbn.
    repeat split; [intros -> | intros -> | intros v -> ->]; cbn; eauto.
  - pass_validation (CTextToSpeech text_) Hreq. rewrite Hnet in *. cbn. rewrite Hok. cbn.
    repeat split; [intros -> | intros -> | intros v -> ->]; cbn; eauto.
Qed.

Lemma unreadable_error_body_witness :
  answers_with (served garbled) garbled /\ ok garbled = false /\
  requests_of (CQueryText (VStr "why?") VUndefined) (served garbled) <> [] /\
  exists m, failure (CQueryText (VStr "why?") VUndefined) (served garbled)
            = Some (SyntaxError m).
Proof.
  assert (Hnet : answers_with (served garbled) garbled) by (intros req; reflexivity).
  assert (Hreq : requests_of (CQueryText (VStr "why?") VUndefined) (served garbled) <> [])
    by (vm_compute; discriminate).
  split; [exact Hnet|]. split; [reflexivity|]. split; [exact Hreq|].
  destruct (unreadable_error_body (CQueryText (VStr "why?") VUndefined) "Request failed"
              (served garbled) garbled eq_refl Hnet eq_refl Hreq) as (H & _).
  apply H. reflexivity.
Defined.

Ltac one_request :=
  atoms; tidy_log; try reflexivity.

(** X5: [imageQuery] on a file sends one POST to [<base>/api/image-query]
    without headers of its own, whose form has the fields [image] (the
    file), [query] (trimmed; the empty string when omitted) and [top_k]
    (as a string; 5 when omitted).  A query that cannot be trimmed, or a
    [topK] without [toString], makes the call fail before any request. *)
Theorem imageQuery_request (p : Page) (f : File) (query topK : Value) :
  (forall q s,
     call_trim (API.param query (VStr "")) = inr q ->
     call_toString (API.param topK (VNum 5)) = inr s ->
     requests_of (CImageQuery (VFile f) query topK) p =
       [ {| url := API_BASE_URL p +:+ "/api/image-query"; method := "POST"; headers := [];
            body := Some (BodyForm [("image", FormFile f); ("query", FormString q);
                                    ("top_k", FormString s)]) |} ]) /\
  (forall e,
     call_trim (API.param query (VStr "")) = inl e ->
     failure (CImageQuery (VFile f) query topK) p = Some e /\
     requests_of (CImageQuery (VFile f) query topK) p = []) /\
  (forall q e,
     call_trim (API.param query (VStr "")) = inr q ->
     call_toString (API.param topK (VNum 5)) = inl e ->
     failure (CImageQuery (VFile f) query topK) p = Some e /\
     requests_of (CImageQuery (VFile f) query topK) p = []).
Proof.
  split; [|split].
  - intros q s Hq Hs. unfold requests_of, page_after, API.imageQuery. exec. cbn.
    rewrite Hq. cbn. rewrite Hs. cbn. one_request.
  - intros e Hq.
    unfold failure, requests_of, page_after, API.imageQuery; exec; cbn; rewrite Hq; cbn.
    split; [reflexivity | apply drop_fetches_console].
  - intros q e Hq Hs.
    unfold failure, requests_of, page_after, API.imageQuery; exec; cbn; rewrite Hq; cbn.
    rewrite Hs. cbn. split; [reflexivity | apply drop_fetches_console].
Qed.

(** X6: the requests of the other calls.  [healthCheck] sends a GET to
    [<base>/health] with the JSON content type, and [checkConnection]
    sends the same; [extractOCR] posts a form with the one field [image]
    to [<base>/api/ocr]; [textToSpeech] posts the JSON text of
    [{text: <trimmed>}] to [<base>/api/tts]. *)
Theorem request_shapes (p : Page) :
  requests_of CHealthCheck p =
    [ {| url := API_BASE_URL p +:+ "/health"; method := "GET";
         headers := [("Content-Type", "application/json")]; body := None |} ] /\
  requests_of CCheckConnection p = requests_of CHealthCheck p /\
  (forall v, truthy v = true ->
     requests_of (CExtractOCR v) p =
       [ {| url := API_BASE_URL p +:+ "/api/ocr"; method := "POST"; headers := [];
            body := Some (BodyForm [("image", API.form_value v)]) |} ]) /\
  (forall t, trim t <> "" ->
     requests_of (CTextToSpeech (VStr t)) p =
       [ {| url := API_BASE_URL p +:+ "/api/tts"; method := "POST";
            headers := [("Content-Type", "application/json")];
            body := Some (BodyText
              ("{" +:+ quoteJSONString "text" +:+ ":" +:+ quoteJSONString (trim t) +:+ "}")) |} ]).
Proof.
  split; [|split; [|split]].
  - unfold requests_of, page_after, API.healthCheck. exec. cbn. one_request.
  - unfold requests_of, page_after, API.checkConnection, API.healthCheck. exec. cbn.
    one_request.
  - intros v Hv. unfold requests_of, page_after, API.extractOCR. exec. cbn. rewrite Hv. cbn.
    one_request.
  - intros t Ht.
    assert (Htr : truthy (VStr t) = true) by (destruct t; [contradiction | reflexivity]).
    unfold requests_of, page_after, API.textToSpeech. exec. rewrite Htr. cbn.
    rewrite bool_decide_false by exact Ht. cbn.
    replace (JSON_stringify (VObj [("text", VStr (trim t))]))
      with (Some ("{" +:+ quoteJSONString "text" +:+ ":" +:+ quoteJSONString (trim t) +:+ "}")).
    2:{ unfold JSON_stringify. cbn [join_with]. now rewrite !string_app_assoc. }
    cbn. one_request.
Qed.

Lemma setApiBaseUrl_run (p : Page) (s : string) (items : gmap string string) :
  s <> "" -> localStorage p = Some items ->
  run (API.setApiBaseUrl (VStr s)) p =
    set_localStorage (Some (<["API_BASE_URL" := replace_trailing_slash s]> items))
      (set_API_BASE_URL (replace_trailing_slash s) p).
Proof.
  intros Hs Hst. unfold API.setApiBaseUrl. destruct s as [|c s]; [contradiction|].
  cbn. exec. cbn. rewrite bool_decide_true by reflexivity. cbn. rewrite Hst. reflexivity.
Qed.

(** X7: [setApiBaseUrl] and the next load of the page.  In a window with
    local storage, what [setApiBaseUrl] stored is what
    [resolveApiBaseUrl] selects at the next load, with a trailing slash
    stripped once more, unless the global override is set, which still
    wins; and a value that normalizes to the empty string (["/"]) is
    stored but ignored at the next load. *)
Theorem reload_after_setApiBaseUrl (p : Page) (s : string) (items : gmap string string) :
  s <> "" -> localStorage p = Some items ->
  (configured (window_API_BASE_URL p) = None -> replace_trailing_slash s <> "" ->
     API.resolveApiBaseUrl (run (API.setApiBaseUrl (VStr s)) p)
       = inr (replace_trailing_slash (replace_trailing_slash s))) /\
  (forall o, configured (window_API_BASE_URL p) = Some o ->
     API.resolveApiBaseUrl (run (API.setApiBaseUrl (VStr s)) p)
       = inr (replace_trailing_slash o)) /\
  (replace_trailing_slash s = "" ->
     API.resolveApiBaseUrl (run (API.setApiBaseUrl (VStr s)) p)
       = API.resolveApiBaseUrl (set_localStorage None p)).
Proof.
  intros Hs Hst. rewrite (setApiBaseUrl_run p s items Hs Hst).
  unfold API.resolveApiBaseUrl, API.getItem. cbn [window_API_BASE_URL localStorage
    meta_api_base_url location set_localStorage set_API_BASE_URL].
  rewrite lookup_insert_eq.
  split; [|split].
  - intros Hw Hv. destruct (replace_trailing_slash s) as [|c v] eqn:Ev; [contradiction|].
    destruct (window_API_BASE_URL p) as [[|c' o]|]; try discriminate Hw; reflexivity.
  - intros o Ho. destruct (window_API_BASE_URL p) as [[|c' o']|]; try discriminate Ho.
    inversion Ho; subst o. reflexivity.
  - intros ->. reflexivity.
Qed.

Lemma reload_after_setApiBaseUrl_witness :
  localStorage (served healthy) = Some ∅ /\
  API.resolveApiBaseUrl (run (API.setApiBaseUrl (VStr "http://x/")) (served healthy))
    = inr "http://x".
Proof.
  split; [reflexivity|].
  destruct (reload_after_setApiBaseUrl (served healthy) "http://x/" ∅) as (H & _);
    [discriminate | reflexivity |].
  rewrite H; [reflexivity | reflexivity | vm_compute; discriminate].
Defined.

End ApiMore.

(** ** The speech wrapper: promises and callbacks *)
Module VoiceMore.
Import JS Voice VoiceFacts.

Lemma supported_step (s s' : State) : step s s' -> supported s' = supported s.
Proof.
  intros Hstep. destruct Hstep.
  - unfold recognize, install_callbacks, initialize, isSupported, settle.
    repeat (case_match; cbn [fst snd]); reflexivity.
  - unfold initialize. destruct (negb (isSupported s)); reflexivity.
  - unfold stop. repeat case_match; reflexivity.
  - unfold onresult, settle. repeat case_match; reflexivity.
  - unfold onerror, settle. repeat case_match; reflexivity.
  - reflexivity.
Qed.

(** X9: the engine is started only from an idle wrapper: a step of the
    wrapper either leaves the number of [recognition.start()] calls as it
    is, or adds one, and then the wrapper was not listening and recognition
    is supported. *)
Theorem starts_only_when_idle (s s' : State) :
  step s s' ->
  starts s' = starts s \/
  (starts s' = S (starts s) /\ isListening s = false /\ supported s = true).
Proof.
  intros Hstep. destruct Hstep.
  - unfold recognize, isSupported. cbn [supported set_nextPromise].
    destruct (supported s) eqn:Hsup; cbn [negb fst].
    + assert (Hl : isListening
        match recognition (set_nextPromise (S (nextPromise s)) s) with
        | Some _ => set_nextPromise (S (nextPromise s)) s
        | None => initialize (set_nextPromise (S (nextPromise s)) s)
        end = isListening s).
      { unfold initialize, isSupported. repeat case_match; reflexivity. }
      rewrite Hl. destruct (isListening s) eqn:Hlis; cbn [fst].
      * left. unfold settle, initialize, isSupported. repeat case_match; reflexivity.
      * right. split; [|auto].
        unfold settle, install_callbacks, initialize, isSupported.
        repeat (case_match; cbn [fst snd]); reflexivity.
    + left. unfold settle. repeat case_match; reflexivity.
  - left. unfold initialize. destruct (negb (isSupported s)); reflexivity.
  - left. unfold stop. repeat case_match; reflexivity.
  - left. unfold onresult, settle. repeat case_match; reflexivity.
  - left. unfold onerror, settle. repeat case_match; reflexivity.
  - left. reflexivity.
Qed.

Lemma starts_only_when_idle_witness :
  step (initial true) (recognize None (initial true)).1 /\
  (starts (recognize None (initial true)).1 = starts (initial true) \/
   (starts (recognize None (initial true)).1 = S (starts (initial true)) /\
    isListening (initial true) = false /\ supported (initial true) = true)).
Proof.
  assert (Hstep : step (initial true) (recognize None (initial true)).1)
    by apply step_recognize.
  split; [exact Hstep|].
  exact (starts_only_when_idle _ _ Hstep).
Defined.

Lemma unsupported_never_listens (s : State) :
  reachable s -> supported s = false ->
  isListening s = false /\ starts s = 0 /\ recognition s = None.
Proof.
  induction 1 as [sup | s s' Hr IH Hstep]; intros Hsup.
  - repeat split.
  - rewrite (supported_step s s' Hstep) in Hsup. destruct (IH Hsup) as (Hl & Hs & Hrec).
    destruct Hstep.
    + unfold recognize, isSupported. cbn [supported set_nextPromise]. rewrite Hsup.
      cbn [negb fst]. unfold settle. repeat case_match; cbn; auto.
    + unfold initialize, isSupported. rewrite Hsup. cbn. auto.
    + unfold stop. rewrite Hrec. auto.
    + unfold onresult, settle. repeat case_match; cbn; auto.
    + unfold onerror, settle. repeat case_match; cbn; auto.
    + cbn. auto.
Qed.

Lemma recognition_settings (s : State) (r : Recognition) :
  reachable s -> recognition s = Some r ->
  continuous r = false /\ interimResults r = false /\ lang r = "en-US" /\
  maxAlternatives r = 1%Z.
Proof.
  intros Hreach. revert r. induction Hreach as [sup | s s' Hr IH Hstep]; intros r.
  - discriminate.
  - assert (Hinit : forall x r, recognition (initialize x) = Some r ->
              recognition x = Some r \/
              (continuous r = false /\ interimResults r = false /\ lang r = "en-US" /\
               maxAlternatives r = 1%Z)).
    { intros x r0. unfold initialize. destruct (negb (isSupported x)); cbn.
      - intros H. left. exact H.
      - intros H; inversion H; subst r0. right. repeat split. }
    assert (Hinst : forall k x r, recognition (install_callbacks k x) = Some r ->
              exists r0, recognition x = Some r0 /\ continuous r = continuous r0 /\
                interimResults r = interimResults r0 /\ lang r = lang r0 /\
                maxAlternatives r = maxAlternatives r0).
    { intros k x r0. unfold install_callbacks.
      destruct (recognition x) as [r1|] eqn:Ex; cbn.
      - intros H; inversion H; subst r0. exists r1. repeat split.
      - congruence. }
    destruct Hstep.
    + unfold recognize, isSupported. cbn [supported set_nextPromise].
      set (s1 := set_nextPromise (S (nextPromise s)) s).
      assert (Hs2 : forall r, recognition
                match recognition s1 with Some _ => s1 | None => initialize s1 end = Some r ->
                continuous r = false /\ interimResults r = false /\ lang r = "en-US" /\
                maxAlternatives r = 1%Z).
      { intros r0. destruct (recognition s1) eqn:Hr1.
        - rewrite Hr1. intros H; inversion H; subst. apply IH. exact Hr1.
        - intros H. apply Hinit in H as [H|H]; [congruence | exact H]. }
      destruct (supported s); cbn [negb fst].
      * destruct (isListening _); cbn [fst].
        -- destruct (settle_fields (nextPromise s) (Rejected (Error "Already listening"))
             match recognition s1 with Some _ => s1 | None => initialize s1 end)
             as (_ & -> & _). apply Hs2.
        -- intros H.
           assert (H' : exists r0, recognition
                     match recognition s1 with Some _ => s1 | None => initialize s1 end
                     = Some r0 /\ continuous r = continuous r0 /\
                     interimResults r = interimResults r0 /\ lang r = lang r0 /\
                     maxAlternatives r = maxAlternatives r0).
           { destruct o; cbn [fst] in H.
             - match type of H with recognition (settle ?k ?x ?y) = _ =>
                 destruct (settle_fields k x y) as (_ & Hf & _); rewrite Hf in H end.
               cbn [recognition set_isListening set_starts] in H.
               apply Hinst in H. exact H.
             - cbn [recognition set_isListening set_starts] in H.
               apply Hinst in H. exact H. }
           destruct H' as (r0 & Hr0 & -> & -> & -> & ->). apply Hs2. exact Hr0.
      * destruct (settle_fields (nextPromise s)
                    (Rejected (Error "Speech recognition not supported")) s1) as (_ & -> & _).
        apply IH.
    + intros H. apply Hinit in H as [H|H]; [now apply IH | exact H].
    + unfold stop. destruct (recognition s) eqn:E; [destruct (isListening s)|];
        cbn [recognition set_isListening]; rewrite ?E; apply IH.
    + unfold onresult.
      destruct (settle_fields k (Resolved t) (set_isListening false s)) as (_ & -> & _).
      apply IH.
    + unfold onerror. repeat case_bool_decide;
        match goal with |- recognition (settle ?k ?x ?y) = _ -> _ =>
          destruct (settle_fields k x y) as (_ & -> & _) end; apply IH.
    + apply IH.
Qed.

(** X10: [recognize] on an idle wrapper with recognition supported hands
    out a new promise, installs the callbacks for it and starts the engine
    once.  If [start()] returns, the wrapper listens and the promise is
    pending; if [start()] throws, the promise is rejected with the
    exception thrown and the wrapper does not listen. *)
Theorem recognize_when_idle (s : State) (o : option exn) :
  reachable s -> supported s = true -> isListening s = false ->
  (recognize o s).2 = nextPromise s /\
  starts (recognize o s).1 = S (starts s) /\
  (exists r, recognition (recognize o s).1 = Some r /\ callbacks r = Some (nextPromise s)) /\
  match o with
  | None =>
      isListening (recognize o s).1 = true /\
      settled (recognize o s).1 !! nextPromise s = None
  | Some error =>
      isListening (recognize o s).1 = false /\
      settled (recognize o s).1 !! nextPromise s = Some (Rejected error)
  end.
Proof.
  intros Hreach Hsup Hl. destruct (wf_reachable s Hreach) as (_ & Hfresh).
  assert (Hk : settled s !! nextPromise s = None) by (apply Hfresh; lia).
  unfold recognize, isSupported. cbn [supported set_nextPromise]. rewrite Hsup. cbn [negb].
  set (s1 := set_nextPromise (S (nextPromise s)) s).
  set (s2 := match recognition s1 with Some _ => s1 | None => initialize s1 end).
  assert (H2 : exists r0, recognition s2 = Some r0 /\ isListening s2 = false /\
                 starts s2 = starts s /\ settled s2 = settled s).
  { subst s2. destruct (recognition s1) as [r0|] eqn:Hr1.
    - exists r0. repeat split; assumption.
    - unfold initialize, isSupported. cbn [supported s1 set_nextPromise]. rewrite Hsup.
      cbn. eexists. repeat split. exact Hl. }
  destruct H2 as (r0 & Hr0 & Hl0 & Hs0 & Hse0). clearbody s2. rewrite Hl0.
  unfold install_callbacks. cbn [recognition set_isListening]. rewrite Hr0.
  destruct o as [error|]; cbn [fst snd].
  - split; [reflexivity|].
    match goal with |- context [settle ?k ?x ?y] =>
      destruct (settle_fields k x y) as (_ & Hr & Hli & Hst & _);
      rewrite Hr, Hli, Hst; rewrite (settle_fresh k x y)
    end.
    + cbn. rewrite Hs0. repeat split. eauto.
    + cbn. rewrite Hse0. exact Hk.
  - split; [reflexivity|]. cbn. rewrite Hs0, Hse0. repeat split; eauto.
Qed.

Lemma recognize_when_idle_witness :
  reachable (initial true) /\
  (recognize None (initial true)).2 = 0 /\
  starts (recognize None (initial true)).1 = 1 /\
  isListening (recognize None (initial true)).1 = true /\
  settled (recognize None (initial true)).1 !! 0 = None.
Proof.
  split; [apply reachable_initial|].
  destruct (recognize_when_idle (initial true) None (reachable_initial true) eq_refl eq_refl)
    as (H1 & H2 & _ & H3 & H4).
  split; [exact H1|]. split; [exact H2|]. split; [exact H3 | exact H4].
Defined.

(** X11: what the callbacks do to a pending promise.  [onresult] resolves
    it with the transcript; [onerror] rejects it with a message for the
    codes [no-speech], [audio-capture] and [not-allowed] and with the code
    itself otherwise; both end listening.  [onend] and [stop] end
    listening and leave the promise pending. *)
Theorem callbacks_settle (s : State) (k : nat) :
  reachable s -> settled s !! k = None ->
  (forall t,
     settled (onresult k t s) !! k = Some (Resolved t) /\
     isListening (onresult k t s) = false) /\
  (forall code,
     isListening (onerror k code s) = false /\
     settled (onerror k code s) !! k =
       Some (Rejected (Error
         (if bool_decide (code = "no-speech") then "No speech detected"
          else if bool_decide (code = "audio-capture") then "Microphone not available"
          else if bool_decide (code = "not-allowed") then "Microphone permission denied"
          else code)))) /\
  (isListening (onend s) = false /\ settled (onend s) !! k = None) /\
  (isListening (stop s) = false /\ settled (stop s) !! k = None).
Proof.
  intros Hreach Hk. split; [|split; [|split]].
  - intros t. unfold onresult.
    destruct (settle_fields k (Resolved t) (set_isListening false s)) as (_ & _ & -> & _).
    split; [|reflexivity]. apply settle_fresh. exact Hk.
  - intros code. unfold onerror.
    repeat case_bool_decide;
      match goal with |- context [settle ?k ?x ?y] =>
        destruct (settle_fields k x y) as (_ & _ & -> & _);
        (split; [reflexivity | apply settle_fresh; exact Hk])
      end.
  - split; [reflexivity | exact Hk].
  - destruct (wf_reachable s Hreach) as (Hw & _).
    unfold stop. destruct (recognition s) eqn:Hr.
    + destruct (isListening s) eqn:Hl; cbn; auto.
    + destruct (isListening s) eqn:Hl; [|auto].
      destruct (Hw eq_refl) as (_ & Hne). contradiction.
Qed.

Lemma callbacks_settle_witness :
  reachable (recognize None (initial true)).1 /\
  settled (recognize None (initial true)).1 !! 0 = None /\
  settled (onerror 0 "no-speech" (recognize None (initial true)).1) !! 0 =
    Some (Rejected (Error "No speech detected")) /\
  settled (stop (recognize None (initial true)).1) !! 0 = None.
Proof.
  assert (Hr : reachable (recognize None (initial true)).1)
    by (eapply reachable_step; [apply reachable_initial | apply step_recognize]).
  assert (Hp : settled (recognize None (initial true)).1 !! 0 = None) by reflexivity.
  split; [exact Hr|]. split; [exact Hp|].
  destruct (callbacks_settle _ 0 Hr Hp) as (_ & He & _ & _ & Hs).
  split; [exact (proj2 (He "no-speech")) | exact Hs].
Defined.

End VoiceMore.

(** ** The view helpers *)
Module ViewFacts.
Import JS Host DOM Spec Spec2 TabFacts.

Lemma same_ids_refl d : same_ids d d.
Proof. reflexivity. Qed.

Lemma same_ids_trans d1 d2 d3 : same_ids d1 d2 -> same_ids d2 d3 -> same_ids d1 d3.
Proof. unfold same_ids. congruence. Qed.

Lemma same_ids_alter (f : Element -> Element) (r : nat) (d : list Element) :
  (forall e, elem_id (f e) = elem_id e) -> same_ids d (alter f r d).
Proof.
  intros Hf. unfold same_ids. revert r. induction d as [|e d IH]; intros r; [reflexivity|].
  destruct r as [|r]; cbn; [now rewrite Hf | now rewrite IH].
Qed.

Lemma positions_same_ids (i : string) (n : nat) (d d' : list Element) :
  same_ids d d' ->
  positions (fun e => bool_decide (elem_id e = i)) n d'
  = positions (fun e => bool_decide (elem_id e = i)) n d.
Proof.
  unfold same_ids. revert n d'. induction d as [|e d IH]; intros n [|e' d'] H; cbn in *;
    try discriminate; [reflexivity|].
  inversion H as [[He Hd]]. rewrite He, (IH (S n) d' Hd). reflexivity.
Qed.

Lemma same_ids_length (d d' : list Element) : same_ids d d' -> length d' = length d.
Proof. unfold same_ids. intros H. apply (f_equal length) in H. now rewrite !length_map in H. Qed.

Lemma restyles_ret {A} (a : A) : restyles (ret a).
Proof. intros p. exists (document p), a. split; [unfold ret; now destruct p | reflexivity]. Qed.

Lemma restyles_gets {A} (f : Page -> A) : restyles (gets f).
Proof.
  intros p. exists (document p), (f p). split; [unfold gets; now destruct p | reflexivity].
Qed.

Lemma restyles_update (r : nat) (f : Element -> Element) :
  (forall e, elem_id (f e) = elem_id e) -> restyles (update r f).
Proof. intros Hf p. eexists _, tt. split; [reflexivity | now apply same_ids_alter]. Qed.

Lemma restyles_bind {A B} (m : M A) (k : A -> M B) :
  restyles m -> (forall a, restyles (k a)) -> restyles (bind m k).
Proof.
  intros Hm Hk p. destruct (Hm p) as (d & a & Hd & Hi). unfold bind. rewrite Hd.
  destruct (Hk a (set_document d p)) as (d' & b & Hd' & Hi'). rewrite Hd'.
  exists d', b. split; [reflexivity|]. eapply same_ids_trans; [exact Hi | exact Hi'].
Qed.

Lemma restyles_when_present (o : option nat) (f : nat -> M unit) :
  (forall r, restyles (f r)) -> restyles (when_present o f).
Proof. intros Hf. destruct o; [apply Hf | apply restyles_ret]. Qed.

Lemma toggle_keeps_id c e : elem_id (View.classList_toggle c e) = elem_id e.
Proof.
  unfold View.classList_toggle, classList_add.
  destruct (has_class c e); [reflexivity|]. now destruct (has_class c e).
Qed.

Lemma add_keeps_id c e : elem_id (classList_add c e) = elem_id e.
Proof. unfold classList_add. now destruct (has_class c e). Qed.

Ltac restyle := repeat (intros; first
  [ apply restyles_ret | apply restyles_gets
  | apply restyles_update; intros;
      first [reflexivity | apply add_keeps_id | apply toggle_keeps_id]
  | apply restyles_bind | apply restyles_when_present ]).

Lemma restyles_helper (h : Helper) : restyles (helper h).
Proof.
  destruct h; cbn [helper];
    unfold UI.showLoading, UI.hideLoading, UI.showStatus, UI.hideStatus, View.clearInput,
      View.disableButton, View.enableButton, View.toggleElement, View.addClass,
      View.removeClass, View.scrollToElement, View.displayTextAnswer, View.scrollToElement,
      getElementById; restyle.
Qed.

Lemma lookup_id_Some (i : string) (d : list Element) (k : nat) :
  lookup_id i d = Some k -> exists e, d !! k = Some e /\ elem_id e = i /\ i <> "".
Proof.
  unfold lookup_id. case_bool_decide as Hi; [discriminate|].
  intros H. apply head_elem_of, in_positions_0 in H as (e & He & Hid).
  exists e. split; [exact He|]. split; [now apply bool_decide_eq_true in Hid | exact Hi].
Qed.

Lemma element_by_id_None (i : string) (d : list Element) :
  element_by_id i d = None -> lookup_id i d = None.
Proof.
  unfold element_by_id.
  destruct (lookup_id i d) as [r|] eqn:Hh; [|reflexivity].
  intros Hr. apply lookup_id_Some in Hh as (e & He & _). congruence.
Qed.

Lemma element_by_id_Some (i : string) (d : list Element) (e : Element) :
  element_by_id i d = Some e ->
  exists r, lookup_id i d = Some r /\ d !! r = Some e /\ elem_id e = i.
Proof.
  unfold element_by_id.
  destruct (lookup_id i d) as [r|] eqn:Hh; [|discriminate].
  intros Hr. exists r. split; [reflexivity|]. split; [exact Hr|].
  apply lookup_id_Some in Hh as (e' & He' & Hid & _). congruence.
Qed.

Lemma helper_result (h : Helper) (p : Page) : result (helper h) p = inr tt.
Proof. destruct (restyles_helper h p) as (d & [] & Hrun & _). unfold result. now rewrite Hrun. Qed.

Lemma helper_absent (h : Helper) (p : Page) :
  (forall i, i ∈ ids_of h -> element_by_id i (document p) = None) ->
  run (helper h) p = p.
Proof.
  intros Hnone.
  assert (H : forall i, i ∈ ids_of h -> lookup_id i (document p) = None)
    by (intros i Hi; apply element_by_id_None, Hnone, Hi).
  clear Hnone.
  destruct h; cbn [helper ids_of] in *;
    unfold run, UI.showLoading, UI.hideLoading, UI.showStatus, UI.hideStatus, View.clearInput,
      View.disableButton, View.enableButton, View.toggleElement,
      View.scrollToElement, View.displayTextAnswer, View.scrollToElement,
      getElementById, bind, gets;
    repeat (first
      [ rewrite H by (repeat (first [apply list_elem_of_here | apply list_elem_of_further]))
      | progress cbn -[lookup_id] ]);
    reflexivity.
Qed.

Lemma check_token_cases (c : string) (p : Page) :
  check_token c p =
    (p, if bool_decide (c = "") then inl (DOMException "SyntaxError")
        else if contains_whitespace c then inl (DOMException "InvalidCharacterError")
        else inr tt).
Proof.
  unfold check_token. destruct (bool_decide (c = "")); [reflexivity|].
  destruct (contains_whitespace c); reflexivity.
Qed.

(** What [addClass] and [removeClass] do, written out. *)
Lemma class_helpers_run (i c : string) (p : Page) :
  let outcome (f : Element -> Element) :=
    match lookup_id i (document p) with
    | None => (p, inr tt)
    | Some r =>
        if bool_decide (c = "") then (p, inl (DOMException "SyntaxError"))
        else if contains_whitespace c then (p, inl (DOMException "InvalidCharacterError"))
        else (set_document (alter f r (document p)) p, inr tt)
    end in
  View.addClass i c p = outcome (classList_add c) /\
  View.removeClass i c p = outcome (classList_remove c).
Proof.
  cbv zeta. unfold View.addClass, View.removeClass, getElementById, bind, gets.
  destruct (lookup_id i (document p)) as [r|]; [|split; reflexivity].
  cbn [when_present]. rewrite !check_token_cases.
  destruct (bool_decide (c = "")); [split; reflexivity|].
  destruct (contains_whitespace c); split; reflexivity.
Qed.

(** X12: the view helpers that look elements up by id and take no class
    from the caller ([showLoading], [hideLoading], [showStatus],
    [hideStatus], [clearInput], [disableButton], [enableButton],
    [toggleElement], [scrollToElement], [displayTextAnswer]) never throw,
    change nothing of the page but the document, and do nothing at all
    when none of the ids they look up is in the document.  [addClass] and
    [removeClass] do nothing either when the element is missing; when it
    is there they throw a [DOMException] on the empty class
    ([SyntaxError]) and on a class with white space
    ([InvalidCharacterError]), leaving the page as it is, and otherwise
    update the classes of that element only. *)
Theorem helpers_are_safe (p : Page) :
  (forall h,
     result (helper h) p = inr tt /\
     (exists d, run (helper h) p = set_document d p) /\
     ((forall i, i ∈ ids_of h -> element_by_id i (document p) = None) ->
      run (helper h) p = p)) /\
  (forall i c,
     (lookup_id i (document p) = None ->
      View.addClass i c p = (p, inr tt) /\ View.removeClass i c p = (p, inr tt)) /\
     (forall r, lookup_id i (document p) = Some r ->
        (c = "" ->
         View.addClass i c p = (p, inl (DOMException "SyntaxError")) /\
         View.removeClass i c p = (p, inl (DOMException "SyntaxError"))) /\
        (c <> "" -> contains_whitespace c = true ->
         View.addClass i c p = (p, inl (DOMException "InvalidCharacterError")) /\
         View.removeClass i c p = (p, inl (DOMException "InvalidCharacterError"))) /\
        (c <> "" -> contains_whitespace c = false ->
         View.addClass i c p =
           (set_document (alter (classList_add c) r (document p)) p, inr tt) /\
         View.removeClass i c p =
           (set_document (alter (classList_remove c) r (document p)) p, inr tt)))).
Proof.
  split.
  - intros h. split; [apply helper_result|]. split; [|apply helper_absent].
    destruct (restyles_helper h p) as (d & [] & Hrun & _).
    exists d. unfold run. now rewrite Hrun.
  - intros i c. destruct (class_helpers_run i c p) as (Ha & Hr). cbv zeta in Ha, Hr.
    rewrite Ha, Hr. clear Ha Hr.
    split.
    + intros ->. split; reflexivity.
    + intros r ->.
      split; [|split].
      * intros ->. rewrite bool_decide_true by reflexivity. split; reflexivity.
      * intros Hc Hw. rewrite bool_decide_false by exact Hc. rewrite Hw. split; reflexivity.
      * intros Hc Hw. rewrite bool_decide_false by exact Hc. rewrite Hw. split; reflexivity.
Qed.

Lemma set_document_id (p : Page) : set_document (document p) p = p.
Proof. now destruct p. Qed.

Lemma helper_run (h : Helper) (p : Page) :
  run (helper h) p = set_document (restyled h (document p)) p.
Proof.
  destruct h; cbn [helper restyled];
    unfold run, UI.showLoading, UI.hideLoading, UI.showStatus, UI.hideStatus, View.clearInput,
      View.disableButton, View.enableButton, View.toggleElement, View.addClass,
      View.removeClass, View.scrollToElement, View.displayTextAnswer, View.scrollToElement,
      getElementById, bind, gets; cbn -[lookup_id];
    repeat (match goal with
            | |- context [lookup_id ?i (document p)] =>
                destruct (lookup_id i (document p)); cbn -[lookup_id]
            end);
    repeat (match goal with
            | |- context [when_present ?o _] => destruct o; cbn -[lookup_id]
            end);
    rewrite ?set_document_id; try reflexivity.
  all: rewrite ?list_alter_alter_eq; reflexivity.
Qed.

Lemma same_ids_on (o : option nat) (f : Element -> Element) (d : list Element) :
  (forall e, elem_id (f e) = elem_id e) -> same_ids d (on o f d).
Proof. intros Hf. destruct o; [now apply same_ids_alter | reflexivity]. Qed.

Lemma find_same_ids (i : string) (d d' : list Element) :
  same_ids d d' -> lookup_id i d' = lookup_id i d.
Proof. intros H. unfold lookup_id. now rewrite (positions_same_ids i 0 d d' H). Qed.

Lemma find_on (i : string) (o : option nat) (f : Element -> Element) (d : list Element) :
  (forall e, elem_id (f e) = elem_id e) -> lookup_id i (on o f d) = lookup_id i d.
Proof. intros Hf. apply find_same_ids, same_ids_on, Hf. Qed.

Lemma lookup_on (o : option nat) (f : Element -> Element) (d : list Element) (k : nat) :
  on o f d !! k = (if bool_decide (o = Some k) then f else id) <$> d !! k.
Proof.
  destruct o as [r|]; cbn.
  - rewrite lookup_alter_if. repeat case_bool_decide; try reflexivity; congruence.
  - rewrite bool_decide_false by discriminate. now destruct (d !! k).
Qed.

Lemma find_Some (i : string) (d : list Element) (k : nat) :
  lookup_id i d = Some k -> exists e, d !! k = Some e /\ elem_id e = i.
Proof. intros H. apply lookup_id_Some in H as (e & He & Hid & _). eauto. Qed.

Lemma add_idempotent (c : string) (e : Element) :
  classList_add c (classList_add c e) = classList_add c e.
Proof.
  unfold classList_add. destruct (has_class c e) eqn:Hc.
  - now rewrite Hc.
  - unfold has_class. cbn [classList set_classList].
    rewrite bool_decide_true; [reflexivity|].
    apply elem_of_app. right. apply list_elem_of_singleton. reflexivity.
Qed.

Ltac keeps_id :=
  intros; first [reflexivity | apply add_keeps_id | apply toggle_keeps_id].

Ltac clash Hk :=
  repeat match goal with
         | H : lookup_id _ _ = Some _ |- _ => apply find_Some in H as (? & ? & ?)
         end;
  congruence.

Lemma helper_twice (h : Helper) (p : Page) :
  is_toggle h = false ->
  run (helper h) (run (helper h) p) = run (helper h) p.
Proof.
  intros Ht. rewrite !helper_run. cbn [document set_document].
  change (set_document ?d2 (set_document ?d1 p)) with (set_document d2 p). f_equal.
  generalize (document p). intros d.
  destruct h; try discriminate Ht; cbn [restyled];
    rewrite ?find_on by keeps_id; try reflexivity;
    apply list_eq; intros k; rewrite !lookup_on;
    (destruct (d !! k) as [e|] eqn:Hk; [cbn; f_equal | reflexivity]);
    repeat case_bool_decide; cbn;
    try reflexivity; try apply add_idempotent; try apply remove_idempotent;
    try (f_equal; apply add_idempotent); try (f_equal; apply remove_idempotent).
  all: clash Hk.
Qed.

Lemma class_helper_twice (i c : string) (f : Element -> Element) (m : M unit) (p : Page) :
  (forall e, elem_id (f e) = elem_id e) ->
  (forall e, f (f e) = f e) ->
  (forall q, m q =
     match lookup_id i (document q) with
     | None => (q, inr tt)
     | Some r =>
         if bool_decide (c = "") then (q, inl (DOMException "SyntaxError"))
         else if contains_whitespace c then (q, inl (DOMException "InvalidCharacterError"))
         else (set_document (alter f r (document q)) q, inr tt)
     end) ->
  run m (run m p) = run m p.
Proof.
  intros Hid Hf Hm. unfold run. rewrite (Hm p).
  destruct (lookup_id i (document p)) as [r|] eqn:Hr; cbn [fst]; [|now rewrite Hm, Hr].
  destruct (bool_decide (c = "")) eqn:Hc; cbn [fst]; [now rewrite Hm, Hr, ?Hc|].
  destruct (contains_whitespace c) eqn:Hw; cbn [fst]; [now rewrite Hm, Hr, ?Hc, ?Hw|].
  rewrite Hm. cbn [document set_document].
  rewrite (find_same_ids i (document p)) by (apply same_ids_alter, Hid).
  rewrite Hr, ?Hc, ?Hw. cbn [fst].
  change (set_document ?d2 (set_document ?d1 p)) with (set_document d2 p). f_equal.
  rewrite list_alter_alter_eq. apply list_alter_ext; [|reflexivity].
  intros e _. apply Hf.
Qed.

(** X13: every helper of X12 but [toggleElement] is idempotent: calling it
    twice leaves the page that calling it once leaves.  So are [addClass]
    and [removeClass], also where they throw. *)
Theorem helpers_idempotent (p : Page) :
  (forall h, is_toggle h = false ->
     run (helper h) (run (helper h) p) = run (helper h) p) /\
  (forall i c,
     run (View.addClass i c) (run (View.addClass i c) p) = run (View.addClass i c) p /\
     run (View.removeClass i c) (run (View.removeClass i c) p) =
       run (View.removeClass i c) p).
Proof.
  split; [intros h; apply helper_twice|].
  intros i c. split.
  - apply (class_helper_twice i c (classList_add c)); [apply add_keeps_id | apply add_idempotent|].
    intros q. exact (proj1 (class_helpers_run i c q)).
  - apply (class_helper_twice i c (classList_remove c));
      [reflexivity | apply remove_idempotent|].
    intros q. exact (proj2 (class_helpers_run i c q)).
Qed.

Lemma helpers_idempotent_witness :
  run (UI.showStatus "voice-status" "Listening..." "info")
    (run (UI.showStatus "voice-status" "Listening..." "info") (served healthy)) =
  run (UI.showStatus "voice-status" "Listening..." "info") (served healthy) /\
  run (View.addClass "loading" "") (run (View.addClass "loading" "") (served healthy)) =
  run (View.addClass "loading" "") (served healthy).
Proof.
  destruct (helpers_idempotent (served healthy)) as (H1 & H2).
  split.
  - exact (H1 (HShowStatus "voice-status" "Listening..." "info") eq_refl).
  - exact (proj1 (H2 "loading" "")).
Defined.






(** X15: [showStatus] gives the element the message, the classes
    [status-message] and the type, and [display: block]; [hideStatus]
    after it hides the element and resets the classes to [status-message],
    but leaves the message in the element. *)
Theorem status_shown_then_hidden (i message type_ : string) (p : Page) (e : Element) :
  element_by_id i (document p) = Some e ->
  element_by_id i (document (run (UI.showStatus i message type_) p)) =
    Some (set_display "block"
            (set_classList (class_tokens ("status-message " +:+ type_))
               (set_textContent message e))) /\
  element_by_id i
    (document (run (UI.hideStatus i) (run (UI.showStatus i message type_) p))) =
    Some (set_display "none"
            (set_classList ["status-message"] (set_textContent message e))).
Proof.
  intros He. apply element_by_id_Some in He as (r & Hr & Her & Hid).
  change (UI.showStatus i message type_) with (helper (HShowStatus i message type_)).
  change (UI.hideStatus i) with (helper (HHideStatus i)).
  rewrite !helper_run. cbn [document set_document restyled].
  unfold element_by_id.
  rewrite !find_on by keeps_id. rewrite Hr. cbn [on].
  rewrite !list_lookup_alter_eq, Her. split; reflexivity.
Qed.

Lemma status_shown_then_hidden_witness :
  element_by_id "voice-status" (document (served healthy)) =
    Some (plain "voice-status" ["status-message"]) /\
  element_by_id "voice-status"
    (document (run (UI.hideStatus "voice-status")
                 (run (UI.showStatus "voice-status" "Listening..." "info") (served healthy)))) =
    Some (set_display "none"
            (set_textContent "Listening..." (plain "voice-status" ["status-message"]))).
Proof.
  assert (H : element_by_id "voice-status" (document (served healthy)) =
              Some (plain "voice-status" ["status-message"])) by reflexivity.
  split; [exact H|].
  destruct (status_shown_then_hidden "voice-status" "Listening..." "info"
              (served healthy) _ H) as (_ & H2).
  exact H2.
Defined.

Lemma element_by_id_find (i : string) (d : list Element) (e : Element) :
  element_by_id i d = Some e -> exists r, lookup_id i d = Some r /\ d !! r = Some e.
Proof.
  intros H. apply element_by_id_Some in H as (r & Hr & He & _). exists r. split; assumption.
Qed.

Lemma displayTextAnswer_shows (answer : Value) (p : Page) :
  let d' := document (run (View.displayTextAnswer answer) p) in
  (forall e, element_by_id "text-answer" d' = Some e ->
     textContent e = View.dom_string answer) /\
  (forall e, element_by_id "text-result" d' = Some e -> has_class "hidden" e = false) /\
  (forall e, element_by_id "audio-player" d' = Some e -> has_class "hidden" e = true).
Proof.
  change (View.displayTextAnswer answer) with (helper (HDisplayTextAnswer answer)).
  rewrite helper_run. cbn [document set_document restyled].
  generalize (document p). intros d. cbv zeta.
  split; [|split]; intros e He; apply element_by_id_find in He as (r & Hr & He);
    rewrite !find_on in Hr by keeps_id; rewrite !lookup_on in He;
    destruct (d !! r) as [e0|] eqn:H0; try discriminate He; cbn in He;
    inversion He; subst e; clear He;
    repeat case_bool_decide; cbn;
    rewrite ?has_class_add, ?has_class_remove;
    rewrite ?(bool_decide_true ("hidden" = "hidden")) by reflexivity;
    rewrite ?andb_false_r, ?orb_true_r;
    try reflexivity; try congruence.
  all: clash H0.
Qed.

Lemma length_app_string (a b : string) :
  String.length (a +:+ b) = String.length a + String.length b.
Proof.
  induction a as [|c a IH]; [reflexivity|].
  change (S (String.length (a +:+ b)) = S (String.length a + String.length b)).
  now rewrite IH.
Qed.

Lemma length_substring0 (n : nat) (s : string) :
  String.length (String.substring 0 n s) = Nat.min n (String.length s).
Proof.
  revert n. induction s as [|c s IH]; intros [|n]; cbn; try reflexivity.
  now rewrite IH.
Qed.

Lemma substring0_prefix (n : nat) (s : string) :
  String.prefix (String.substring 0 n s) s = true.
Proof.
  revert n. induction s as [|c s IH]; intros [|n]; cbn; try reflexivity.
  rewrite IH. now destruct (Ascii.ascii_dec c c).
Qed.

(** X16: [truncateText] on a string and a whole number.  A text of at most
    [maxLength] characters is returned as it is; a longer one is cut to its
    first [maxLength] characters, followed by three dots, so the result has
    [maxLength + 3] characters, more than the limit; and for a negative
    [maxLength] every non-empty text becomes the three dots alone. *)
Theorem truncateText_cases (text_ : string) (maxLength : Z) :
  ((Z.of_nat (String.length text_) <= maxLength)%Z -> View.truncateText text_ maxLength = text_) /\
  ((0 <= maxLength < Z.of_nat (String.length text_))%Z ->
     View.truncateText text_ maxLength = View.substring0 text_ maxLength +:+ "..." /\
     String.prefix (View.substring0 text_ maxLength) text_ = true /\
     Z.of_nat (String.length (View.truncateText text_ maxLength)) = (maxLength + 3)%Z) /\
  ((maxLength < 0)%Z ->
     View.truncateText text_ maxLength = if bool_decide (text_ = "") then "" else "...").
Proof.
  unfold View.truncateText, View.substring0. split; [|split].
  - intros H. apply Z.leb_le in H. rewrite H. now rewrite orb_true_r.
  - intros [H0 H1].
    assert (Hne : truthy (VStr text_) = true) by (destruct text_; [cbn in H1; lia | reflexivity]).
    rewrite Hne. cbn [negb orb].
    replace (Z.of_nat (String.length text_) <=? maxLength)%Z with false
      by (symmetry; apply Z.leb_gt; lia).
    split; [reflexivity|]. split; [apply substring0_prefix|].
    rewrite length_app_string, length_substring0. cbn. lia.
  - intros Hneg. destruct text_ as [|c t]; [reflexivity|].
    cbn [truthy negb orb].
    replace (Z.of_nat (String.length (String c t)) <=? maxLength)%Z with false
      by (symmetry; apply Z.leb_gt; lia).
    rewrite bool_decide_false by discriminate.
    destruct maxLength; try lia. reflexivity.
Qed.

End ViewFacts.

(** ** The controller: text and image queries *)
Module ControllerFacts.
Import JS Host DOM Spec Spec2 ApiFacts TabFacts MainFacts StringFacts ApiMore ViewFacts.

#[local] Arguments JSON_stringify : simpl never.
#[local] Arguments toString : simpl never.
#[local] Arguments trim : simpl never.
#[local] Arguments pretty : simpl never.
#[local] Arguments String.app : simpl never.

Lemma ignores_ret {A} (a : A) : ignores_document (ret a).
Proof. intros d p. reflexivity. Qed.

Lemma ignores_throw {A} e : ignores_document (@throw A e).
Proof. intros d p. reflexivity. Qed.

Lemma ignores_lift {A} (r : exn + A) : ignores_document (lift r).
Proof. intros d p. reflexivity. Qed.

Lemma ignores_base : ignores_document (gets API_BASE_URL).
Proof. intros d p. reflexivity. Qed.

Lemma ignores_log e : ignores_document (log e).
Proof. intros d p. reflexivity. Qed.

Lemma ignores_fetch r : ignores_document (fetch r).
Proof. intros d p. reflexivity. Qed.

Lemma ignores_bind {A B} (m : M A) (k : A -> M B) :
  ignores_document m -> (forall a, ignores_document (k a)) -> ignores_document (bind m k).
Proof.
  intros Hm Hk d p. unfold bind, run, result. rewrite Hm.
  unfold run, result. destruct (m p) as [p1 [e|a]]; cbn; [reflexivity|].
  rewrite Hk. reflexivity.
Qed.

Lemma ignores_try_catch {A} (m : M A) (h : exn -> M A) :
  ignores_document m -> (forall e, ignores_document (h e)) -> ignores_document (try_catch m h).
Proof.
  intros Hm Hk d p. unfold try_catch, run, result. rewrite Hm.
  unfold run, result. destruct (m p) as [p1 [e|a]]; cbn; [|reflexivity].
  rewrite Hk. reflexivity.
Qed.

Ltac ignore :=
  repeat first
    [ apply ignores_ret | apply ignores_throw | apply ignores_lift | apply ignores_base
    | apply ignores_log | apply ignores_fetch
    | apply ignores_bind; [|intros ?] | apply ignores_try_catch; [|intros ?]
    | progress unfold API.is_blank, API.throw_response_error, json, blob, console_error
    | match goal with |- ignores_document (if ?b then _ else _) => destruct b end
    | match goal with |- ignores_document (match ?o with Some _ => _ | None => _ end) => destruct o end ].

Lemma ignores_healthCheck : ignores_document API.healthCheck.
Proof. unfold API.healthCheck. ignore. Qed.

Lemma ignores_queryText q k : ignores_document (API.queryText q k).
Proof. unfold API.queryText. ignore. Qed.

Lemma ignores_imageQuery f q k : ignores_document (API.imageQuery f q k).
Proof. unfold API.imageQuery. ignore. Qed.

Lemma ignores_textToSpeech t : ignores_document (API.textToSpeech t).
Proof. unfold API.textToSpeech. ignore. Qed.

Lemma helper_eq (h : Helper) (p : Page) :
  helper h p = (set_document (restyled h (document p)) p, inr tt).
Proof.
  pose proof (helper_run h p) as Hrun.
  destruct (restyles_helper h p) as (d & [] & Heq & _).
  unfold run in Hrun. rewrite Heq in *. cbn in Hrun. now rewrite Hrun.
Qed.

Lemma answer_of_pure (r : Value) (p q : Page) :
  Controller.answer_of r p = (p, result (Controller.answer_of r) q).
Proof.
  unfold Controller.answer_of, Controller.rejected, Controller.throw_result_error,
    Controller.opt_prop, result, bind, lift, ret, throw.
  repeat (case_match; cbn in *; simplify_eq; try reflexivity).
Qed.

(** X17: how [handleTextQuery] reads the answer out of what the backend
    returned.  It changes nothing, and an answer it accepts is truthy.  A
    falsy result fails with "Query failed"; a result with [success] being
    [false] fails with its [error], or "Query failed" when that is falsy; a
    truthy result that is no object has no answer.  For an object,
    [data.answer] is used unless it is [null] or [undefined], and only then
    the top-level [answer]: an empty [data.answer] is not replaced by the
    top-level one and fails with "No answer returned from backend". *)
Theorem answer_of_envelope (r : Value) (p : Page) :
  run (Controller.answer_of r) p = p /\
  (forall a, result (Controller.answer_of r) p = inr a -> truthy a = true /\ truthy r = true) /\
  (truthy r = false -> result (Controller.answer_of r) p = inl (Error "Query failed")) /\
  (truthy r = true -> (forall props, r <> VObj props) ->
   result (Controller.answer_of r) p = inl (Error "No answer returned from backend")) /\
  (forall props, r = VObj props ->
   let field k := default VUndefined (assoc k props) in
   let inner :=
     match field "data" with
     | VObj inside => default VUndefined (assoc "answer" inside)
     | _ => VUndefined
     end in
   let answer := if Controller.nullish inner then field "answer" else inner in
   result (Controller.answer_of r) p =
     if Controller.is_false (field "success")
     then inl (API.new_Error (or_else (field "error") (VStr "Query failed")))
     else if truthy answer then inr answer
          else inl (Error "No answer returned from backend")).
Proof.
  split; [unfold run; now rewrite (answer_of_pure r p p)|].
  unfold Controller.answer_of, Controller.rejected, Controller.throw_result_error,
    Controller.opt_prop, result, bind, lift, ret, throw.
  split; [|split; [|split]].
  - intros a. repeat (case_match; cbn in *; simplify_eq; try discriminate);
      intros [= <-]; split; try reflexivity; try assumption;
      try (now apply negb_false_iff).
  - intros Hr. rewrite Hr. cbn. destruct r; cbn in *; try discriminate; try reflexivity.
  - intros Hr Hobj. rewrite Hr. cbn.
    destruct r; cbn in *; try discriminate; try reflexivity.
    all: try (destruct b; [reflexivity|discriminate]).
    all: now destruct (Hobj props).
  - intros props ->. cbn.
    destruct (default VUndefined (assoc "success" props)) as [| |[]| | | | |]; cbn;
      try reflexivity;
      (destruct (default VUndefined (assoc "data" props)); cbn; try reflexivity;
       repeat (case_match; cbn in *; simplify_eq; try reflexivity; try congruence)).
Qed.

Lemma truthy_trim (s : string) : truthy (VStr s) = negb (bool_decide (s = "")).
Proof. destruct s; reflexivity. Qed.

Lemma run_ignores {A} (m : M A) d p :
  ignores_document m -> m (set_document d p) = (set_document d (run m p), result m p).
Proof. intros H. apply H. Qed.

Lemma set_document_twice d d' p : set_document d (set_document d' p) = set_document d p.
Proof. reflexivity. Qed.

(** The [catch] block of [handleTextQuery]. *)
Lemma status_catch_run (i m l : string) (err : exn) (d : list Element) (p : Page) :
  (UI.hideLoading;;; UI.showStatus i m "error";;; console_error l (Some err))
    (set_document d p) =
  (set_events (events p ++ [EConsoleError l (Some err)])
     (set_document (restyled (HShowStatus i m "error") (restyled HHideLoading d)) p), inr tt).
Proof.
  unfold bind at 1. change UI.hideLoading with (helper HHideLoading). rewrite helper_eq.
  unfold bind at 1. change (UI.showStatus i m "error") with (helper (HShowStatus i m "error")).
  rewrite helper_eq. reflexivity.
Qed.

(** The page [handleTextQuery] leaves, written out. *)
Lemma handleTextQuery_run (p : Page) (r : nat) (e : Element) :
  lookup_id "query-input" (document p) = Some r ->
  document p !! r = Some e ->
  trim (value e) <> "" ->
  let call := API.queryText (VStr (trim (value e))) (VNum 5) in
  let d1 := restyled HHideLoading
              (restyled (HHideStatus "voice-status")
                 (restyled (HShowLoading "Thinking...") (document p))) in
  Controller.handleTextQuery p =
    match result (bind call Controller.answer_of) p with
    | inr a => (set_document (restyled (HDisplayTextAnswer a) d1) (run call p), inr tt)
    | inl err =>
        (set_events (events (run call p) ++ [EConsoleError "Query error:" (Some err)])
           (set_document
              (restyled (HShowStatus "voice-status" ("Error: " +:+ message_of err) "error") d1)
              (run call p)), inr tt)
    end.
Proof.
  intros Hf He Ht call d1.
  unfold Controller.handleTextQuery.
  unfold bind at 1. unfold getElementById at 1, gets at 1.  rewrite Hf. cbn [non_null]. unfold bind at 1. unfold ret at 1.
  unfold bind at 1. unfold read at 1. rewrite He.
  rewrite truthy_trim, bool_decide_false by exact Ht. cbn [negb].
  unfold bind at 1. change (UI.showLoading ?t) with (helper (HShowLoading t)).
  rewrite helper_eq.
  unfold bind at 1. change (UI.hideStatus ?t) with (helper (HHideStatus t)).
  rewrite helper_eq. cbn [document set_document].
  match goal with
  | |- context [set_document ?d (set_document ?d' p)] =>
      change (set_document d (set_document d' p)) with (set_document d p)
  end.
  unfold try_catch at 1. unfold bind at 1.
  fold call. rewrite (run_ignores call) by apply ignores_queryText.
  assert (Hres : result (bind call Controller.answer_of) p =
                 match result call p with
                 | inl err => inl err
                 | inr res => result (Controller.answer_of res) (run call p)
                 end).
  { unfold result, run, bind. destruct (call p) as [p1 [|]]; reflexivity. }
  rewrite Hres. clear Hres.
  generalize (result call p) (run call p). intros [err|res] p1.
  - exact (status_catch_run "voice-status" _ "Query error:" err _ p1).
  - unfold Controller.handleTextQuery_then. unfold bind at 1.
    rewrite (answer_of_pure res _ p1).
    destruct (result (Controller.answer_of res) p1) as [err|a].
    + exact (status_catch_run "voice-status" _ "Query error:" err _ p1).
    + unfold bind at 1. change UI.hideLoading with (helper HHideLoading). rewrite helper_eq.
      change (View.displayTextAnswer a) with (helper (HDisplayTextAnswer a)).
      rewrite helper_eq. reflexivity.
Qed.

Lemma same_ids_restyled (h : Helper) (d : list Element) : same_ids d (restyled h d).
Proof.
  destruct h; cbn [restyled];
    repeat first [ apply same_ids_refl
                 | eapply same_ids_trans; [|apply same_ids_on; keeps_id] ].
Qed.

Lemma find_restyled (i : string) (h : Helper) (d : list Element) :
  lookup_id i (restyled h d) = lookup_id i d.
Proof. apply find_same_ids, same_ids_restyled. Qed.

Lemma queryText_fetches (p : Page) (t : string) :
  trim t <> "" ->
  fetches (events (run (API.queryText (VStr t) (VNum 5)) p)) =
    (fetches (events p) ++
     [ {| url := API_BASE_URL p +:+ "/api/query"; method := "POST";
          headers := [("Content-Type", "application/json")];
          body := BodyText <$>
                    JSON_stringify (VObj [("query", VStr (trim t)); ("top_k", VNum 5)]) |} ])%list.
Proof.
  intros Hq.
  assert (Ht : truthy (VStr t) = true) by (destruct t; [contradiction|reflexivity]).
  unfold API.queryText. exec. rewrite Ht. cbn.
  rewrite bool_decide_false by assumption. cbn.
  name_request.
  - finish_log.
  - exec. destruct (ok r); cbn.
    + destruct (parsed r); finish_log.
    + destruct (parsed r) as [v|]; cbn; [destruct (get_prop v "error")|]; finish_log.
Qed.

Lemma queryText_logs (p : Page) q k :
  exists l, run (API.queryText q k) p = set_events l p.
Proof. apply (call_only_logs (CQueryText q k) p). Qed.

(** X18: [handleTextQuery] without a question.  Without the element
    [query-input] it throws a [TypeError] and leaves the page as it is.
    When the input holds white space only it is exactly
    [showStatus('voice-status', 'Please enter a question', 'error')]: it
    completes, logs nothing, so sends no request, and the status element
    shows the message as an error. *)
Theorem handleTextQuery_blank (p : Page) :
  (element_by_id "query-input" (document p) = None ->
   exists m, Controller.handleTextQuery p = (p, inl (TypeError m))) /\
  (forall e, element_by_id "query-input" (document p) = Some e -> trim (value e) = "" ->
     Controller.handleTextQuery p =
       UI.showStatus "voice-status" "Please enter a question" "error" p /\
     result Controller.handleTextQuery p = inr tt /\
     events (run Controller.handleTextQuery p) = events p /\
     forall s, element_by_id "voice-status" (document p) = Some s ->
       element_by_id "voice-status" (document (run Controller.handleTextQuery p)) =
         Some (set_display "block"
                 (set_classList ["status-message"; "error"]
                    (set_textContent "Please enter a question" s)))).
Proof.
  split.
  - intros Hn. apply element_by_id_None in Hn.
    eexists. unfold Controller.handleTextQuery, bind, getElementById, gets.
    rewrite Hn. reflexivity.
  - intros e He Ht.
    assert (Heq : Controller.handleTextQuery p =
                  UI.showStatus "voice-status" "Please enter a question" "error" p).
    { apply element_by_id_find in He as (r & Hr & He).
      unfold Controller.handleTextQuery.
      unfold bind at 1. unfold getElementById at 1, gets at 1.
      rewrite Hr. cbn [non_null]. unfold bind at 1. unfold ret at 1.
      unfold bind at 1. unfold read at 1. rewrite He, Ht. reflexivity. }
    split; [exact Heq|].
    unfold run, result. rewrite Heq.
    change (UI.showStatus ?i ?m ?t) with (helper (HShowStatus i m t)).
    rewrite helper_eq. cbn [fst snd events document set_document].
    split; [reflexivity|]. split; [reflexivity|].
    intros s Hs. apply element_by_id_find in Hs as (k & Hk & Hs).
    unfold element_by_id. fold (lookup_id "voice-status"
      (restyled (HShowStatus "voice-status" "Please enter a question" "error") (document p))).
    rewrite find_restyled, Hk. cbn [restyled]. rewrite Hk. cbn [on].
    rewrite list_lookup_alter_eq, Hs. reflexivity.
Qed.

(** X19: [handleTextQuery] with a question never throws, and sends exactly
    one request: the POST of [queryText] to [<base>/api/query] whose body
    is the JSON text of [{query: <the trimmed input>, top_k: 5}].  Of the
    page it changes the log and elements of the document only. *)
Theorem handleTextQuery_request (p : Page) (e : Element) :
  element_by_id "query-input" (document p) = Some e ->
  trim (value e) <> "" ->
  result Controller.handleTextQuery p = inr tt /\
  requests Controller.handleTextQuery p =
    [ {| url := API_BASE_URL p +:+ "/api/query"; method := "POST";
         headers := [("Content-Type", "application/json")];
         body := BodyText <$>
                   JSON_stringify (VObj [("query", VStr (trim (value e))); ("top_k", VNum 5)]) |} ] /\
  exists d l, run Controller.handleTextQuery p = set_events l (set_document d p) /\
              same_ids (document p) d.
Proof.
  intros He Ht. apply element_by_id_find in He as (r & Hr & He).
  pose proof (handleTextQuery_run p r e Hr He Ht) as Hrun. cbv zeta in Hrun.
  pose proof (queryText_fetches p (trim (value e))) as Hf.
  rewrite trim_idempotent in Hf. specialize (Hf Ht).
  destruct (queryText_logs p (VStr (trim (value e))) (VNum 5)) as [l Hl].
  unfold requests, run, result. rewrite Hrun.
  destruct (result _ p) as [err|a]; cbn [fst snd events set_events set_document].
  - split; [reflexivity|]. split.
    + rewrite fetches_snoc_console, Hf. rewrite drop_app_length. reflexivity.
    + rewrite Hl.
      match goal with
      | |- context [set_events ?l' (set_document ?d (set_events _ p))] => exists d, l'
      end.
      split; [reflexivity|].
      repeat (eapply same_ids_trans; [|apply same_ids_restyled]). apply same_ids_refl.
  - split; [reflexivity|]. split.
    + rewrite Hf. rewrite drop_app_length. reflexivity.
    + rewrite Hl.
      match goal with
      | |- context [set_document ?d (set_events ?l' p)] => exists d, l'
      end.
      split; [reflexivity|].
      repeat (eapply same_ids_trans; [|apply same_ids_restyled]). apply same_ids_refl.
Qed.

Lemma handleTextQuery_request_witness :
  element_by_id "query-input" (document (typed "query-input" "  why?  " (served answering))) =
    Some (set_value "  why?  " (plain "query-input" [])) /\
  result Controller.handleTextQuery (typed "query-input" "  why?  " (served answering))
    = inr tt /\
  requests Controller.handleTextQuery (typed "query-input" "  why?  " (served answering)) =
    [ {| url := "http://localhost:5000/api/query"; method := "POST";
         headers := [("Content-Type", "application/json")];
         body := BodyText <$>
                   JSON_stringify (VObj [("query", VStr "why?"); ("top_k", VNum 5)]) |} ].
Proof.
  assert (He : element_by_id "query-input"
                 (document (typed "query-input" "  why?  " (served answering))) =
               Some (set_value "  why?  " (plain "query-input" []))) by reflexivity.
  split; [exact He|].
  destruct (handleTextQuery_request (typed "query-input" "  why?  " (served answering)) _ He)
    as (Hres & Hreq & _); [vm_compute; discriminate|].
  split; [exact Hres|]. rewrite Hreq. vm_compute. reflexivity.
Defined.

Lemma element_by_id_on (i : string) (o : option nat) (f : Element -> Element)
    (d : list Element) :
  (forall e, elem_id (f e) = elem_id e) ->
  o = lookup_id i d ->
  element_by_id i (on o f d) = f <$> element_by_id i d.
Proof.
  intros Hf ->. unfold element_by_id. fold (lookup_id i (on (lookup_id i d) f d)). fold (lookup_id i d).
  rewrite find_on by exact Hf. destruct (lookup_id i d) as [r|] eqn:Hr; [|reflexivity].
  rewrite lookup_on, bool_decide_true by reflexivity. reflexivity.
Qed.

Lemma element_by_id_on_other (i j : string) (o : option nat) (f : Element -> Element)
    (d : list Element) :
  (forall e, elem_id (f e) = elem_id e) ->
  o = lookup_id j d -> i <> j ->
  element_by_id i (on o f d) = element_by_id i d.
Proof.
  intros Hf -> Hij. unfold element_by_id. fold (lookup_id i (on (lookup_id j d) f d)). fold (lookup_id i d).
  rewrite find_on by exact Hf. destruct (lookup_id i d) as [r|] eqn:Hr; [|reflexivity].
  rewrite lookup_on. case_bool_decide as Hj; [|now destruct (d !! r)].
  apply find_Some in Hr as (x & Hx & Hxi). apply find_Some in Hj as (y & Hy & Hyj).
  congruence.
Qed.

Ltac same_find := rewrite ?find_on by keeps_id; reflexivity.

Lemma loading_hidden (d : list Element) (x : Element) :
  element_by_id "loading" (restyled HHideLoading d) = Some x -> has_class "hidden" x = true.
Proof.
  cbn [restyled]. rewrite element_by_id_on by (first [keeps_id | same_find]).
  destruct (element_by_id "loading" d) as [x0|]; [|discriminate].
  intros [= <-]. rewrite has_class_add. rewrite bool_decide_true by reflexivity.
  apply orb_true_r.
Qed.

(** X20: what [handleTextQuery] shows for a question.  In every case the
    loading indicator is hidden again.  When [queryText] returns a result
    with an answer, nothing more is logged and the element [text-answer]
    holds the answer; when the call fails, or the result is a failure or
    has no answer, the exception is logged with [console.error] under
    "Query error:" and the element [voice-status] shows
    [Error: <its message>] as an error. *)
Theorem handleTextQuery_outcome (p : Page) (e : Element) :
  element_by_id "query-input" (document p) = Some e ->
  trim (value e) <> "" ->
  let call := API.queryText (VStr (trim (value e))) (VNum 5) in
  let p' := run Controller.handleTextQuery p in
  (forall x, element_by_id "loading" (document p') = Some x -> has_class "hidden" x = true) /\
  match result (bind call Controller.answer_of) p with
  | inr a =>
      events p' = events (run call p) /\
      forall x, element_by_id "text-answer" (document p') = Some x ->
                textContent x = View.dom_string a
  | inl err =>
      events p' = (events (run call p) ++ [EConsoleError "Query error:" (Some err)])%list /\
      forall x, element_by_id "voice-status" (document p') = Some x ->
                textContent x = "Error: " +:+ message_of err /\
                classList x = ["status-message"; "error"] /\
                display x = "block"
  end.
Proof.
  intros He Ht call p'. apply element_by_id_find in He as (r & Hr & He).
  pose proof (handleTextQuery_run p r e Hr He Ht) as Hrun. cbv zeta in Hrun.
  fold call in Hrun. subst p'.
  change (run Controller.handleTextQuery p) with (Controller.handleTextQuery p).1.
  rewrite Hrun. clear Hrun.
  set (d0 := restyled (HHideStatus "voice-status")
               (restyled (HShowLoading "Thinking...") (document p))).
  destruct (result _ p) as [err|a]; cbn [fst snd events document set_events set_document].
  - split; [|split; [reflexivity|]].
    + intros x. cbn [restyled].
      rewrite element_by_id_on_other with (j := "voice-status")
        by (first [keeps_id | same_find | discriminate]).
      apply loading_hidden.
    + intros x. cbn [restyled].
      rewrite element_by_id_on by (first [keeps_id | same_find]).
      destruct (element_by_id "voice-status" _) as [x0|]; [|discriminate].
      intros [= <-]. repeat split.
  - split; [|split; [reflexivity|]].
    + intros x. cbn [restyled].
      rewrite element_by_id_on_other with (j := "audio-player")
        by (first [keeps_id | same_find | discriminate]).
      rewrite element_by_id_on_other with (j := "text-result")
        by (first [keeps_id | same_find | discriminate]).
      rewrite element_by_id_on_other with (j := "text-answer")
        by (first [keeps_id | same_find | discriminate]).
      apply loading_hidden.
    + intros x. cbn [restyled].
      rewrite element_by_id_on_other with (j := "audio-player")
        by (first [keeps_id | same_find | discriminate]).
      rewrite element_by_id_on_other with (j := "text-result")
        by (first [keeps_id | same_find | discriminate]).
      rewrite element_by_id_on by (first [keeps_id | same_find]).
      destruct (element_by_id "text-answer" _) as [x0|]; [|discriminate].
      intros [= <-]. reflexivity.
Qed.

Lemma handleTextQuery_outcome_witness :
  element_by_id "query-input" (document (typed "query-input" "  why?  " (served answering))) =
    Some (set_value "  why?  " (plain "query-input" [])) /\
  element_by_id "text-answer"
    (document (run Controller.handleTextQuery
                 (typed "query-input" "  why?  " (served answering)))) =
    Some (set_textContent "42" (plain "text-answer" [])) /\
  textContent (set_textContent "42" (plain "text-answer" [])) = "42".
Proof.
  assert (He : element_by_id "query-input"
                 (document (typed "query-input" "  why?  " (served answering))) =
               Some (set_value "  why?  " (plain "query-input" []))) by reflexivity.
  assert (Hx : element_by_id "text-answer"
                 (document (run Controller.handleTextQuery
                              (typed "query-input" "  why?  " (served answering)))) =
               Some (set_textContent "42" (plain "text-answer" [])))
    by (vm_compute; reflexivity).
  split; [exact He|]. split; [exact Hx|].
  pose proof (handleTextQuery_outcome (typed "query-input" "  why?  " (served answering)) _ He)
    as H.
  cbv zeta in H. destruct H as (_ & H); [vm_compute; discriminate|].
  assert (Hres : result (bind (API.queryText (VStr (trim "  why?  ")) (VNum 5))
                           Controller.answer_of)
                   (typed "query-input" "  why?  " (served answering)) = inr (VStr "42"))
    by (vm_compute; reflexivity).
  change (value (set_value "  why?  " (plain "query-input" []))) with "  why?  " in H.
  rewrite Hres in H. destruct H as (_ & H). exact (H _ Hx).
Defined.

Lemma payload_of_pure (r : Value) (p q : Page) :
  Controller.payload_of r p = (p, result (Controller.payload_of r) q).
Proof.
  unfold Controller.payload_of, Controller.rejected, Controller.throw_result_error,
    Controller.opt_prop, result, bind, lift, ret, throw.
  repeat (case_match; cbn in *; simplify_eq; try reflexivity).
Qed.

Lemma payload_of_defined (r v : Value) (p : Page) :
  result (Controller.payload_of r) p = inr v -> Controller.nullish v = false.
Proof.
  unfold Controller.payload_of, Controller.rejected, Controller.throw_result_error,
    Controller.opt_prop, result, bind, lift, ret, throw.
  repeat (case_match; cbn in *; simplify_eq; try discriminate);
    intros [= <-]; try reflexivity; try assumption;
    match goal with
    | H : negb (truthy ?x) = false |- _ => destruct x; try reflexivity; discriminate H
    end.
Qed.

(** The property read of a value that is neither [null] nor [undefined]. *)
Lemma get_prop_defined (v : Value) (k : string) :
  Controller.nullish v = false -> exists x, get_prop v k = inr x.
Proof. destruct v; try discriminate; intros _; eexists; reflexivity. Qed.

Lemma displayImageResult_run (payload t a : Value) (p : Page) :
  get_prop payload "extracted_text" = inr t ->
  get_prop payload "answer" = inr a ->
  let d := document p in
  View.displayImageResult payload p =
    (set_document
       (on (lookup_id "image-result" d) (classList_remove "hidden")
          (on (lookup_id "image-answer" d) (set_textContent (View.dom_string (or_else a (VStr ""))))
             (on (lookup_id "ocr-text" d) (set_value (View.value_string (or_else t (VStr "")))) d))) p,
     inr tt).
Proof.
  intros Ht Ha d. subst d.
  unfold View.displayImageResult, View.scrollToElement, getElementById, bind, gets, lookup_id.
  cbn -[positions]. rewrite Ht, Ha.
  repeat (match goal with
          | |- context [head (positions ?f 0 (document p))] =>
              destruct (head (positions f 0 (document p))); cbn -[positions]
          end);
  repeat (match goal with
          | |- context [when_present ?o _] => destruct o; cbn -[positions]
          end);
  rewrite ?set_document_id; reflexivity.
Qed.

Lemma image_document (d : list Element) (t a : string) :
  let d' := on (lookup_id "image-result" d) (classList_remove "hidden")
              (on (lookup_id "image-answer" d) (set_textContent a)
                 (on (lookup_id "ocr-text" d) (set_value t) d)) in
  (forall x, element_by_id "ocr-text" d' = Some x -> value x = normalize_newlines t) /\
  (forall x, element_by_id "image-answer" d' = Some x -> textContent x = a) /\
  (forall x, element_by_id "image-result" d' = Some x -> has_class "hidden" x = false) /\
  element_by_id "loading" d' = element_by_id "loading" d.
Proof.
  cbv zeta. split; [|split; [|split]]; try intros x.
  - rewrite element_by_id_on_other with (j := "image-result")
      by (first [keeps_id | same_find | discriminate]).
    rewrite element_by_id_on_other with (j := "image-answer")
      by (first [keeps_id | same_find | discriminate]).
    rewrite element_by_id_on by (first [keeps_id | same_find]).
    destruct (element_by_id "ocr-text" _) as [x0|]; [|discriminate].
    intros [= <-]. reflexivity.
  - rewrite element_by_id_on_other with (j := "image-result")
      by (first [keeps_id | same_find | discriminate]).
    rewrite element_by_id_on by (first [keeps_id | same_find]).
    rewrite element_by_id_on_other with (j := "ocr-text")
      by (first [keeps_id | same_find | discriminate]).
    destruct (element_by_id "image-answer" _) as [x0|]; [|discriminate].
    intros [= <-]. reflexivity.
  - rewrite element_by_id_on by (first [keeps_id | same_find]).
    destruct (element_by_id "image-result" _) as [x0|]; [|discriminate].
    intros [= <-]. rewrite has_class_remove.
    rewrite bool_decide_true by reflexivity. apply andb_false_r.
  - rewrite element_by_id_on_other with (j := "image-result")
      by (first [keeps_id | same_find | discriminate]).
    rewrite element_by_id_on_other with (j := "image-answer")
      by (first [keeps_id | same_find | discriminate]).
    rewrite element_by_id_on_other with (j := "ocr-text")
      by (first [keeps_id | same_find | discriminate]).
    reflexivity.
Qed.

(** X21: [displayImageResult] on a payload that is neither [null] nor
    [undefined] completes and logs nothing; afterwards the value of the
    element [ocr-text] reads back as [extracted_text] with every CR LF
    and every lone CR turned into LF, the element [image-answer] holds
    [answer], each the empty string when the payload has none, and the
    element [image-result] is not hidden.  On [null] or [undefined] it
    throws a [TypeError] as soon as the element [ocr-text] exists. *)
Theorem displayImageResult_shows (payload : Value) (p : Page) :
  (Controller.nullish payload = false ->
   result (View.displayImageResult payload) p = inr tt /\
   events (run (View.displayImageResult payload) p) = events p /\
   let d' := document (run (View.displayImageResult payload) p) in
   (forall x, element_by_id "ocr-text" d' = Some x ->
      exists t, get_prop payload "extracted_text" = inr t /\
                value x = normalize_newlines (View.value_string (or_else t (VStr "")))) /\
   (forall x, element_by_id "image-answer" d' = Some x ->
      exists a, get_prop payload "answer" = inr a /\
                textContent x = View.dom_string (or_else a (VStr ""))) /\
   (forall x, element_by_id "image-result" d' = Some x -> has_class "hidden" x = false)) /\
  (Controller.nullish payload = true ->
   element_by_id "ocr-text" (document p) <> None ->
   exists m, View.displayImageResult payload p = (p, inl (TypeError m))).
Proof.
  split.
  - intros Hn.
    destruct (get_prop_defined payload "extracted_text" Hn) as [t Ht].
    destruct (get_prop_defined payload "answer" Hn) as [a Ha].
    unfold run, result. rewrite (displayImageResult_run payload t a p Ht Ha).
    cbn [fst snd events document set_document].
    split; [reflexivity|]. split; [reflexivity|]. cbv zeta.
    destruct (image_document (document p) (View.value_string (or_else t (VStr "")))
                (View.dom_string (or_else a (VStr "")))) as (H1 & H2 & H3 & _).
    split; [|split]; intros x Hx.
    + exists t. split; [exact Ht | exact (H1 x Hx)].
    + exists a. split; [exact Ha | exact (H2 x Hx)].
    + exact (H3 x Hx).
  - intros Hn Hocr.
    destruct (element_by_id "ocr-text" (document p)) as [x|] eqn:Hx; [|contradiction].
    apply element_by_id_find in Hx as (k & Hk & _).
    unfold View.displayImageResult, getElementById, bind, gets.
    rewrite Hk. cbn -[positions].
    destruct payload; try discriminate Hn; cbn; eexists; reflexivity.
Qed.

Lemma imageQuery_fetches (p : Page) (f : File) (t : string) :
  fetches (events (run (API.imageQuery (VFile f) (VStr t) (VNum 5)) p)) =
    (fetches (events p) ++
     [ {| url := API_BASE_URL p +:+ "/api/image-query"; method := "POST"; headers := [];
          body := Some (BodyForm [("image", FormFile f); ("query", FormString (trim t));
                                  ("top_k", FormString "5")]) |} ])%list.
Proof.
  unfold API.imageQuery. exec. cbn.
  name_request.
  - finish_log.
  - exec. destruct (ok r); cbn.
    + destruct (parsed r); finish_log.
    + destruct (parsed r) as [v|]; cbn; [destruct (get_prop v "error")|]; finish_log.
Qed.

(** The [catch] block of [handleImageAnalysis]. *)
Lemma alert_catch_run (m l : string) (err : exn) (d : list Element) (p : Page) :
  (UI.hideLoading;;; UI.showError m;;; console_error l (Some err)) (set_document d p) =
  (set_events (events p ++ [EAlert ("Error: " +:+ m); EConsoleError m None;
                            EConsoleError l (Some err)])
     (set_document (restyled HHideLoading d) p), inr tt).
Proof.
  unfold bind at 1. change UI.hideLoading with (helper HHideLoading). rewrite helper_eq.
  unfold UI.showError, alert, console_error, log, modify, bind.
  cbn [events set_events set_document document fst snd].
  rewrite <- !app_assoc. reflexivity.
Qed.

(** The page [handleImageAnalysis] leaves, written out. *)
Lemma handleImageAnalysis_run (p : Page) (f : File) (r : nat) (e : Element) :
  selectedImage p = Some f ->
  lookup_id "image-query-input" (document p) = Some r ->
  document p !! r = Some e ->
  let call := API.imageQuery (VFile f) (VStr (trim (value e))) (VNum 5) in
  let d0 := restyled (HShowLoading "Analyzing image...") (document p) in
  Controller.handleImageAnalysis p =
    match result (bind call Controller.payload_of) p with
    | inr payload =>
        View.displayImageResult payload (set_document (restyled HHideLoading d0) (run call p))
    | inl err =>
        (set_events
           (events (run call p) ++
            [EAlert ("Error: " +:+ "Analysis failed: " +:+ message_of err);
             EConsoleError ("Analysis failed: " +:+ message_of err) None;
             EConsoleError "Image analysis error:" (Some err)])
           (set_document (restyled HHideLoading d0) (run call p)), inr tt)
    end.
Proof.
  intros Hs Hf He call d0.
  unfold Controller.handleImageAnalysis.
  unfold bind at 1. unfold gets at 1. rewrite Hs.
  unfold bind at 1. unfold getElementById at 1, gets at 1.
  rewrite Hf. cbn [non_null]. unfold bind at 1. unfold ret at 1.
  unfold bind at 1. unfold read at 1. rewrite He.
  unfold bind at 1. change (UI.showLoading ?t) with (helper (HShowLoading t)).
  rewrite helper_eq. fold d0.
  unfold try_catch at 1. unfold bind at 1.
  fold call. rewrite (run_ignores call) by apply ignores_imageQuery.
  assert (Hres : result (bind call Controller.payload_of) p =
                 match result call p with
                 | inl err => inl err
                 | inr res => result (Controller.payload_of res) (run call p)
                 end).
  { unfold result, run, bind. destruct (call p) as [p1 [|]]; reflexivity. }
  rewrite Hres. clear Hres.
  generalize (result call p) (run call p). intros [err|res] p1.
  - exact (alert_catch_run _ "Image analysis error:" err _ p1).
  - unfold Controller.handleImageAnalysis_then. unfold bind at 1.
    rewrite (payload_of_pure res _ p1).
    destruct (result (Controller.payload_of res) p1) as [err|payload] eqn:Hp.
    + exact (alert_catch_run _ "Image analysis error:" err _ p1).
    + apply payload_of_defined in Hp.
      destruct (get_prop_defined payload "extracted_text" Hp) as [t Ht].
      destruct (get_prop_defined payload "answer" Hp) as [a Ha].
      unfold bind at 1. change UI.hideLoading with (helper HHideLoading). rewrite helper_eq.
      rewrite !(displayImageResult_run payload t a _ Ht Ha). reflexivity.
Qed.

Lemma imageQuery_logs (p : Page) f q k :
  exists l, run (API.imageQuery f q k) p = set_events l p.
Proof. apply (call_only_logs (CImageQuery f q k) p). Qed.

(** X22: [handleImageAnalysis] does nothing when no image is selected.
    With an image selected it throws a [TypeError] when the element
    [image-query-input] is missing; otherwise it never throws, sends
    exactly one request, the POST of [imageQuery] with the selected file,
    the trimmed input as [query] and ["5"] as [top_k], and leaves the
    selected image selected. *)
Theorem handleImageAnalysis_request (p : Page) :
  (selectedImage p = None -> Controller.handleImageAnalysis p = (p, inr tt)) /\
  (forall f, selectedImage p = Some f ->
     element_by_id "image-query-input" (document p) = None ->
     exists m, Controller.handleImageAnalysis p = (p, inl (TypeError m))) /\
  (forall f e, selectedImage p = Some f ->
     element_by_id "image-query-input" (document p) = Some e ->
     result Controller.handleImageAnalysis p = inr tt /\
     requests Controller.handleImageAnalysis p =
       [ {| url := API_BASE_URL p +:+ "/api/image-query"; method := "POST"; headers := [];
            body := Some (BodyForm [("image", FormFile f);
                                    ("query", FormString (trim (value e)));
                                    ("top_k", FormString "5")]) |} ] /\
     selectedImage (run Controller.handleImageAnalysis p) = Some f).
Proof.
  split; [|split].
  - intros Hs. unfold Controller.handleImageAnalysis, bind, gets. rewrite Hs. reflexivity.
  - intros f Hs Hn. apply element_by_id_None in Hn.
    unfold Controller.handleImageAnalysis, bind, gets, getElementById, gets.
    rewrite Hs, Hn. eexists. reflexivity.
  - intros f e Hs He. apply element_by_id_find in He as (r & Hr & He).
    pose proof (handleImageAnalysis_run p f r e Hs Hr He) as Hrun. cbv zeta in Hrun.
    pose proof (imageQuery_fetches p f (trim (value e))) as Hf.
    rewrite trim_idempotent in Hf.
    destruct (imageQuery_logs p (VFile f) (VStr (trim (value e))) (VNum 5)) as [l Hl].
    unfold requests, run, result. rewrite Hrun.
    destruct (result _ p) as [err|payload] eqn:Hp.
    + cbn [fst snd events set_events set_document selectedImage].
      split; [reflexivity|]. split.
      * rewrite !fetches_app, Hf. cbn. rewrite app_nil_r, drop_app_length. reflexivity.
      * rewrite Hl. exact Hs.
    + assert (Hd : Controller.nullish payload = false).
      { unfold result, bind in Hp.
        destruct (API.imageQuery _ _ _ p) as [p1 [|res]]; [discriminate|].
        eapply (payload_of_defined res payload p1). exact Hp. }
      destruct (get_prop_defined payload "extracted_text" Hd) as [t Ht].
      destruct (get_prop_defined payload "answer" Hd) as [a Ha].
      rewrite (displayImageResult_run payload t a _ Ht Ha).
      cbn [fst snd events set_events set_document selectedImage].
      split; [reflexivity|]. split.
      * rewrite Hf. rewrite drop_app_length. reflexivity.
      * rewrite Hl. exact Hs.
Qed.

(** X23: what [handleImageAnalysis] shows.  The loading indicator is
    hidden again in every case.  On success nothing more is logged, and
    the payload ([data] of the result, or the result itself when it has no
    [data]) is shown: the value of [ocr-text] reads back as its
    [extracted_text] with every CR LF and every lone CR turned into LF,
    [image-answer] holds its [answer], and [image-result] is not hidden.  On
    failure the user gets the alert [Error: Analysis failed: <message>],
    the exception is logged, and the document is what showing and hiding
    the loading indicator leaves. *)
Theorem handleImageAnalysis_outcome (p : Page) (f : File) (e : Element) :
  selectedImage p = Some f ->
  element_by_id "image-query-input" (document p) = Some e ->
  let call := API.imageQuery (VFile f) (VStr (trim (value e))) (VNum 5) in
  let p' := run Controller.handleImageAnalysis p in
  (forall x, element_by_id "loading" (document p') = Some x -> has_class "hidden" x = true) /\
  match result (bind call Controller.payload_of) p with
  | inr payload =>
      events p' = events (run call p) /\
      (forall x, element_by_id "ocr-text" (document p') = Some x ->
         exists t, get_prop payload "extracted_text" = inr t /\
                   value x = normalize_newlines (View.value_string (or_else t (VStr "")))) /\
      (forall x, element_by_id "image-answer" (document p') = Some x ->
         exists a, get_prop payload "answer" = inr a /\
                   textContent x = View.dom_string (or_else a (VStr ""))) /\
      (forall x, element_by_id "image-result" (document p') = Some x ->
         has_class "hidden" x = false)
  | inl err =>
      events p' =
        (events (run call p) ++
         [EAlert ("Error: Analysis failed: " +:+ message_of err);
          EConsoleError ("Analysis failed: " +:+ message_of err) None;
          EConsoleError "Image analysis error:" (Some err)])%list /\
      document p' = restyled HHideLoading
                      (restyled (HShowLoading "Analyzing image...") (document p))
  end.
Proof.
  intros Hs He call p'. apply element_by_id_find in He as (r & Hr & He).
  pose proof (handleImageAnalysis_run p f r e Hs Hr He) as Hrun. cbv zeta in Hrun.
  fold call in Hrun. subst p'.
  change (run Controller.handleImageAnalysis p) with (Controller.handleImageAnalysis p).1.
  rewrite Hrun. clear Hrun.
  destruct (result _ p) as [err|payload] eqn:Hp.
  - cbn [fst snd events document set_events set_document].
    split; [apply loading_hidden|]. split; reflexivity.
  - assert (Hd : Controller.nullish payload = false).
    { unfold result, bind in Hp.
      destruct (call p) as [p1 [|res]]; [discriminate|].
      eapply (payload_of_defined res payload p1). exact Hp. }
    destruct (get_prop_defined payload "extracted_text" Hd) as [t Ht].
    destruct (get_prop_defined payload "answer" Hd) as [a Ha].
    rewrite (displayImageResult_run payload t a _ Ht Ha).
    cbn [fst snd events document set_events set_document].
    match goal with
    | |- context [on _ _ (on _ (set_textContent ?A) (on _ (set_value ?T) ?d))] =>
        destruct (image_document d T A) as (H1 & H2 & H3 & H4)
    end.
    split; [intros x; rewrite H4; apply loading_hidden|].
    split; [reflexivity|].
    split; [|split]; intros x Hx.
    + exists t. split; [exact Ht | exact (H1 x Hx)].
    + exists a. split; [exact Ha | exact (H2 x Hx)].
    + exact (H3 x Hx).
Qed.

Lemma handleImageAnalysis_outcome_witness :
  selectedImage (analysing described) = Some small_file /\
  element_by_id "image-query-input" (document (analysing described)) =
    Some (set_value "what is this?" (plain "image-query-input" [])) /\
  element_by_id "image-answer"
    (document (run Controller.handleImageAnalysis (analysing described))) =
    Some (set_textContent "A stop sign" (plain "image-answer" [])) /\
  exists a, get_prop (VObj [("extracted_text", VStr "STOP"); ("answer", VStr "A stop sign")])
              "answer" = inr a /\
            textContent (set_textContent "A stop sign" (plain "image-answer" [])) =
              View.dom_string (or_else a (VStr "")).
Proof.
  assert (He : element_by_id "image-query-input" (document (analysing described)) =
               Some (set_value "what is this?" (plain "image-query-input" [])))
    by reflexivity.
  assert (Hx : element_by_id "image-answer"
                 (document (run Controller.handleImageAnalysis (analysing described))) =
               Some (set_textContent "A stop sign" (plain "image-answer" [])))
    by (vm_compute; reflexivity).
  split; [reflexivity|]. split; [exact He|]. split; [exact Hx|].
  pose proof (handleImageAnalysis_outcome (analysing described) small_file _ eq_refl He) as H.
  cbv zeta in H. destruct H as (_ & H).
  assert (Hres : result (bind (API.imageQuery (VFile small_file)
                                 (VStr (trim "what is this?")) (VNum 5))
                           Controller.payload_of)
                   (analysing described) =
                 inr (VObj [("extracted_text", VStr "STOP"); ("answer", VStr "A stop sign")]))
    by (vm_compute; reflexivity).
  change (value (set_value "what is this?" (plain "image-query-input" [])))
    with "what is this?" in H.
  rewrite Hres in H. destruct H as (_ & _ & H & _). exact (H _ Hx).
Defined.

Lemma alerts_app (l1 l2 : list Event) : alerts (l1 ++ l2) = (alerts l1 ++ alerts l2)%list.
Proof. unfold alerts. apply omap_app. Qed.

Ltac close_events :=
  repeat split; try (eexists; reflexivity);
  unfold fetches, alerts; rewrite ?omap_app; cbn; rewrite ?app_nil_r; reflexivity.

(** X24: [checkSystemHealth] never throws, sends the one request of
    [healthCheck], and changes nothing of the page but the log.  It alerts
    the user exactly when [healthCheck] fails or returns [null], and the
    alert names the base URL in use. *)
Theorem checkSystemHealth_reports (p : Page) :
  let p' := run Controller.checkSystemHealth p in
  let msg := "Error: Backend connection failed at " +:+ API_BASE_URL p +:+
             ". Please ensure backend is running and reachable." in
  result Controller.checkSystemHealth p = inr tt /\
  requests Controller.checkSystemHealth p = requests_of CHealthCheck p /\
  (exists l, p' = set_events l p) /\
  alerts (events p') =
    (alerts (events p) ++
     match result API.healthCheck p with
     | inl _ => [msg]
     | inr h => if Controller.nullish h then [msg] else []
     end)%list.
Proof.
  cbv zeta. unfold requests, requests_of, page_after, Controller.checkSystemHealth,
    API.healthCheck, API.getBaseUrl, UI.showError.
  exec. cbn.
  name_request; cbn; [close_events|].
  destruct (ok r); cbn; [|close_events].
  destruct (parsed r) as [h|]; cbn; [|close_events].
  destruct h; cbn; try close_events.
  all: destruct (strict_eq_str _ _); cbn; close_events.
Qed.

Lemma textToSpeech_logs (p : Page) t :
  exists l, run (API.textToSpeech t) p = set_events l p.
Proof. apply (call_only_logs (CTextToSpeech t) p). Qed.

(** X25: the edges of [handleTextToSpeech].  Without the element
    [text-answer] it throws a [TypeError]; with it, it never throws.  On
    an empty answer it does nothing at all.  When [textToSpeech] fails for
    the answer (a blank answer included), no object URL is created or
    revoked, the exception is logged under "TTS error:", the element
    [voice-status] shows "Audio generation failed" as an error, and the
    loading indicator is hidden again. *)
Theorem handleTextToSpeech_edges (p : Page) :
  (element_by_id "text-answer" (document p) = None ->
   exists m, Main.handleTextToSpeech p = (p, inl (TypeError m))) /\
  (forall e, element_by_id "text-answer" (document p) = Some e ->
     result Main.handleTextToSpeech p = inr tt /\
     (textContent e = "" -> Main.handleTextToSpeech p = (p, inr tt)) /\
     (textContent e <> "" ->
      forall err, failure (CTextToSpeech (VStr (textContent e))) p = Some err ->
        let p' := run Main.handleTextToSpeech p in
        same_urls p p' /\
        events p' = (events (page_after (CTextToSpeech (VStr (textContent e))) p) ++
                     [EConsoleError "TTS error:" (Some err)])%list /\
        (forall x, element_by_id "voice-status" (document p') = Some x ->
           textContent x = "Audio generation failed" /\
           classList x = ["status-message"; "error"] /\
           display x = "block") /\
        (forall x, element_by_id "loading" (document p') = Some x ->
           has_class "hidden" x = true))).
Proof.
  split.
  - intros Hn. apply element_by_id_None in Hn.
    eexists. unfold Main.handleTextToSpeech, bind, getElementById, gets.
    rewrite Hn. reflexivity.
  - intros e He. apply element_by_id_find in He as (r & Hr & He).
    assert (Hrun : Main.handleTextToSpeech p =
              if negb (truthy (VStr (textContent e))) then (p, inr tt)
              else
                let d0 := restyled (HShowLoading "Generating audio...") (document p) in
                let call := API.textToSpeech (VStr (textContent e)) in
                match result call p with
                | inl err => Main.handleTextToSpeech_catch err (set_document d0 (run call p))
                | inr b =>
                    match Main.handleTextToSpeech_then b (set_document d0 (run call p)) with
                    | (q, inl err) => Main.handleTextToSpeech_catch err q
                    | (q, inr a) => (q, inr a)
                    end
                end).
    { unfold Main.handleTextToSpeech.
      unfold bind at 1. unfold getElementById at 1, gets at 1.
      rewrite Hr. cbn [non_null]. unfold bind at 1. unfold ret at 1.
      unfold bind at 1. unfold read at 1. rewrite He.
      destruct (negb (truthy (VStr (textContent e)))); [reflexivity|].
      unfold bind at 1. change (UI.showLoading ?t) with (helper (HShowLoading t)).
      rewrite helper_eq. cbv zeta.
      unfold try_catch at 1. unfold bind at 1.
      rewrite (run_ignores (API.textToSpeech (VStr (textContent e))))
        by apply ignores_textToSpeech.
      destruct (result _ p) as [err|b]; [reflexivity|].
      destruct (Main.handleTextToSpeech_then b _) as [q [err|[]]]; reflexivity. }
    assert (Hcatch : forall err d q,
              Main.handleTextToSpeech_catch err (set_document d q) =
              (set_events (events q ++ [EConsoleError "TTS error:" (Some err)])
                 (set_document
                    (restyled (HShowStatus "voice-status" "Audio generation failed" "error")
                       (restyled HHideLoading d)) q), inr tt)).
    { intros err d q.
      exact (status_catch_run "voice-status" "Audio generation failed" "TTS error:" err d q). }
    split; [|split].
    + unfold result at 1. rewrite Hrun.
      destruct (negb _); [reflexivity|]. cbv zeta.
      destruct (result _ p) as [err|b]; [now rewrite Hcatch|].
      destruct (Main.handleTextToSpeech_then b _) as [q [err|[]]]; [|reflexivity].
      rewrite <- (set_document_id q). now rewrite Hcatch.
    + intros Hempty. rewrite Hrun, Hempty. reflexivity.
    + intros Hfull err Hfail. cbv zeta.
      assert (Ht : truthy (VStr (textContent e)) = true)
        by (destruct (textContent e); [contradiction|reflexivity]).
      unfold failure, outcome in Hfail. unfold page_after.
      destruct (textToSpeech_logs p (VStr (textContent e))) as [l Hl].
      unfold run at 1 2 4 5. rewrite Hrun, Ht. cbn [negb]. cbv zeta.
      destruct (result _ p) as [err'|b]; [|discriminate]. injection Hfail as ->.
      rewrite Hcatch. cbn [fst snd events document set_events set_document].
      split; [rewrite Hl; repeat split|]. split; [reflexivity|]. split.
      * intros x. cbn [restyled].
        rewrite element_by_id_on by (first [keeps_id | same_find]).
        destruct (element_by_id "voice-status" _) as [x0|]; [|discriminate].
        intros [= <-]. repeat split.
      * intros x. cbn [restyled].
        rewrite element_by_id_on_other with (j := "voice-status")
          by (first [keeps_id | same_find | discriminate]).
        apply loading_hidden.
Qed.

(** X26: [downloadResult] throws a [TypeError] before anything else when
    the element [image-answer] is missing, but tolerates a missing
    [ocr-text].  Otherwise the file it offers is the answer under the
    heading [=== AI ANSWER ===], preceded by the OCR text under its own
    heading when there is some; the log gains the creation, the download
    and the revocation of one object URL, in this order; the document and
    the stored audio URL stay as they are, and the live object URLs are
    the same as before when the number of the new URL was unused. *)
Theorem downloadResult_file (p : Page) :
  (element_by_id "image-answer" (document p) = None ->
   exists m, Main.downloadResult p = (p, inl (TypeError m))) /\
  (forall a, element_by_id "image-answer" (document p) = Some a ->
     let ocr := match element_by_id "ocr-text" (document p) with
                | Some o => value o
                | None => ""
                end in
     let content :=
       if bool_decide (ocr = "") then "=== AI ANSWER ===" +:+ Main.newline +:+ textContent a
       else "=== IMAGE OCR TEXT ===" +:+ Main.newline +:+ ocr +:+ Main.newline +:+
            Main.newline +:+ "=== AI ANSWER ===" +:+ Main.newline +:+ textContent a in
     let u := nextObjectURL p in
     let p' := run Main.downloadResult p in
     Main.downloadResult p =
       (downloaded {| blob_bytes := content; blob_type := "text/plain" |} p, inr tt) /\
     events p' = (events p ++ [ECreateObjectURL u; EDownload u; ERevokeObjectURL u])%list /\
     document p' = document p /\
     currentAudioUrl p' = currentAudioUrl p /\
     (objectURLs p !! u = None -> objectURLs p' = objectURLs p)).
Proof.
  assert (Hocr : exists o,
            match lookup_id "ocr-text" (document p) with
            | Some r => read r value
            | None => ret ""
            end p = (p, inr o) /\
            o = match element_by_id "ocr-text" (document p) with
                | Some x => value x
                | None => ""
                end).
  { destruct (element_by_id "ocr-text" (document p)) as [x|] eqn:Hx.
    - apply element_by_id_find in Hx as (k & Hk & Hx). rewrite Hk. unfold read. rewrite Hx.
      eexists. split; reflexivity.
    - apply element_by_id_None in Hx.
      rewrite Hx. eexists. split; reflexivity. }
  destruct Hocr as (o & Hocr & Ho). rewrite <- Ho. clear Ho.
  set (content := fun a : Element =>
         if bool_decide (o = "")
         then "=== AI ANSWER ===" +:+ Main.newline +:+ textContent a
         else "=== IMAGE OCR TEXT ===" +:+ Main.newline +:+ o +:+ Main.newline +:+
              Main.newline +:+ "=== AI ANSWER ===" +:+ Main.newline +:+ textContent a).
  assert (Hrun : Main.downloadResult p =
            match lookup_id "image-answer" (document p) with
            | Some k =>
                match document p !! k with
                | Some a =>
                    (downloaded {| blob_bytes := content a; blob_type := "text/plain" |} p,
                     inr tt)
                | None => (p, inl (TypeError "Cannot read properties of undefined"))
                end
            | None => (p, inl (TypeError "Cannot read properties of null"))
            end).
  { unfold Main.downloadResult. unfold bind at 1. unfold getElementById at 1, gets at 1.
    unfold bind at 1. rewrite Hocr. clear Hocr. cbv beta iota.
    unfold bind at 1. unfold getElementById at 1, gets at 1.
    destruct (lookup_id "image-answer" (document p)) as [k|]; [|reflexivity].
    cbn [non_null]. unfold bind at 1. unfold ret at 1.
    unfold bind at 1. unfold read at 1.
    destruct (document p !! k) as [a|]; [|reflexivity].
    cbv zeta. rewrite truthy_trim. unfold content.
    destruct (bool_decide (o = "")); reflexivity. }
  split.
  - intros Hn. apply element_by_id_None in Hn.
    rewrite Hrun, Hn. eexists. reflexivity.
  - intros a Ha. apply element_by_id_find in Ha as (k & Hk & Ha). cbv zeta.
    unfold run. rewrite Hrun, Hk, Ha. fold (content a).
    split; [reflexivity|].
    unfold downloaded, run, bind, createObjectURL, revokeObjectURL, log, modify.
    cbn [fst snd events document currentAudioUrl objectURLs nextObjectURL set_events
         set_objectURLs set_document].
    split; [now rewrite <- !app_assoc|]. split; [reflexivity|]. split; [reflexivity|].
    intros Hfresh. rewrite delete_insert_eq. now apply delete_id.
Qed.

End ControllerFacts.

(** ** Sessions of the page *)
Module SessionFacts.
Import JS Host DOM Spec Spec2 ApiFacts TabFacts MainFacts StringFacts ApiMore ViewFacts
  ControllerFacts.

Lemma keeps_ret {A} (a : A) : keeps_image (ret a).
Proof. intros p. reflexivity. Qed.

Lemma keeps_throw {A} (e : exn) : keeps_image (@throw A e).
Proof. intros p. reflexivity. Qed.

Lemma keeps_lift {A} (r : exn + A) : keeps_image (lift r).
Proof. intros p. reflexivity. Qed.

Lemma keeps_gets {A} (f : Page -> A) : keeps_image (gets f).
Proof. intros p. reflexivity. Qed.

Lemma keeps_bind {A B} (m : M A) (k : A -> M B) :
  keeps_image m -> (forall a, keeps_image (k a)) -> keeps_image (bind m k).
Proof.
  intros Hm Hk p. specialize (Hm p). unfold run, bind in *.
  destruct (m p) as [p' [e|a]]; cbn in *; [exact Hm|].
  rewrite <- Hm. apply Hk.
Qed.

Lemma keeps_try_catch {A} (m : M A) (h : exn -> M A) :
  keeps_image m -> (forall e, keeps_image (h e)) -> keeps_image (try_catch m h).
Proof.
  intros Hm Hh p. specialize (Hm p). unfold run, try_catch in *.
  destruct (m p) as [p' [e|a]]; cbn in *; [|exact Hm].
  rewrite <- Hm. apply Hh.
Qed.

Lemma keeps_log (e : Event) : keeps_image (log e).
Proof. intros p. reflexivity. Qed.

Lemma keeps_update (r : nat) (f : Element -> Element) : keeps_image (update r f).
Proof. intros p. reflexivity. Qed.

Lemma keeps_read {A} (r : nat) (f : Element -> A) : keeps_image (read r f).
Proof. intros p. unfold run, read. now destruct (document p !! r). Qed.

Lemma keeps_non_null (o : option nat) : keeps_image (non_null o).
Proof. destruct o; intros p; reflexivity. Qed.

Lemma keeps_when_present (o : option nat) (f : nat -> M unit) :
  (forall r, keeps_image (f r)) -> keeps_image (when_present o f).
Proof. intros Hf. destruct o; [apply Hf | apply keeps_ret]. Qed.

Lemma keeps_forEach (l : list nat) (f : nat -> M unit) :
  (forall r, keeps_image (f r)) -> keeps_image (forEach l f).
Proof.
  intros Hf. induction l as [|r l IH]; cbn; [apply keeps_ret|].
  apply keeps_bind; [apply Hf | intros _; exact IH].
Qed.

Lemma keeps_fetch (req : Request) : keeps_image (fetch req).
Proof. intros p. reflexivity. Qed.

Lemma keeps_createObjectURL (b : Blob) : keeps_image (createObjectURL b).
Proof. intros p. reflexivity. Qed.

Lemma keeps_revokeObjectURL (u : nat) : keeps_image (revokeObjectURL u).
Proof. intros p. reflexivity. Qed.

Lemma keeps_set_currentAudioUrl (v : option nat) : keeps_image (modify (set_currentAudioUrl v)).
Proof. intros p. reflexivity. Qed.

Create HintDb keeps.
#[local] Hint Resolve keeps_ret keeps_throw keeps_lift keeps_gets keeps_log keeps_update
  keeps_read keeps_non_null keeps_fetch keeps_createObjectURL keeps_revokeObjectURL
  keeps_set_currentAudioUrl : keeps.

Ltac keep := repeat (intros; first
  [ solve [auto with keeps]
  | apply keeps_bind | apply keeps_try_catch | apply keeps_when_present
  | apply keeps_forEach
  | progress unfold getElementById, querySelectorAll_class, alert, console_error, json, blob,
      API.is_blank, API.throw_response_error, API.getBaseUrl, Main.item,
      UI.showLoading, UI.hideLoading, UI.showStatus, UI.hideStatus, UI.showError,
      View.scrollToElement, View.displayTextAnswer, View.displayImageResult,
      Controller.rejected, Controller.throw_result_error, Controller.answer_of,
      Controller.payload_of, Main.handleTextToSpeech_then, Main.handleTextToSpeech_catch,
      Controller.checkSystemHealth_then, Controller.checkSystemHealth_catch,
      Controller.handleTextQuery_then, Controller.handleTextQuery_catch,
      Controller.handleVoiceInput_then, Controller.handleVoiceInput_catch,
      Controller.handleImageAnalysis_then, Controller.handleImageAnalysis_catch,
      Main.reader_onload, Main.reader_onerror
  | match goal with
    | |- keeps_image (if ?b then _ else _) => destruct b
    | |- keeps_image (match ?x with _ => _ end) => destruct x
    end ]).

Lemma keeps_healthCheck : keeps_image API.healthCheck.
Proof. unfold API.healthCheck. keep. Qed.

Lemma keeps_queryText q k : keeps_image (API.queryText q k).
Proof. unfold API.queryText. keep. Qed.

Lemma keeps_imageQuery f q k : keeps_image (API.imageQuery f q k).
Proof. unfold API.imageQuery. keep. Qed.

Lemma keeps_textToSpeech t : keeps_image (API.textToSpeech t).
Proof. unfold API.textToSpeech. keep. Qed.

#[local] Hint Resolve keeps_healthCheck keeps_queryText keeps_imageQuery keeps_textToSpeech
  : keeps.

Lemma keeps_checkSystemHealth : keeps_image Controller.checkSystemHealth.
Proof. unfold Controller.checkSystemHealth. keep. Qed.

Lemma keeps_handleTextQuery : keeps_image Controller.handleTextQuery.
Proof. unfold Controller.handleTextQuery. keep. Qed.

Lemma keeps_handleImageAnalysis : keeps_image Controller.handleImageAnalysis.
Proof. unfold Controller.handleImageAnalysis. keep. Qed.

Lemma keeps_handleTextToSpeech : keeps_image Main.handleTextToSpeech.
Proof. unfold Main.handleTextToSpeech. keep. Qed.

Lemma keeps_clearTextResults : keeps_image Main.clearTextResults.
Proof. unfold Main.clearTextResults. keep. Qed.

Lemma keeps_downloadResult : keeps_image Main.downloadResult.
Proof. unfold Main.downloadResult. keep. Qed.

Lemma keeps_switchTab tab : keeps_image (Main.switchTab tab).
Proof. unfold Main.switchTab. keep. Qed.

Lemma keeps_beforeunload : keeps_image Main.beforeunload.
Proof. unfold Main.beforeunload. keep. Qed.

Lemma select_within_cap (file : File) (p : Page) :
  (forall f, selectedImage p = Some f -> (file_size f <= Main.maxSize)%Z) ->
  forall f, selectedImage (run (Main.handleImageSelect file) p) = Some f ->
            (file_size f <= Main.maxSize)%Z.
Proof.
  intros Hp f. unfold Main.handleImageSelect.
  destruct (Z.gtb_spec (file_size file) Main.maxSize) as [Hgt|Hle].
  - intros Hf. apply Hp. exact Hf.
  - intros [= <-]. exact Hle.
Qed.

Lemma keeps_on_dragover a : keeps_image (Controller.on_dragover a).
Proof. unfold Controller.on_dragover. keep. Qed.

Lemma keeps_on_dragleave a : keeps_image (Controller.on_dragleave a).
Proof. unfold Controller.on_dragleave. keep. Qed.

Lemma on_drop_run (a : nat) (files : list File) (p : Page) :
  let q := set_document (alter (classList_remove "dragover") a (document p)) p in
  Controller.on_drop a files p =
    match files with
    | file :: _ =>
        if String.prefix "image/" (file_type file) then Main.handleImageSelect file q
        else UI.showError "Please upload a valid image file" q
    | [] => UI.showError "Please upload a valid image file" q
    end.
Proof.
  unfold Controller.on_drop, bind, update, modify. cbn [fst snd].
  destruct files as [|file rest]; [reflexivity|]. cbn [lookup list_lookup].
  destruct (String.prefix _ _); reflexivity.
Qed.

Lemma keeps_handleVoiceInput sup o : keeps_image (Controller.handleVoiceInput sup o).
Proof. unfold Controller.handleVoiceInput. keep. Qed.

Lemma keeps_helper h : keeps_image (helper h).
Proof.
  intros p. destruct (restyles_helper h p) as (d & a & Hrun & _).
  unfold run. now rewrite Hrun.
Qed.

Ltac kept :=
  left;
  match goal with
  | |- selectedImage (run ?m ?p) = _ => revert p; change (keeps_image m); keep
  end.

(** What a step of the page does to the selected image: nothing, or it
    selects a file within the cap. *)
Lemma listener_selects (p p' : Page) :
  listener p p' ->
  selectedImage p' = selectedImage p \/
  exists f, selectedImage p' = Some f /\ (file_size f <= Main.maxSize)%Z.
Proof.
  assert (Hsel : forall file q,
            selectedImage (run (Main.handleImageSelect file) q) = selectedImage q \/
            exists f, selectedImage (run (Main.handleImageSelect file) q) = Some f /\
                      (file_size f <= Main.maxSize)%Z).
  { intros file q. unfold Main.handleImageSelect.
    destruct (Z.gtb_spec (file_size file) Main.maxSize) as [Hgt|Hle]; [now left|].
    right. exists file. split; [reflexivity | exact Hle]. }
  intros Hstep. destruct Hstep.
  - left. apply keeps_clearTextResults.
  - left. apply keeps_on_dragover.
  - left. apply keeps_on_dragleave.
  - unfold run. rewrite on_drop_run. cbv zeta.
    destruct files as [|file rest]; [now left|].
    destruct (String.prefix _ _); [|now left].
    apply (Hsel file (set_document _ p)).
  - unfold Controller.on_change. destruct files as [|file rest]; cbn [lookup list_lookup].
    + now left.
    + apply Hsel.
  - left. apply keeps_downloadResult.
  - left. apply keeps_switchTab.
  - left. apply keeps_beforeunload.
  - kept.
  - kept.
  - left. apply keeps_checkSystemHealth.
  - left. apply keeps_handleTextQuery.
  - left. apply keeps_handleVoiceInput.
  - left. apply keeps_handleTextToSpeech.
  - left. apply keeps_handleImageAnalysis.
  - left. apply keeps_helper.
  - left. reflexivity.
  - left. reflexivity.
  - kept.
  - kept.
  - kept.
  - kept.
  - kept.
  - kept.
  - kept.
  - kept.
  - kept.
  - kept.
Qed.

(** X27: however the page has run since it loaded, the selected image, if
    there is one, has at most 16 MiB: only [handleImageSelect] assigns
    [selectedImage], and only after its size check.  The runs are those
    of every listener the scripts register and of the callbacks of the
    file reader, with the asynchronous handlers (the health check, ask,
    voice input, listen, analyze) run as a whole as well as in the parts
    they run in when other listeners run while they wait. *)
Theorem selected_image_within_cap (p : Page) :
  session p ->
  forall f, selectedImage p = Some f -> (file_size f <= Main.maxSize)%Z.
Proof.
  induction 1 as [p Hnone _ | p p' _ IH Hstep].
  - intros f Hf. congruence.
  - intros f Hf. destruct (listener_selects p p' Hstep) as [Hsame | (g & Hg & Hsize)].
    + apply IH. now rewrite <- Hsame.
    + rewrite Hg in Hf. now inversion Hf; subst.
Qed.

Lemma selected_image_within_cap_witness :
  session (run (Controller.on_change [small_file]) (served healthy)) /\
  selectedImage (run (Controller.on_change [small_file]) (served healthy)) = Some small_file /\
  (file_size small_file <= Main.maxSize)%Z.
Proof.
  assert (Hs : session (run (Controller.on_change [small_file]) (served healthy))).
  { eapply session_step; [|apply listener_change].
    apply session_start; [reflexivity | split; reflexivity]. }
  split; [exact Hs|]. split; [reflexivity|].
  exact (selected_image_within_cap _ Hs small_file eq_refl).
Defined.

#[local] Hint Resolve frames_ret frames_throw frames_lift frames_gets frames_bind
  frames_try_catch frames_log frames_alert frames_console_error frames_update frames_read
  frames_non_null frames_getElementById frames_querySelectorAll frames_when_present
  frames_forEach frames_fetch frames_set_selectedImage frames_showLoading frames_hideLoading
  frames_showStatus frames_hideStatus frames_showError frames_handleImageSelect
  frames_healthCheck frames_queryText frames_imageQuery frames_textToSpeech : frames.

Lemma frames_displayTextAnswer a : frames (View.displayTextAnswer a).
Proof. unfold View.displayTextAnswer, View.scrollToElement. frame. Qed.

Lemma frames_displayImageResult a : frames (View.displayImageResult a).
Proof. unfold View.displayImageResult, View.scrollToElement. frame. Qed.

#[local] Hint Resolve frames_displayTextAnswer frames_displayImageResult : frames.

Lemma frames_checkSystemHealth_then h : frames (Controller.checkSystemHealth_then h).
Proof. unfold Controller.checkSystemHealth_then. frame. Qed.

Lemma frames_checkSystemHealth_catch e : frames (Controller.checkSystemHealth_catch e).
Proof. unfold Controller.checkSystemHealth_catch, API.getBaseUrl. frame. Qed.

Lemma frames_handleTextQuery_then r : frames (Controller.handleTextQuery_then r).
Proof.
  unfold Controller.handleTextQuery_then, Controller.answer_of, Controller.rejected,
    Controller.throw_result_error.
  frame.
Qed.

Lemma frames_handleTextQuery_catch e : frames (Controller.handleTextQuery_catch e).
Proof. unfold Controller.handleTextQuery_catch. frame. Qed.

Lemma frames_handleVoiceInput_then t : frames (Controller.handleVoiceInput_then t).
Proof. unfold Controller.handleVoiceInput_then. frame. Qed.

Lemma frames_handleVoiceInput_catch e : frames (Controller.handleVoiceInput_catch e).
Proof. unfold Controller.handleVoiceInput_catch. frame. Qed.

Lemma frames_handleImageAnalysis_then r : frames (Controller.handleImageAnalysis_then r).
Proof.
  unfold Controller.handleImageAnalysis_then, Controller.payload_of, Controller.rejected,
    Controller.throw_result_error.
  frame.
Qed.

Lemma frames_handleImageAnalysis_catch e : frames (Controller.handleImageAnalysis_catch e).
Proof. unfold Controller.handleImageAnalysis_catch. frame. Qed.

#[local] Hint Resolve frames_checkSystemHealth_then frames_checkSystemHealth_catch
  frames_handleTextQuery_then frames_handleTextQuery_catch frames_handleVoiceInput_then
  frames_handleVoiceInput_catch frames_handleImageAnalysis_then
  frames_handleImageAnalysis_catch : frames.

Lemma frames_checkSystemHealth : frames Controller.checkSystemHealth.
Proof. unfold Controller.checkSystemHealth. frame. Qed.

Lemma frames_handleTextQuery : frames Controller.handleTextQuery.
Proof. unfold Controller.handleTextQuery. frame. Qed.

Lemma frames_handleVoiceInput sup o : frames (Controller.handleVoiceInput sup o).
Proof. unfold Controller.handleVoiceInput. frame. Qed.

Lemma frames_handleImageAnalysis : frames Controller.handleImageAnalysis.
Proof. unfold Controller.handleImageAnalysis. frame. Qed.

Lemma frames_on_drop a files : frames (Controller.on_drop a files).
Proof. unfold Controller.on_drop. frame. Qed.

Lemma frames_on_change files : frames (Controller.on_change files).
Proof. unfold Controller.on_change. frame. Qed.

Lemma frames_reader_onload f : frames (Main.reader_onload f).
Proof. unfold Main.reader_onload. frame. Qed.

Lemma frames_helper h : frames (helper h).
Proof.
  intros p. destruct (restyles_helper h p) as (d & a & Hrun & _).
  unfold run. rewrite Hrun. apply quiet_document.
Qed.

(** Every step of the page is one of the steps the invariant of the object
    URLs is stated for. *)
Lemma listener_step (p p' : Page) : listener p p' -> step p p'.
Proof.
  intros Hstep. destruct Hstep.
  - apply step_clear.
  - apply step_other. apply (frames_update a).
  - apply step_other. apply (frames_update a).
  - apply step_other. apply frames_on_drop.
  - apply step_other. apply frames_on_change.
  - apply step_download.
  - apply step_switch.
  - apply step_unload.
  - apply step_other. apply frames_reader_onload.
  - apply step_other. apply (frames_showError "Failed to read image file").
  - apply step_other. apply frames_checkSystemHealth.
  - apply step_other. apply frames_handleTextQuery.
  - apply step_other. apply frames_handleVoiceInput.
  - apply step_tts.
  - apply step_other. apply frames_handleImageAnalysis.
  - apply step_other. apply frames_helper.
  - apply step_other. apply frames_fetch.
  - apply step_other. apply frames_log.
  - apply step_other. apply frames_checkSystemHealth_then.
  - apply step_other. apply frames_checkSystemHealth_catch.
  - apply step_other. apply frames_handleTextQuery_then.
  - apply step_other. apply frames_handleTextQuery_catch.
  - apply step_other. apply frames_handleVoiceInput_then.
  - apply step_other. apply frames_handleVoiceInput_catch.
  - apply step_tts_then.
  - apply step_tts_catch.
  - apply step_other. apply frames_handleImageAnalysis_then.
  - apply step_other. apply frames_handleImageAnalysis_catch.
Qed.

(** X28: what runs on the page is among the steps the invariant of the
    object URLs is stated for: every page of a session is reachable in
    that sense, so at every point of a session every live object URL is
    the stored audio URL, and the stored URL was handed out before.  Of
    all listeners, callbacks and parts of the asynchronous handlers, only
    [clearTextResults], [downloadResult], [beforeunload] and
    [handleTextToSpeech], as a whole and where it resumes with the audio,
    create or revoke an object URL or assign the stored one. *)
Theorem session_is_reachable (p : Page) :
  (session p ->
   reachable p /\
   (forall u, u ∈ live p -> currentAudioUrl p = Some u) /\
   (forall u, currentAudioUrl p = Some u -> u < nextObjectURL p)) /\
  (forall p', listener p p' ->
     same_urls p p' \/
     p' = run Main.clearTextResults p \/ p' = run Main.downloadResult p \/
     p' = run Main.beforeunload p \/ p' = run Main.handleTextToSpeech p \/
     exists b, p' = run (Main.handleTextToSpeech_then b) p).
Proof.
  split.
  - intros Hs.
    assert (Hr : reachable p).
    { induction Hs as [p _ Hl | p p' _ IH Hstep].
      - apply reachable_loaded. exact Hl.
      - apply (reachable_step p p' IH). apply listener_step. exact Hstep. }
    split; [exact Hr|]. exact (url_inv_reachable p Hr).
  - intros p' Hstep. destruct Hstep.
    + right. left. reflexivity.
    + left. apply (frames_update a).
    + left. apply (frames_update a).
    + left. apply frames_on_drop.
    + left. apply frames_on_change.
    + right. right. left. reflexivity.
    + left. apply frames_switchTab.
    + right. right. right. left. reflexivity.
    + left. apply frames_reader_onload.
    + left. apply (frames_showError "Failed to read image file").
    + left. apply frames_checkSystemHealth.
    + left. apply frames_handleTextQuery.
    + left. apply frames_handleVoiceInput.
    + right. right. right. right. left. reflexivity.
    + left. apply frames_handleImageAnalysis.
    + left. apply frames_helper.
    + left. apply frames_fetch.
    + left. apply frames_log.
    + left. apply frames_checkSystemHealth_then.
    + left. apply frames_checkSystemHealth_catch.
    + left. apply frames_handleTextQuery_then.
    + left. apply frames_handleTextQuery_catch.
    + left. apply frames_handleVoiceInput_then.
    + left. apply frames_handleVoiceInput_catch.
    + right. right. right. right. right. exists audioBlob. reflexivity.
    + left. apply frames_catch.
    + left. apply frames_handleImageAnalysis_then.
    + left. apply frames_handleImageAnalysis_catch.
Qed.

Lemma session_is_reachable_witness :
  session (run Controller.handleTextQuery (served healthy)) /\
  reachable (run Controller.handleTextQuery (served healthy)).
Proof.
  assert (Hs : session (run Controller.handleTextQuery (served healthy))).
  { eapply session_step; [|apply listener_ask].
    apply session_start; [reflexivity | split; reflexivity]. }
  split; [exact Hs|].
  exact (proj1 (proj1 (session_is_reachable _) Hs)).
Defined.

(** X29: the two ways to choose a file differ in what they accept.  The
    file input takes any file of at most 16 MiB, whatever its type; a drop
    takes it only when its type starts with [image/], and otherwise
    alerts "Please upload a valid image file" and leaves the selection as
    it is, as it does for a drop without files.  The file input with no
    file does nothing.  After a drop the upload area is never marked
    [dragover]. *)
Theorem drop_checks_type (p : Page) (a : nat) (file : File) (rest : list File) :
  (file_size file <= Main.maxSize)%Z ->
  selectedImage (run (Controller.on_change (file :: rest)) p) = Some file /\
  (String.prefix "image/" (file_type file) = true ->
   selectedImage (run (Controller.on_drop a (file :: rest)) p) = Some file) /\
  (String.prefix "image/" (file_type file) = false ->
   selectedImage (run (Controller.on_drop a (file :: rest)) p) = selectedImage p /\
   alerts (events (run (Controller.on_drop a (file :: rest)) p)) =
     (alerts (events p) ++ ["Error: Please upload a valid image file"])%list) /\
  selectedImage (run (Controller.on_drop a []) p) = selectedImage p /\
  alerts (events (run (Controller.on_drop a []) p)) =
    (alerts (events p) ++ ["Error: Please upload a valid image file"])%list /\
  Controller.on_change [] p = (p, inr tt) /\
  (forall files x, document (run (Controller.on_drop a files) p) !! a = Some x ->
     has_class "dragover" x = false).
Proof.
  intros Hsize.
  assert (Hsel : forall q, selectedImage (run (Main.handleImageSelect file) q) = Some file).
  { intros q. unfold Main.handleImageSelect.
    destruct (Z.gtb_spec (file_size file) Main.maxSize) as [Hgt|Hle]; [lia|reflexivity]. }
  assert (Herr : forall q m, alerts (events (run (UI.showError m) q)) =
                             (alerts (events q) ++ ["Error: " +:+ m])%list).
  { intros q m. unfold run, UI.showError, alert, console_error, log, modify, bind.
    cbn [fst snd events set_events]. rewrite !alerts_app. cbn. now rewrite app_nil_r. }
  split; [apply Hsel|].
  split; [intros Hty; unfold run; rewrite on_drop_run; cbv zeta; rewrite Hty; apply Hsel|].
  split.
  { intros Hty. unfold run. rewrite on_drop_run. cbv zeta. rewrite Hty.
    split; [reflexivity | exact (Herr (set_document _ p) _)]. }
  split; [reflexivity|].
  split; [unfold run; rewrite on_drop_run; exact (Herr (set_document _ p) _)|].
  split; [reflexivity|].
  intros files x. unfold run. rewrite on_drop_run. cbv zeta.
  assert (Hdoc : document
            (match files with
             | file0 :: _ =>
                 if String.prefix "image/" (file_type file0)
                 then Main.handleImageSelect file0
                        (set_document (alter (classList_remove "dragover") a (document p)) p)
                 else UI.showError "Please upload a valid image file"
                        (set_document (alter (classList_remove "dragover") a (document p)) p)
             | [] => UI.showError "Please upload a valid image file"
                       (set_document (alter (classList_remove "dragover") a (document p)) p)
             end).1 = alter (classList_remove "dragover") a (document p)).
  { destruct files as [|f0 r0]; [reflexivity|].
    destruct (String.prefix _ _); [|reflexivity].
    unfold Main.handleImageSelect. destruct (_ >? _)%Z; reflexivity. }
  rewrite Hdoc. rewrite list_lookup_alter_eq.
  destruct (document p !! a) as [x0|]; [|discriminate].
  intros [= <-]. rewrite has_class_remove.
  rewrite bool_decide_true by reflexivity. apply andb_false_r.
Qed.

Lemma drop_checks_type_witness :
  (file_size pdf_file <= Main.maxSize)%Z /\
  selectedImage (run (Controller.on_change [pdf_file]) (analysing described)) = Some pdf_file /\
  selectedImage (run (Controller.on_drop 0 [pdf_file]) (analysing described)) = Some small_file.
Proof.
  assert (Hsize : (file_size pdf_file <= Main.maxSize)%Z) by (vm_compute; discriminate).
  split; [exact Hsize|].
  destruct (drop_checks_type (analysing described) 0 pdf_file [] Hsize) as (H1 & _ & H2 & _).
  split; [exact H1|]. exact (proj1 (H2 eq_refl)).
Defined.

End SessionFacts.

(** ** Tab switching on a page without its buttons *)
Module TabMore.
Import JS Host DOM Spec Spec2 TabFacts.

Lemma deactivated_inactive (c : string) (d : list Element) :
  let d' := alter_all deactivate (positions (has_class "tab-content") 0 d)
              (alter_all deactivate (positions (has_class "tab-btn") 0 d) d) in
  c = "tab-btn" \/ c = "tab-content" ->
  active_with c d' = [].
Proof.
  intros d' Hc. unfold active_with. apply positions_none. intros k e.
  unfold d'. rewrite !lookup_alter_all by apply remove_idempotent.
  destruct (d !! k) as [e0|] eqn:Hk; [|discriminate]. cbn. intros [= <-].
  assert (Hin : forall c', has_class c' e0 = true -> k ∈ positions (has_class c') 0 d)
    by (intros c' Hc'; apply in_positions_0; eauto).
  unfold deactivate.
  repeat case_bool_decide; cbn;
    rewrite ?has_class_remove; cbn;
    rewrite ?(bool_decide_true ("active" = "active")) by reflexivity;
    rewrite ?andb_false_r; try reflexivity.
  destruct (has_class c e0) eqn:Hce; [|reflexivity].
  destruct Hc as [-> | ->]; apply Hin in Hce; contradiction.
Qed.

(** X30: [switchTab] on a page without the tab button it needs (no
    [.tab-btn] for the text tab, fewer than two for the image tab) throws
    a [TypeError] after its loops have run: every tab button and every
    tab panel has lost [active], and nothing is active afterwards. *)
Theorem switchTab_missing_button (p : Page) (tab : Value) :
  positions (has_class "tab-btn") 0 (document p)
    !! (if strict_eq_str tab "text" then 0 else 1) = None ->
  let d' := document (run (Main.switchTab tab) p) in
  (exists m, result (Main.switchTab tab) p = inl (TypeError m)) /\
  d' = alter_all deactivate (positions (has_class "tab-content") 0 (document p))
         (alter_all deactivate (positions (has_class "tab-btn") 0 (document p)) (document p)) /\
  active_with "tab-btn" d' = [] /\
  active_with "tab-content" d' = [].
Proof.
  intros Hmiss d'.
  assert (Hrun : Main.switchTab tab p =
            (set_document
               (alter_all deactivate (positions (has_class "tab-content") 0 (document p))
                  (alter_all deactivate (positions (has_class "tab-btn") 0 (document p))
                     (document p))) p,
             inl (TypeError "Cannot read properties of null"))).
  { unfold Main.switchTab, querySelectorAll_class.
    unfold bind at 1. unfold gets at 1. unfold bind at 1. unfold gets at 1.
    unfold bind at 1. rewrite forEach_update_run.
    unfold bind at 1. rewrite forEach_update_run. cbn [document set_document].
    unfold Main.item.
    destruct (strict_eq_str tab "text"); unfold bind at 1; rewrite Hmiss; reflexivity. }
  subst d'. unfold run, result. rewrite Hrun. cbn [fst snd document set_document].
  split; [eexists; reflexivity|]. split; [reflexivity|].
  split; apply deactivated_inactive; auto.
Qed.

Lemma switchTab_missing_button_witness :
  positions (has_class "tab-btn") 0 (document no_buttons) !! 0 = None /\
  (exists m, result (Main.switchTab (VStr "text")) no_buttons = inl (TypeError m)) /\
  active_with "tab-content" (document (run (Main.switchTab (VStr "text")) no_buttons)) = [].
Proof.
  assert (H : positions (has_class "tab-btn") 0 (document no_buttons)
                !! (if strict_eq_str (VStr "text") "text" then 0 else 1) = None)
    by reflexivity.
  split; [exact H|].
  destruct (switchTab_missing_button no_buttons (VStr "text") H) as (H1 & _ & _ & H2).
  split; [exact H1 | exact H2].
Defined.

End TabMore.
